(** * Telegram-Music-Bot: dispatcher, worker conversation and helpers

    A shallow embedding of [utils.py], [worker.py] and [core.py].

    Python text is modelled as [string] (a sequence of bytes, read as
    UTF-8); every pattern the program searches for is ASCII, so byte-wise
    search and replacement agree with Python's on code points.  The
    whitespace characters of [re] and of [int] are recognised by their
    UTF-8 encodings. *)

From Stdlib Require Import ZArith String Ascii List Bool Lia.
From stdpp Require Import base option list gmap strings pretty.

Local Open Scope Z_scope.

(** ** Python string primitives *)

Module PyStr.

(** The one-character string [c]. *)
Definition chr (c : ascii) : string := String c EmptyString.

(** The double quote, code point 34. *)
Definition dquote : ascii := ascii_of_nat 34.

(** [needle in hay]. *)
Fixpoint contains (needle hay : string) : bool :=
  String.prefix needle hay
  || match hay with
     | EmptyString => false
     | String _ hay' => contains needle hay'
     end.

(** [s.startswith(p)]. *)
Definition startswith (p s : string) : bool := String.prefix p s.

(** [s.replace(old, new)] for a non-empty [old]: occurrences are found
    left to right and do not overlap; [skip] counts the characters of the
    occurrence just replaced that are still to be dropped. *)
Fixpoint replace_from (old new : string) (skip : nat) (s : string) : string :=
  match s with
  | EmptyString => EmptyString
  | String c s' =>
      match skip with
      | S k => replace_from old new k s'
      | O =>
          if String.prefix old s
          then new +:+ replace_from old new (String.length old - 1) s'
          else String c (replace_from old new 0 s')
      end
  end.

Definition replace (old new s : string) : string := replace_from old new 0 s.

(** [c.upper()] and [s.upper()] on ASCII letters. *)
Definition upper_char (c : ascii) : ascii :=
  let n := nat_of_ascii c in
  if (Nat.leb 97 n && Nat.leb n 122)%bool then ascii_of_nat (n - 32) else c.

Fixpoint upper (s : string) : string :=
  match s with
  | EmptyString => EmptyString
  | String c s' => String (upper_char c) (upper s')
  end.

(** What a one-character pattern does to a single character. *)
Definition subst_char (c : ascii) (new : string) (d : ascii) : string :=
  if Ascii.eqb c d then new else chr d.

Fixpoint flat_map_chars (f : ascii -> string) (s : string) : string :=
  match s with
  | EmptyString => EmptyString
  | String d s' => f d +:+ flat_map_chars f s'
  end.

(** [s[n:]]. *)
Fixpoint drop (n : nat) (s : string) : string :=
  match n, s with
  | O, _ => s
  | S k, String _ s' => drop k s'
  | S _, EmptyString => EmptyString
  end.

(** The code points below 128 of the whitespace class of [\s] and
    [str.isspace]: TAB..CR, FS..US and the blank. *)
Definition is_space (c : ascii) : bool :=
  let n := nat_of_ascii c in
  ((Nat.leb 9 n && Nat.leb n 13) || (Nat.leb 28 n && Nat.leb n 32))%bool.

(** A string holds its text in UTF-8.  The number of bytes of the
    whitespace character above U+007F that [s] starts with, 0 when it
    starts with none.  These are U+0085, U+00A0, U+1680, U+2000 to U+200A,
    U+2028, U+2029, U+202F, U+205F and U+3000. *)
Definition wide_space (s : string) : nat :=
  match s with
  | String a (String b rest) =>
      let x := nat_of_ascii a in
      let y := nat_of_ascii b in
      if (Nat.eqb x 194 && (Nat.eqb y 133 || Nat.eqb y 160))%bool then 2%nat
      else
        match rest with
        | String c _ =>
            let z := nat_of_ascii c in
            if ((Nat.eqb x 225 && Nat.eqb y 154 && Nat.eqb z 128)
                || (Nat.eqb x 226 && Nat.eqb y 128
                    && ((Nat.leb 128 z && Nat.leb z 138)
                        || Nat.eqb z 168 || Nat.eqb z 169 || Nat.eqb z 175))
                || (Nat.eqb x 226 && Nat.eqb y 129 && Nat.eqb z 159)
                || (Nat.eqb x 227 && Nat.eqb y 128 && Nat.eqb z 128))%bool
            then 3%nat
            else 0%nat
        | EmptyString => 0%nat
        end
  | _ => 0%nat
  end.

(** Does a whitespace character, as [\s] has it, start [s]? *)
Definition space_here (s : string) : bool :=
  match s with
  | String c _ => is_space c || negb (Nat.eqb (wide_space s) 0)
  | EmptyString => false
  end.

(** The number of bytes of the character [int] skips at the start of [s],
    0 when there is none: [int] skips the whitespace of [str.isspace]
    except FS..US. *)
Definition int_space (s : string) : nat :=
  match s with
  | String c _ =>
      let n := nat_of_ascii c in
      if ((Nat.leb 9 n && Nat.leb n 13) || Nat.eqb n 32)%bool then 1%nat
      else wide_space s
  | EmptyString => 0%nat
  end.

(** [s] without the characters [int] skips at its start; [skip] counts the
    bytes of the character being skipped that are still to be dropped. *)
Fixpoint lstrip_from (skip : nat) (s : string) : string :=
  match s with
  | EmptyString => EmptyString
  | String c s' =>
      match skip with
      | S k => lstrip_from k s'
      | O =>
          match int_space s with
          | O => s
          | S k => lstrip_from k s'
          end
      end
  end.

Definition lstrip (s : string) : string := lstrip_from 0 s.

(** Is [s] made of characters [int] skips only? *)
Fixpoint all_space_from (skip : nat) (s : string) : bool :=
  match s with
  | EmptyString => true
  | String c s' =>
      match skip with
      | S k => all_space_from k s'
      | O =>
          match int_space s with
          | O => false
          | S k => all_space_from k s'
          end
      end
  end.

(** [s] without the characters [int] skips at its end. *)
Fixpoint rstrip (s : string) : string :=
  match s with
  | EmptyString => EmptyString
  | String c s' => if all_space_from 0 s then EmptyString else String c (rstrip s')
  end.

Definition strip (s : string) : string := rstrip (lstrip s).

Definition digit_value (c : ascii) : option Z :=
  let n := nat_of_ascii c in
  if (Nat.leb 48 n && Nat.leb n 57)%bool then Some (Z.of_nat (n - 48)) else None.

(** Decimal digits with single underscores between them; [need_digit]
    holds at the start and right after an underscore. *)
Fixpoint digits (acc : Z) (need_digit : bool) (s : string) : option Z :=
  match s with
  | EmptyString => if need_digit then None else Some acc
  | String c s' =>
      match digit_value c with
      | Some d => digits (10 * acc + d) false s'
      | None =>
          if (Ascii.eqb c "_" && negb need_digit)%bool
          then digits acc true s'
          else None
      end
  end.

(** [int(s)] in base ten; [None] stands for [ValueError].  The digits
    are those of ASCII: the decimal digits of other scripts, which [int]
    reads too, are not decoded. *)
Definition int (s : string) : option Z :=
  match strip s with
  | String "-" s' => Z.opp <$> digits 0 true s'
  | String "+" s' => digits 0 true s'
  | s' => digits 0 true s'
  end.

(** [s.split(sep)] for a one-character separator. *)
Fixpoint split_go (sep : ascii) (cur : string) (s : string) : list string :=
  match s with
  | EmptyString => [String.rev cur]
  | String c s' =>
      if Ascii.eqb c sep
      then String.rev cur :: split_go sep EmptyString s'
      else split_go sep (String c cur) s'
  end.

Definition split (sep : ascii) (s : string) : list string :=
  split_go sep EmptyString s.

(** Truth value of a string: non-empty. *)
Definition truthy (s : string) : bool :=
  match s with EmptyString => false | _ => true end.

(** The leading run of characters that [\s] does not match. *)
Fixpoint take_nonspace (s : string) : string :=
  match s with
  | EmptyString => EmptyString
  | String c s' => if space_here s then EmptyString else String c (take_nonspace s')
  end.

End PyStr.

(** ** Python lists and exceptions *)

Module Py.

(** The exceptions the program can meet.  [SystemExit] is not among them:
    it is not an [Exception], no handler of the program catches it, and
    it is a separate outcome below. *)
Inductive exn :=
| AttributeError (name : string)
| TypeError (what : string)
| KeyError (key : string)
| IndexError
| ValueError
| UnboundLocalError (name : string)
| DownloadError
| RequestException.

(** [l[i]] with Python's negative indices; [None] stands for
    [IndexError]. *)
Definition index {A} (l : list A) (i : Z) : option A :=
  let n := Z.of_nat (length l) in
  if (0 <=? i) && (i <? n) then l !! Z.to_nat i
  else if (i <? 0) && (- n <=? i) then l !! Z.to_nat (n + i)
  else None.

(** How a slice bound is clamped into [0 .. len]. *)
Definition clamp (len i : Z) : Z :=
  if i <? 0 then Z.max 0 (len + i) else Z.min len i.

(** [l[start:stop]]. *)
Definition slice {A} (l : list A) (start stop : Z) : list A :=
  let n := Z.of_nat (length l) in
  let lo := clamp n start in
  let hi := clamp n stop in
  take (Z.to_nat (hi - lo)) (List.skipn (Z.to_nat lo) l).

(** [l.index(x)]: position of the first element equal to [x]. *)
Fixpoint index_of `{EqDecision A} (x : A) (l : list A) : option nat :=
  match l with
  | [] => None
  | y :: l' => if decide (x = y) then Some O else S <$> index_of x l'
  end.

(** [[l[i:i+2] for i in range(0, len(l), 2)]]. *)
Fixpoint pairs {A} (l : list A) : list (list A) :=
  match l with
  | [] => []
  | [x] => [[x]]
  | x :: y :: l' => [x; y] :: pairs l'
  end.

End Py.

(** ** The [requests] boundary *)

Module Requests.

(** What the program reads of an HTTP response.  A header that is absent
    is [None]. *)
Record response := {
  status_code : Z;
  content_type : option string;
  content_length : option string;
  content : string
}.

End Requests.

(** ** utils.py *)

Module Utils.
Import PyStr.

(** [telegram_html_escape]: the four replacements, in source order. *)
Definition telegram_html_escape (string : String.string) : String.string :=
  replace (chr dquote) "&quot;"
    (replace "&" "&amp;"
       (replace ">" "&gt;"
          (replace "<" "&lt;" string))).

Section CheckThumbnail.
(** [requests.get]; [None] when the call raises. *)
Variable requests_get : string -> option Requests.response.

(** [check_thumbnail]: the URL when the request answers 200 with a JPEG
    content type and a declared length under 200 kB, [None] otherwise;
    every exception is swallowed. *)
Definition check_thumbnail (thumbnail_url : string) : option string :=
  match requests_get thumbnail_url with
  | None => None
  | Some response =>
      if Requests.status_code response =? 200 then
        let content_type := default "" (Requests.content_type response) in
        match int (default "0" (Requests.content_length response)) with
        | None => None
        | Some content_length =>
            if startswith "image/jpeg" content_type
               && (content_length <? 200 * 1024)
            then Some thumbnail_url
            else None
        end
      else None
  end.
End CheckThumbnail.

End Utils.

(** ** Telegram objects, as far as the program reads them *)

Module Telegram.

Record Message := {
  message_id : Z;
  chat_id : Z;
  chat_type : string;
  text : option string
}.

Record CallbackQuery := {
  cq_id : string;
  cq_from_user : Z;
  data : string
}.

Record PreCheckoutQuery := {
  pcq_id : string;
  pcq_from_user : Z;
  invoice_payload : string
}.

Record Update := {
  update_id : Z;
  message : option Message;
  callback_query : option CallbackQuery;
  pre_checkout_query : option PreCheckoutQuery
}.

(** A text shown to the user: a localisation key with its substitutions,
    rendered by the [Localization] object of the given language, or a
    literal.  [localization.py] is not among the sources: a text is kept
    as the key it is asked for, and where the program compares a rendered
    text the rendering is a parameter. *)
Inductive msg_text :=
| Loc (language key : string) (kwargs : list (string * string))
| Lit (s : string).

Record InlineKeyboardButton := {
  button_text : msg_text;
  callback_data : string
}.

(** A [reply_markup] argument. *)
Inductive markup :=
| NoMarkup
| ReplyKeyboardRemove
| ReplyKeyboardMarkup (keyboard : list (list msg_text))
    (resize_keyboard one_time_keyboard : bool)
| InlineKeyboardMarkup (keyboard : list (list InlineKeyboardButton)).

(** The calls made on the bot and on the storage session, in order. *)
Inductive action :=
| SendMessage (chat : Z) (txt : msg_text) (reply_markup : markup)
    (reply_to_message_id : option Z)
| EditMessageText (chat msg : Z) (txt : msg_text) (reply_markup : markup)
| EditMessageReplyMarkup (chat msg : Z) (reply_markup : markup)
| DeleteMessage (chat msg : Z)
| AnswerCallbackQuery (id : string)
| AnswerPreCheckoutQuery (id : string) (ok : bool) (error_message : msg_text)
| SendPhoto (chat : Z) (photo : string) (filename : string)
| SendAudio (chat : Z) (audio thumb : string) (caption : msg_text)
    (title filename : string)
| SessionClose.

End Telegram.



(** ** youtube_dl results *)

(** One entry of [data["formats"]], with an integer bit rate. *)
Module Format.
Record t := { abr : Z; ext : string; url : string }.
End Format.

(** One entry of [data["thumbnails"]]; [resolution] is [None] when the
    dictionary has no such key, and [width] is read only when it has. *)
Module Thumbnail.
Record t := { resolution : option string; width : Z; url : string }.
End Thumbnail.

(** The dictionary [extract_info] returns.  A field is [None] when the key
    is absent, and reading it then raises [KeyError].  An entry of a
    playlist is a dictionary of its own and is kept whole: the program
    reads its ["url"] and looks the entry itself up in the list. *)
Module Info.
Record t := {
  _type : option string;
  url : option string;
  title : option string;
  webpage_url : option string;
  entries : option (list (gmap string string));
  thumbnails : option (list Thumbnail.t);
  formats : option (list Format.t);
  http_headers : option string;
  uploader : option string
}.
End Info.

(** ** database.py *)

Module Db.

Record TelegramUser := {
  id : Z;
  tg_first_name : string;
  tg_last_name : option string;
  tg_username : option string;
  language_code : option string
}.

Record User := {
  user_id : Z;
  first_name : string;
  last_name : option string;
  username : option string;
  language : string
}.

Record Admin := { admin_user_id : Z; is_owner : bool }.

(** The two tables, in insertion order. *)
Record database := { users : list User; admins : list Admin }.

(** [User.__init__]. *)
Definition new_User (telegram_user : TelegramUser) (default_language : string)
  : User :=
  {| user_id := id telegram_user;
     first_name := tg_first_name telegram_user;
     last_name := tg_last_name telegram_user;
     username := tg_username telegram_user;
     language :=
       match language_code telegram_user with
       | Some l => if PyStr.truthy l then l else default_language
       | None => default_language
       end |}.

(** [User.__str__]. *)
Definition User_str (u : User) : string :=
  match username u with
  | Some n => "@" +:+ n
  | None =>
      match last_name u with
      | Some l => first_name u +:+ " " +:+ l
      | None => first_name u
      end
  end.

(** [User.identifiable_str]. *)
Definition identifiable_str (u : User) : string :=
  "user_" +:+ pretty (user_id u) +:+ " (" +:+ User_str u +:+ ")".

End Db.

(** ** worker.py *)

Module Worker.
Import PyStr Py Telegram.

(** What a worker's queue holds. *)
Inductive item :=
| Upd (update : Update)
| CancelSignal
| StopSignal (reason : string).

(** Attribute values of a [Worker] object. *)
Inductive value :=
| VNone
| VInt (z : Z)
| VStr (s : string)
| VObject (class : string)
| VUser (u : Db.User)
| VAdmin (a : Db.Admin)
| VLocalization (language : string).

(** The part of [cfg] the worker reads. *)
Record config := {
  default_language : string;
  fallback_language : string
}.

(** [Worker.__init__]: the attributes the constructor binds.  Neither
    [Worker] nor [threading.Thread] has a class attribute [loc] or
    [invoice_payload], so an attribute absent here is absent from the
    object. *)
Definition __init__ : gmap string value :=
  <["bot" := VObject "Bot"]>
    (<["chat" := VObject "Chat"]>
    (<["telegram_user" := VObject "User"]>
    (<["cfg" := VObject "NuConfig"]>
    (<["cancel_keyboard" := VObject "list"]>
    (<["ydl_opts" := VObject "dict"]>
    (<["ITEMS_PER_PAGE" := VInt 15]>
    (<["MAX_RETRIES" := VInt 3]>
    (<["session" := VObject "Session"]>
    (<["user" := VNone]>
    (<["admin" := VNone]>
    (<["queue" := VObject "Queue"]> ∅))))))))))).

Definition ITEMS_PER_PAGE : Z := 15.
Definition MAX_RETRIES : Z := 3.
Definition cancel_keyboard : list (list msg_text) := [[Lit "🔙 Cancel"]].

(** The state a worker thread acts on: its own attributes, what its queue
    will still deliver (when nothing is left the receive times out), the
    calls made so far, the id of the next message the bot sends, and the
    database.  A call on the bot is recorded and taken to succeed. *)
Record state := {
  attrs : gmap string value;
  queue : list item;
  out : list action;
  next_message_id : Z;
  db : Db.database
}.

(** The state with [q] left in the queue. *)
Definition with_queue (q : list item) (s : state) : state :=
  {| attrs := attrs s; queue := q; out := out s;
     next_message_id := next_message_id s; db := db s |}.

(** The queue with its clock.  [arrivals] are the items put into the
    queue, in order, each with the time it is put at.  At the time [now]
    the thread calls [queue.get(timeout=conversation_timeout)]: the call
    returns the first item if it is put before the time-out of this call
    expires, at once or when it arrives, and raises [queue.Empty]
    otherwise, which ends the thread.  Every receive starts a time-out of
    its own, at the time the item before was taken: a wait loop goes from
    one receive to the next without any call in between.  [served] is what
    the receives return one after the other, that is the [queue] of a
    [state]. *)
Fixpoint served (conversation_timeout now : Z) (arrivals : list (Z * item))
    : list item :=
  match arrivals with
  | [] => []
  | (t, d) :: arrivals =>
      if t <=? now + conversation_timeout
      then d :: served conversation_timeout (Z.max now t) arrivals
      else []
  end.

(** How a call ends: with a value, with an [Exception], with the
    [SystemExit] of [sys.exit(0)], or by exhausting the fuel of the
    model. *)
Inductive result (A : Type) :=
| Ret (a : A) (s : state)
| Raise (e : exn) (s : state)
| Exit (s : state)
| OutOfFuel.
Arguments Ret {A} a s.
Arguments Raise {A} e s.
Arguments Exit {A} s.
Arguments OutOfFuel {A}.

Definition M (A : Type) : Type := state -> result A.

Definition ret {A} (a : A) : M A := fun s => Ret a s.

Definition bind {A B} (m : M A) (k : A -> M B) : M B :=
  fun s =>
    match m s with
    | Ret a s' => k a s'
    | Raise e s' => Raise e s'
    | Exit s' => Exit s'
    | OutOfFuel => OutOfFuel
    end.

Definition raise {A} (e : exn) : M A := fun s => Raise e s.

(** [sys.exit(0)]. *)
Definition sys_exit {A} : M A := fun s => Exit s.

Definition out_of_fuel {A} : M A := fun _ => OutOfFuel.

(** [try: m except Exception: handler]. *)
Definition try_except {A} (m : M A) (handler : exn -> M A) : M A :=
  fun s =>
    match m s with
    | Raise e s' => handler e s'
    | r => r
    end.

(** [m] leaves the attributes of the worker as they are, however it
    ends. *)
Definition keeps_attrs {A} (m : M A) : Prop :=
  forall s,
    match m s with
    | Ret _ s' | Raise _ s' | Exit s' => attrs s' = attrs s
    | OutOfFuel => True
    end.

(** [m] binds no attribute outside [names], however it ends. *)
Definition binds_only {A} (names : list string) (m : M A) : Prop :=
  forall s,
    match m s with
    | Ret _ s' | Raise _ s' | Exit s' =>
        forall name, name ∉ names -> attrs s' !! name = attrs s !! name
    | OutOfFuel => True
    end.

(** [d[key]] on an optional field. *)
Definition getitem {A} (key : string) (field : option A) : M A :=
  match field with
  | Some a => ret a
  | None => raise (KeyError key)
  end.

Declare Scope worker_scope.
Delimit Scope worker_scope with worker.
Notation "'let*' x ':=' m 'in' k" := (bind m (fun x => k))
  (at level 10, x name, m at level 100, k at level 200) : worker_scope.
Notation "m '>>' k" := (bind m (fun _ => k))
  (at level 90, right associativity) : worker_scope.
Local Open Scope worker_scope.

(** A call on the bot or the session that returns nothing of use. *)
Definition call (a : action) : M unit :=
  fun s =>
    Ret tt {| attrs := attrs s; queue := queue s; out := out s ++ [a];
              next_message_id := next_message_id s; db := db s |}.

(** [bot.send_message]: the message sent gets the next id, which stands
    for the returned message object. *)
Definition send_message (chat : Z) (txt : msg_text) (reply_markup : markup)
    (reply_to_message_id : option Z) : M Z :=
  fun s =>
    Ret (next_message_id s)
        {| attrs := attrs s; queue := queue s;
           out := out s ++ [SendMessage chat txt reply_markup reply_to_message_id];
           next_message_id := next_message_id s + 1; db := db s |}.

(** [self.<name>], and [self.<name> = v]. *)
Definition getattr (name : string) : M value :=
  fun s =>
    match attrs s !! name with
    | Some v => Ret v s
    | None => Raise (AttributeError name) s
    end.

Definition setattr (name : string) (v : value) : M unit :=
  fun s =>
    Ret tt {| attrs := <[name := v]> (attrs s); queue := queue s; out := out s;
              next_message_id := next_message_id s; db := db s |}.

(** [self.loc.get(key, **kwargs)]. *)
Definition loc_get (key : string) (kwargs : list (string * string)) : M msg_text :=
  let* loc := getattr "loc" in
  match loc with
  | VLocalization language => ret (Loc language key kwargs)
  | _ => raise (AttributeError "get")
  end.

(** [is_ready], on the attributes of the object it is called on: the
    caller is the dispatcher, not the worker's own thread.  [inl] is the
    exception raised. *)
Definition is_ready (self : gmap string value) : exn + bool :=
  match self !! "loc" with
  | None => inl (AttributeError "loc")
  | Some loc => inr (match loc with VNone => false | _ => true end)
  end.

Section Conversation.
(** [self.chat.id]. *)
Variable chat : Z.
(** The text a [Localization] of a language gives for a key. *)
Variable render : string -> string -> string.
(** [requests.get] and [YoutubeDL.extract_info]; [None] when the call
    raises. *)
Variable requests_get : string -> option Requests.response.
Variable extract_info : string -> option Info.t.

(** [_notify_session_expiration]. *)
Definition _notify_session_expiration : M unit :=
  let* txt := loc_get "conversation_expired" [] in
  send_message chat txt ReplyKeyboardRemove None >> ret tt.

(** [_close_resources]. *)
Definition _close_resources : M unit :=
  call SessionClose >> sys_exit.

(** [_graceful_stop]. *)
Definition _graceful_stop (reason : string) : M unit :=
  (if decide (reason = "timeout") then _notify_session_expiration else ret tt)
  >> _close_resources.

(** [queue.get(timeout=...)] on what the queue delivers, as [served]
    gives it from the arrival times: [None] when the wait times out. *)
Definition queue_get : M (option item) :=
  fun s =>
    match queue s with
    | [] => Ret None s
    | d :: q => Ret (Some d) (with_queue q s)
    end.

(** [__receive_next_update].  After a time-out [data] is unbound, which
    would matter only if [_graceful_stop] returned. *)
Definition __receive_next_update : M item :=
  let* got := queue_get in
  match got with
  | None =>
      _graceful_stop "timeout" >> raise (UnboundLocalError "data")
  | Some (StopSignal reason) =>
      _graceful_stop reason >> ret (StopSignal reason)
  | Some data => ret data
  end.

(** What the text waits return: [(CancelSignal, "1")] or
    [(text, message_id)]. *)
Inductive text_or_cancel :=
| TCancel
| TText (text : string) (message_id : Z).

(** What the callback wait returns. *)
Inductive callback_or_cancel :=
| CCancel
| CCallback (q : CallbackQuery).

(** [_wait_for_specific_message]; one unit of fuel per turn of the
    [while True]. *)
Fixpoint _wait_for_specific_message_loop (fuel : nat) (items : list string)
    (cancellable : bool) : M text_or_cancel :=
  match fuel with
  | O => out_of_fuel
  | S fuel =>
      let* update := __receive_next_update in
      match update with
      | CancelSignal =>
          if cancellable then ret TCancel
          else _wait_for_specific_message_loop fuel items cancellable
      | StopSignal _ => raise (AttributeError "message")
      | Upd update =>
          match message update with
          | None => _wait_for_specific_message_loop fuel items cancellable
          | Some m =>
              match text m with
              | None => _wait_for_specific_message_loop fuel items cancellable
              | Some t =>
                  if bool_decide (t ∈ items)
                  then ret (TText t (message_id m))
                  else _wait_for_specific_message_loop fuel items cancellable
              end
          end
      end
  end.

(** Each turn takes an item from the queue or ends the thread, so the
    length of the queue bounds the turns. *)
Definition _wait_for_specific_message (items : list string)
    (cancellable : bool) : M text_or_cancel :=
  fun s => _wait_for_specific_message_loop (S (length (queue s))) items cancellable s.

(** [__wait_for_regex]; [regex] gives the first capture group of the
    first match, if any. *)
Fixpoint __wait_for_regex_loop (fuel : nat) (regex : string -> option string)
    (cancellable : bool) : M text_or_cancel :=
  match fuel with
  | O => out_of_fuel
  | S fuel =>
      let* update := __receive_next_update in
      match update with
      | CancelSignal =>
          if cancellable then ret TCancel
          else __wait_for_regex_loop fuel regex cancellable
      | StopSignal _ => raise (AttributeError "message")
      | Upd update =>
          match message update with
          | None => __wait_for_regex_loop fuel regex cancellable
          | Some m =>
              match text m with
              | None => __wait_for_regex_loop fuel regex cancellable
              | Some t =>
                  match regex t with
                  | None => __wait_for_regex_loop fuel regex cancellable
                  | Some group1 => ret (TText group1 (message_id m))
                  end
              end
          end
      end
  end.

Definition __wait_for_regex (regex : string -> option string)
    (cancellable : bool) : M text_or_cancel :=
  fun s => __wait_for_regex_loop (S (length (queue s))) regex cancellable s.

(** [__wait_for_inlinekeyboard_callback]. *)
Fixpoint __wait_for_inlinekeyboard_callback_loop (fuel : nat)
    (cancellable : bool) : M callback_or_cancel :=
  match fuel with
  | O => out_of_fuel
  | S fuel =>
      let* update := __receive_next_update in
      match update with
      | CancelSignal =>
          if cancellable then ret CCancel
          else __wait_for_inlinekeyboard_callback_loop fuel cancellable
      | StopSignal _ => raise (AttributeError "callback_query")
      | Upd update =>
          match callback_query update with
          | None => __wait_for_inlinekeyboard_callback_loop fuel cancellable
          | Some q =>
              call (AnswerCallbackQuery (cq_id q)) >> ret (CCallback q)
          end
      end
  end.

Definition __wait_for_inlinekeyboard_callback (cancellable : bool)
    : M callback_or_cancel :=
  fun s => __wait_for_inlinekeyboard_callback_loop (S (length (queue s))) cancellable s.

(** The key of a format: [f"{abr} kbps {ext.upper()}"]. *)
Definition format_key (format_info : Format.t) : string :=
  pretty (Format.abr format_info) +:+ " kbps " +:+ upper (Format.ext format_info).

(** The test a format passes to get a button, and the text of its
    button. *)
Definition offered (format_info : Format.t) : Prop :=
  64 < Format.abr format_info
  /\ contains ".m3u8" (Format.url format_info) = false.

Definition download (format_info : Format.t) : msg_text :=
  Lit ("Download " +:+ format_key format_info).

(** [_create_format_buttons]: the loop, with its three accumulators. *)
Fixpoint _create_format_buttons_loop (formats : list Format.t)
    (format_buttons : list InlineKeyboardButton) (format_urls : list string)
    (format_seen : gset string)
    : list InlineKeyboardButton * list string :=
  match formats with
  | [] => (format_buttons, format_urls)
  | format_info :: formats =>
      if (64 <? Format.abr format_info)
         && negb (contains ".m3u8" (Format.url format_info))
      then
        let format_key := format_key format_info in
        if decide (format_key ∈ format_seen)
        then _create_format_buttons_loop formats format_buttons format_urls
               format_seen
        else
          _create_format_buttons_loop formats
            (format_buttons ++
               [{| button_text := Lit ("Download " +:+ format_key);
                   callback_data :=
                     "download_format:" +:+ pretty (length format_urls) |}])
            (format_urls ++ [Format.url format_info])
            ({[format_key]} ∪ format_seen)
      else
        _create_format_buttons_loop formats format_buttons format_urls
          format_seen
  end.

Definition _create_format_buttons (formats : list Format.t)
    : list InlineKeyboardButton * list string :=
  _create_format_buttons_loop formats [] [] ∅.

(** [_get_best_thumbnail]: the loop, from the current [best_thumbnail].
    A thumbnail dictionary with a resolution is not empty, hence true;
    the result of [check_thumbnail] is true when it is a non-empty
    URL. *)
Fixpoint _get_best_thumbnail_loop (best_thumbnail : option Thumbnail.t)
    (thumbnails : list Thumbnail.t) : option Thumbnail.t :=
  match thumbnails with
  | [] => best_thumbnail
  | thumbnail_info :: thumbnails =>
      _get_best_thumbnail_loop
        match Thumbnail.resolution thumbnail_info with
        | Some _ =>
            match best_thumbnail with
            | None => Some thumbnail_info
            | Some best =>
                if (Thumbnail.width best <? Thumbnail.width thumbnail_info)
                   && match Utils.check_thumbnail requests_get
                              (Thumbnail.url best) with
                      | Some u => truthy u
                      | None => false
                      end
                then Some thumbnail_info
                else best_thumbnail
            end
        | None => best_thumbnail
        end
        thumbnails
  end.

Definition _get_best_thumbnail (thumbnails : list Thumbnail.t)
    : option Thumbnail.t :=
  _get_best_thumbnail_loop None thumbnails.

(** [_create_buttons]: [enumerate] from [i]. *)
Fixpoint _create_buttons_from (i : Z) (page_data : list Info.t)
    : M (list InlineKeyboardButton) :=
  match page_data with
  | [] => ret []
  | data :: page_data =>
      let* title := getitem "title" (Info.title data) in
      let* buttons := _create_buttons_from (i + 1) page_data in
      ret ({| button_text := Lit (pretty (i + 1) +:+ ". " +:+ title);
              callback_data := "button_" +:+ pretty i |} :: buttons)
  end.

Definition _create_buttons (page_data : list Info.t)
    : M (list InlineKeyboardButton) :=
  _create_buttons_from 0 page_data.

(** [_create_navigation_buttons]. *)
Definition _create_navigation_buttons (page data_list_length : Z)
    : M (list InlineKeyboardButton) :=
  let* previous :=
    (if 0 <? page
     then let* t := loc_get "menu_previous" [] in
          ret [{| button_text := t; callback_data := "prev" |}]
     else ret []) in
  let* next :=
    (if (page + 1) * ITEMS_PER_PAGE <? data_list_length
     then let* t := loc_get "menu_next" [] in
          ret [{| button_text := t; callback_data := "next" |}]
     else ret []) in
  let* t := loc_get "menu_cancel" [] in
  ret (previous ++ next ++ [{| button_text := t; callback_data := "cmd_cancel" |}]).

(** The keyboard [__show_one] builds for an item. *)
Definition show_one_keyboard (best_thumbnail : option Thumbnail.t)
    (format_buttons : list InlineKeyboardButton) (cancel : msg_text)
    : list (list InlineKeyboardButton) :=
  (match best_thumbnail with
   | Some _ => [[{| button_text := Lit "Download Cover";
                    callback_data := "download_cover" |}]]
   | None => []
   end)
  ++ (match format_buttons with [] => [] | _ => [format_buttons] end)
  ++ [[{| button_text := cancel; callback_data := "cmd_cancel" |}]].

(** [__create_keyboard]. *)
Definition __create_keyboard : M markup :=
  let* soundcloud := loc_get "menu_soundcloud" [] in
  let* spotify := loc_get "menu_spotify" [] in
  let* youtube := loc_get "menu_youtube" [] in
  let* deezer := loc_get "menu_deezer" [] in
  ret (InlineKeyboardMarkup
         [[{| button_text := soundcloud; callback_data := "cmd_soundcloud" |};
           {| button_text := spotify; callback_data := "cmd_spotify" |}];
          [{| button_text := youtube; callback_data := "cmd_youtube" |};
           {| button_text := deezer; callback_data := "cmd_deezer" |}]]).

(** [__send_user_menu_message]. *)
Definition __send_user_menu_message (keyboard : markup) : M Z :=
  let* t := loc_get "conversation_open_user_menu" [] in
  send_message chat t keyboard None.

(** [_handle_invalid_link]. *)
Definition _handle_invalid_link (i : Z) (msg_link : Z) : M unit :=
  (if 1 <=? i then call (DeleteMessage chat msg_link) else ret tt) >>
  let* t := loc_get "invalid_link" [] in
  send_message chat t (ReplyKeyboardMarkup cancel_keyboard true true) None
  >> ret tt.

(** [_clean_up_messages]. *)
Definition _clean_up_messages (i : Z) (msg_link : Z) : M unit :=
  if i =? 1 then call (DeleteMessage chat msg_link) else ret tt.

(** The pattern of [_get_link], any text captured whole under
    [re.DOTALL]: the first group is the text itself. *)
Definition regex_any (t : string) : option string := Some t.

(** A match of [https?://[^\s]+] at the start of [s]. *)
Definition url_match_here (s : string) : option string :=
  let after scheme :=
    if String.prefix scheme s
    then match take_nonspace (drop (String.length scheme) s) with
         | EmptyString => None
         | run => Some (scheme +:+ run)
         end
    else None in
  match after "https://" with
  | Some u => Some u
  | None => after "http://"
  end.

(** [re.search("(?P<url>https?://[^\s]+)", link)], group [url]. *)
Fixpoint url_search (link : string) : option string :=
  match url_match_here link with
  | Some u => Some u
  | None =>
      match link with
      | EmptyString => None
      | String _ link' => url_search link'
      end
  end.

(** [_send_audio_file]. *)
Definition _send_audio_file (url headers title uploader thumb_url : string)
    : M unit :=
  try_except
    (match requests_get url with
     | None => raise RequestException
     | Some audio =>
         match requests_get thumb_url with
         | None => raise RequestException
         | Some thumb =>
             let* caption := loc_get "caption" [("title", title)] in
             call (SendAudio chat (Requests.content audio)
                     (Requests.content thumb) caption
                     (uploader +:+ " - " +:+ title)
                     (uploader +:+ " - " +:+ title +:+ ".mp3"))
         end
     end)
    (fun _ => ret tt).

(** The [for] loop of [_handle_playlist]: one progress edit and one
    resolution per entry. *)
Fixpoint collect_tracks (all_entries : list (gmap string string)) (collect : Z)
    (tracks : list Info.t) (rest : list (gmap string string))
    : M (list Info.t) :=
  match rest with
  | [] => ret tracks
  | da :: rest =>
      let* t :=
        loc_get "get_information"
          [("track", pretty (S (default O (index_of da all_entries))));
           ("all_tracks", pretty (length all_entries))] in
      call (EditMessageText chat collect t NoMarkup) >>
      let* url := getitem "url" (da !! "url") in
      match extract_info url with
      | None => raise DownloadError
      | Some track => collect_tracks all_entries collect (tracks ++ [track]) rest
      end
  end.

(** [_send_admin_menu]. *)
Definition _send_admin_menu : M unit :=
  let* mode := loc_get "menu_user_mode" [] in
  let* t := loc_get "conversation_open_admin_menu" [] in
  send_message chat t (ReplyKeyboardMarkup [[mode]] false true) None >> ret tt.

(** The string [self.loc.get(key)] evaluates to. *)
Definition loc_str (key : string) : M string :=
  let* loc := getattr "loc" in
  match loc with
  | VLocalization language => ret (render language key)
  | _ => raise (AttributeError "get")
  end.

(** [_wait_for_user_selection]. *)
Definition _wait_for_user_selection : M text_or_cancel :=
  let* mode := loc_str "menu_user_mode" in
  _wait_for_specific_message [mode] false.

(** The conversation proper.  The functions call one another without
    bound, so each takes the fuel [n] and spends one unit per call and
    per turn of a [while] loop.  [__user_menu] is a [while True]: the
    code that follows a call of it runs only if it returns, which it
    never does.  The calls nest as deep as the fuel allows: the bound of
    the interpreter on the depth of the stack, and the [RecursionError] it
    raises there, are outside the model. *)
Fixpoint __user_menu (n : nat) : M unit :=
  match n with
  | O => out_of_fuel
  | S n =>
      let* keyboard := __create_keyboard in
      let* message_user_menu := __send_user_menu_message keyboard in
      __user_menu_loop n message_user_menu
  end

(** The [while True] of [__user_menu]. *)
with __user_menu_loop (n : nat) (message_user_menu : Z) : M unit :=
  match n with
  | O => out_of_fuel
  | S n =>
      let* select := __wait_for_inlinekeyboard_callback false in
      match select with
      | CCancel => raise (AttributeError "data")
      | CCallback select =>
          __handle_menu_selection n select message_user_menu >>
          __user_menu_loop n message_user_menu
      end
  end

(** [__handle_menu_selection]; [_spotify], [_youtube] and [_deezer] are
    [_notify_updating] on their service name. *)
with __handle_menu_selection (n : nat) (select : CallbackQuery)
    (message_user_menu : Z) : M unit :=
  match n with
  | O => out_of_fuel
  | S n =>
      let run command :=
        call (DeleteMessage chat message_user_menu) >> command in
      if decide (Telegram.data select = "cmd_soundcloud") then run (_soundcloud n)
      else if decide (Telegram.data select = "cmd_spotify")
      then run (_notify_updating n "Spotify")
      else if decide (Telegram.data select = "cmd_youtube")
      then run (_notify_updating n "YouTube")
      else if decide (Telegram.data select = "cmd_deezer")
      then run (_notify_updating n "Deezer")
      else ret tt
  end

(** [_notify_updating]. *)
with _notify_updating (n : nat) (service_name : string) : M unit :=
  match n with
  | O => out_of_fuel
  | S n =>
      let* update_message := loc_get "under_updating" [("0", service_name)] in
      send_message chat update_message NoMarkup None >>
      __user_menu n
  end

(** [_get_link], from the current [i]; [None] is the implicit return
    after the loop. *)
with _get_link (n : nat) (i : Z) (msg_link : Z) : M (option (string * Z)) :=
  match n with
  | O => out_of_fuel
  | S n =>
      if i <? MAX_RETRIES then
        let* got := __wait_for_regex regex_any true in
        let* received :=
          match got with
          | TCancel =>
              _clean_up_messages i msg_link >>
              __user_menu n >>
              raise (TypeError "expected string or bytes-like object")
          | TText link msg_id => ret (link, msg_id)
          end in
        match
          match url_search (fst received) with
          | Some url => if contains "soundcloud" url then Some url else None
          | None => None
          end
        with
        | Some url => ret (Some (url, snd received))
        | None =>
            _handle_invalid_link i msg_link >>
            _get_link n (i + 1) msg_link
        end
      else
        let* t := loc_get "invalid_link" [] in
        send_message chat t NoMarkup None >>
        ret None
  end

(** [_soundcloud]. *)
with _soundcloud (n : nat) : M unit :=
  match n with
  | O => out_of_fuel
  | S n =>
      let* t := loc_get "msg_link" [] in
      let* msg_link :=
        send_message chat t (ReplyKeyboardMarkup cancel_keyboard true true)
          None in
      let* got := _get_link n 0 msg_link in
      match got with
      | None => raise (TypeError "cannot unpack non-iterable NoneType object")
      | Some (link, msg_id) =>
          try_except
            (call (DeleteMessage chat msg_link) >>
             let* t := loc_get "menu_loading" [] in
             let* start_msg := send_message chat t NoMarkup (Some msg_id) in
             _handle_extraction n link start_msg)
            (fun _ =>
               let* t := loc_get "invalid_link" [] in
               send_message chat t NoMarkup None >> ret tt)
      end
  end

(** [_handle_extraction]. *)
with _handle_extraction (n : nat) (link : string) (start_msg : Z) : M unit :=
  match n with
  | O => out_of_fuel
  | S n =>
      match extract_info link with
      | None => raise DownloadError
      | Some data =>
          match Info._type data with
          | Some type =>
              if decide (type = "playlist") then _handle_playlist n data start_msg
              else if decide (type = "url") then _handle_url n data start_msg
              else ret tt
          | None => __show_one n data start_msg None
          end
      end
  end

(** [_handle_playlist]. *)
with _handle_playlist (n : nat) (data : Info.t) (start_msg : Z) : M unit :=
  match n with
  | O => out_of_fuel
  | S n =>
      let* title := getitem "title" (Info.title data) in
      let* entries := getitem "entries" (Info.entries data) in
      let* webpage_url := getitem "webpage_url" (Info.webpage_url data) in
      let* t :=
        loc_get "album_caption"
          [("title", title); ("tracks", pretty (length entries));
           ("url", webpage_url)] in
      call (EditMessageText chat start_msg t NoMarkup) >>
      let* t :=
        loc_get "get_information"
          [("track", "0"); ("all_tracks", pretty (length entries))] in
      let* collect := send_message chat t NoMarkup None in
      let* tracks := collect_tracks entries collect [] entries in
      call (DeleteMessage chat collect) >>
      __show_many n tracks 0 start_msg
  end

(** [_handle_url]. *)
with _handle_url (n : nat) (data : Info.t) (start_msg : Z) : M unit :=
  match n with
  | O => out_of_fuel
  | S n =>
      let* url := getitem "url" (Info.url data) in
      match extract_info url with
      | None => raise DownloadError
      | Some data =>
          (if truthy (default "" (Info._type data))
           then _handle_playlist n data start_msg
           else ret tt) >>
          __show_one n data start_msg None
      end
  end

(** [__show_one]. *)
with __show_one (n : nat) (data : Info.t) (message_id : Z)
    (data_list : option (list Info.t)) : M unit :=
  match n with
  | O => out_of_fuel
  | S n =>
      let* thumbnails := getitem "thumbnails" (Info.thumbnails data) in
      let best_thumbnail := _get_best_thumbnail thumbnails in
      let* formats := getitem "formats" (Info.formats data) in
      let format_buttons := fst (_create_format_buttons formats) in
      let format_urls := snd (_create_format_buttons formats) in
      let* cancel := loc_get "menu_cancel" [] in
      let keyboard := show_one_keyboard best_thumbnail format_buttons cancel in
      let* title := getitem "title" (Info.title data) in
      let* webpage_url := getitem "webpage_url" (Info.webpage_url data) in
      call (EditMessageText chat message_id
              (Lit ("Title: " +:+ title +:+ chr (ascii_of_nat 10) +:+ "URL: "
                    +:+ webpage_url))
              (InlineKeyboardMarkup keyboard)) >>
      let* select := __wait_for_inlinekeyboard_callback true in
      match select with
      | CCancel =>
          match data_list with
          | None =>
              call (DeleteMessage chat message_id) >>
              __user_menu n
          | Some data_list => __show_many n data_list 0 message_id
          end
      | CCallback select =>
          if decide (Telegram.data select = "download_cover") then
            call (DeleteMessage chat message_id) >>
            let* best :=
              match best_thumbnail with
              | Some best => ret best
              | None => raise (TypeError "'NoneType' object is not subscriptable")
              end in
            match requests_get (Thumbnail.url best) with
            | None => raise RequestException
            | Some photo =>
                call (SendPhoto chat (Requests.content photo) "download_cover") >>
                __user_menu n
            end
          else if startswith "download_format:" (Telegram.data select) then
            __send_file n select data format_urls message_id
          else ret tt
      end
  end

(** [__show_many]. *)
with __show_many (n : nat) (data_list : list Info.t) (page : Z)
    (message_id : Z) : M unit :=
  match n with
  | O => out_of_fuel
  | S n =>
      let start_idx := page * ITEMS_PER_PAGE in
      let end_idx := (page + 1) * ITEMS_PER_PAGE in
      let page_data := slice data_list start_idx end_idx in
      let* buttons := _create_buttons page_data in
      let keyboard := pairs buttons in
      let* navigation_buttons :=
        _create_navigation_buttons page (Z.of_nat (length data_list)) in
      call (EditMessageReplyMarkup chat message_id
              (InlineKeyboardMarkup (keyboard ++ [navigation_buttons]))) >>
      let* select := __wait_for_inlinekeyboard_callback false in
      match select with
      | CCancel => raise (AttributeError "data")
      | CCallback select =>
          if decide (Telegram.data select = "cmd_cancel") then
            call (DeleteMessage chat message_id) >>
            __user_menu n
          else if bool_decide (Telegram.data select ∈ ["next"; "prev"]) then
            let new_page :=
              if decide (Telegram.data select = "next") then page + 1 else page - 1 in
            __show_many n data_list new_page message_id
          else
            match index (split "_" (Telegram.data select)) 1 with
            | None => raise IndexError
            | Some field =>
                match int field with
                | None => raise ValueError
                | Some selected_item_idx =>
                    match index page_data selected_item_idx with
                    | None => raise IndexError
                    | Some selected_data_item =>
                        __show_one n selected_data_item message_id
                          (Some data_list)
                    end
                end
            end
      end
  end

(** [__send_file]; its parameter [best_thumbnail] is overwritten before
    it is read and is left out. *)
with __send_file (n : nat) (select : CallbackQuery) (data : Info.t)
    (format_urls : list string) (message_id : Z) : M unit :=
  match n with
  | O => out_of_fuel
  | S n =>
      match int (drop (String.length "download_format:") (Telegram.data select)) with
      | None => raise ValueError
      | Some format_index =>
          if format_index <? Z.of_nat (length format_urls) then
            call (DeleteMessage chat message_id) >>
            let* thumbnails := getitem "thumbnails" (Info.thumbnails data) in
            match _get_best_thumbnail thumbnails with
            | Some best_thumbnail =>
                match index format_urls format_index with
                | None => raise IndexError
                | Some url =>
                    let* headers := getitem "http_headers" (Info.http_headers data) in
                    let* title := getitem "title" (Info.title data) in
                    let* uploader := getitem "uploader" (Info.uploader data) in
                    _send_audio_file url headers title uploader
                      (Thumbnail.url best_thumbnail)
                end
            | None => ret tt
            end >>
            __user_menu n
          else ret tt
      end
  end.

(** [_switch_to_user_menu]. *)
Definition _switch_to_user_menu (n : nat) : M unit :=
  let* t := loc_get "conversation_switch_to_user_mode" [] in
  send_message chat t NoMarkup None >>
  __user_menu n.

(** [_admin_menu]: the [while True], one unit of fuel per turn. *)
Fixpoint _admin_menu (n : nat) : M unit :=
  match n with
  | O => out_of_fuel
  | S n =>
      _send_admin_menu >>
      let* selection := _wait_for_user_selection in
      let* mode := loc_str "menu_user_mode" in
      match selection with
      | TText t _ => if decide (t = mode) then _switch_to_user_menu n else ret tt
      | TCancel => ret tt
      end >>
      _admin_menu n
  end.

(** [self.telegram_user] and [self.cfg]. *)
Variable telegram_user : Db.TelegramUser.
Variable cfg : config.

(** The queries and insertions [run] makes through its session. *)
Definition query_user : M (option Db.User) :=
  fun s => Ret (List.find (fun u => Db.user_id u =? chat) (Db.users (db s))) s.

Definition query_admin : M (option Db.Admin) :=
  fun s =>
    Ret (List.find (fun a => Db.admin_user_id a =? chat) (Db.admins (db s))) s.

Definition query_first_admin : M (option Db.Admin) :=
  fun s => Ret (head (Db.admins (db s))) s.

Definition query_all : M (list Db.Admin * list Db.User) :=
  fun s => Ret (Db.admins (db s), Db.users (db s)) s.

Definition session_add_user (u : Db.User) : M unit :=
  fun s =>
    Ret tt {| attrs := attrs s; queue := queue s; out := out s;
              next_message_id := next_message_id s;
              db := {| Db.users := Db.users (db s) ++ [u];
                       Db.admins := Db.admins (db s) |} |}.

Definition session_add_admin (a : Db.Admin) : M unit :=
  fun s =>
    Ret tt {| attrs := attrs s; queue := queue s; out := out s;
              next_message_id := next_message_id s;
              db := {| Db.users := Db.users (db s);
                       Db.admins := Db.admins (db s) ++ [a] |} |}.

(** [_create_localization]: binds [self.loc]. *)
Definition _create_localization : M unit :=
  let* user := getattr "user" in
  match user with
  | VUser u => setattr "loc" (VLocalization (Db.language u))
  | _ => raise (AttributeError "language")
  end.

(** The broadcast of [run] to the admins about a new user. *)
Fixpoint notify_admins (number : nat) (new : string) (admins : list Db.Admin)
    : M unit :=
  match admins with
  | [] => ret tt
  | admin :: admins =>
      let* t := loc_get "new_user_in" [("number", pretty number); ("new", new)] in
      send_message (Db.admin_user_id admin) t NoMarkup None >>
      notify_admins number new admins
  end.

(** [run]: what the thread does from [start()] until it ends. *)
Definition run (n : nat) : M unit :=
  let* user := query_user in
  setattr "user" (from_option VUser VNone user) >>
  let* admin := query_admin in
  setattr "admin" (from_option VAdmin VNone admin) >>
  let* new_user :=
    match user with
    | None =>
        let* first := query_first_admin in
        let will_be_owner := match first with None => true | Some _ => false end in
        let user := Db.new_User telegram_user (default_language cfg) in
        setattr "user" (VUser user) >>
        session_add_user user >>
        (if will_be_owner
         then
           let admin := {| Db.admin_user_id := Db.user_id user;
                           Db.is_owner := true |} in
           setattr "admin" (VAdmin admin) >> session_add_admin admin
         else ret tt) >>
        ret (Some user)
    | Some _ => ret None
    end in
  _create_localization >>
  match new_user with
  | Some user =>
      let* all := query_all in
      notify_admins (length (snd all)) (Db.identifiable_str user) (fst all)
  | None => ret tt
  end >>
  try_except
    (let* admin := getattr "admin" in
     match admin with
     | VNone => __user_menu n
     | _ => _admin_menu n
     end)
    (fun _ =>
       try_except
         (let* t := loc_get "fatal_conversation_exception" [] in
          send_message chat t NoMarkup None >> ret tt)
         (fun _ => ret tt)).

End Conversation.

End Worker.

(** ** core.py *)

Module Core.
Import PyStr Py Telegram.

(** A [Worker] object as the dispatcher and the worker's thread share it:
    the chat it was made for, its attributes, the content of its queue,
    and whether its thread is running. *)
Record worker := {
  w_chat : Z;
  w_attrs : gmap string Worker.value;
  w_queue : list Worker.item;
  w_alive : bool
}.

(** Where the dispatcher stands: between two updates, or inside the
    handling of a start command, which blocks in [join]. *)
Inductive pc :=
| Idle
| Stopping (m : Message) (old_worker : nat)
| Creating (m : Message)
| Starting (m : Message) (new_worker : nat)
| Registering (m : Message) (new_worker : nat)
| Crashed (e : exn).

(** The dispatcher: the dictionary [chat_workers], the [Worker] objects
    made so far (a reference is a position), the calls made on the bot,
    and the control point. *)
Record state := {
  chat_workers : gmap Z nat;
  heap : list worker;
  out : list action;
  at_pc : pc
}.

Definition initial : state :=
  {| chat_workers := ∅; heap := []; out := []; at_pc := Idle |}.

Definition set_pc (p : pc) (s : state) : state :=
  {| chat_workers := chat_workers s; heap := heap s; out := out s; at_pc := p |}.

Definition set_heap (h : list worker) (s : state) : state :=
  {| chat_workers := chat_workers s; heap := h; out := out s; at_pc := at_pc s |}.

(** A call on the bot. *)
Definition call (a : action) (s : state) : state :=
  {| chat_workers := chat_workers s; heap := heap s; out := out s ++ [a];
     at_pc := at_pc s |}.

(** [worker.queue.put(d)]. *)
Definition put (r : nat) (d : Worker.item) (s : state) : state :=
  set_heap
    (alter (fun w => {| w_chat := w_chat w; w_attrs := w_attrs w;
                        w_queue := w_queue w ++ [d]; w_alive := w_alive w |})
       r (heap s)) s.

(** How the handling of one update goes on after one of its three
    [if]s. *)
Inductive flow :=
| Next (s : state)
| Through (s : state)
| Crash (e : exn) (s : state).

Section Dispatcher.
(** The language of [default_loc], and the text a [Localization] of a
    language gives for a key. *)
Variable default_language : string.
Variable render : string -> string -> string.

Definition default_loc (key : string) : msg_text := Loc default_language key [].

(** Is [text] a string that starts with [/start]? *)
Definition is_start (text : option string) : bool :=
  match text with
  | Some t => startswith "/start" t
  | None => false
  end.

(** Lines 138-145: look the old worker up and, if there is one, enter
    [stop("request")]: put the signal, then wait in [join]. *)
Definition begin_start (m : Message) (s : state) : state :=
  match chat_workers s !! chat_id m with
  | Some old_worker =>
      set_pc (Stopping m old_worker) (put old_worker (Worker.StopSignal "request") s)
  | None => set_pc (Creating m) s
  end.

(** Lines 147-154: [Worker(...)], a new object not yet running. *)
Definition create (m : Message) (s : state) : state :=
  set_pc (Starting m (length (heap s)))
    (set_heap
       (heap s ++ [{| w_chat := chat_id m; w_attrs := Worker.__init__;
                      w_queue := []; w_alive := false |}]) s).

(** Line 157: [new_worker.start()]. *)
Definition start (m : Message) (new_worker : nat) (s : state) : state :=
  set_pc (Registering m new_worker)
    (set_heap
       (alter (fun w => {| w_chat := w_chat w; w_attrs := w_attrs w;
                           w_queue := w_queue w; w_alive := true |})
          new_worker (heap s)) s).

(** Line 159: [chat_workers[chat.id] = new_worker]. *)
Definition register (m : Message) (new_worker : nat) (s : state) : state :=
  {| chat_workers := <[chat_id m := new_worker]> (chat_workers s);
     heap := heap s; out := out s; at_pc := Idle |}.

(** Lines 119-200: the update is a message. *)
Definition handle_message (m : Message) (update : Update) (s : state) : flow :=
  if negb (bool_decide (chat_type m = "private")) then
    Next (call (SendMessage (chat_id m) (default_loc "error_nonprivate_chat")
                  NoMarkup None) s)
  else if is_start (text m) then Next (begin_start m s)
  else
    match chat_workers s !! chat_id m with
    | None =>
        Next (call (SendMessage (chat_id m) (default_loc "error_no_worker_for_chat")
                      ReplyKeyboardRemove None) s)
    | Some r =>
        match heap s !! r with
        | None => Crash (AttributeError "is_ready") s
        | Some receiving_worker =>
            match Worker.is_ready (w_attrs receiving_worker) with
            | inl e => Crash e s
            | inr false =>
                Next (call (SendMessage (chat_id m)
                              (default_loc "error_worker_not_ready")
                              ReplyKeyboardRemove None) s)
            | inr true =>
                match w_attrs receiving_worker !! "loc" with
                | Some (Worker.VLocalization language) =>
                    if bool_decide (text m = Some (render language "menu_cancel"))
                    then Through (put r Worker.CancelSignal s)
                    else Through (put r (Worker.Upd update) s)
                | _ => Crash (AttributeError "get") s
                end
            end
        end
    end.

(** Lines 202-231: the update is an inline keyboard press. *)
Definition handle_callback_query (q : CallbackQuery) (update : Update)
    (s : state) : flow :=
  match chat_workers s !! cq_from_user q with
  | None =>
      Next (call (SendMessage (cq_from_user q)
                    (default_loc "error_no_worker_for_chat") NoMarkup None) s)
  | Some r =>
      if bool_decide (data q = "cmd_cancel")
      then Through (call (AnswerCallbackQuery (cq_id q))
                      (put r Worker.CancelSignal s))
      else Through (put r (Worker.Upd update) s)
  end.

(** Lines 233-264: the update is a pre-checkout query.  The test reads
    [receiving_worker.invoice_payload] when there is a worker. *)
Definition handle_pre_checkout_query (p : PreCheckoutQuery) (update : Update)
    (s : state) : flow :=
  let expired s :=
    Next (call (AnswerPreCheckoutQuery (pcq_id p) false
                  (default_loc "error_invoice_expired")) s) in
  match chat_workers s !! pcq_from_user p with
  | None => expired s
  | Some r =>
      match heap s !! r with
      | None => Crash (AttributeError "invoice_payload") s
      | Some receiving_worker =>
          match w_attrs receiving_worker !! "invoice_payload" with
          | None => Crash (AttributeError "invoice_payload") s
          | Some payload =>
              if match payload with
                 | Worker.VStr current => bool_decide (invoice_payload p = current)
                 | _ => false
                 end
              then Through (put r (Worker.Upd update) s)
              else expired s
          end
      end
  end.

(** What a [flow] leaves when the body of the loop is over. *)
Definition finish (f : flow) : state :=
  match f with
  | Next s => s
  | Through s => s
  | Crash e s => set_pc (Crashed e) s
  end.

(** [Through] goes on with the next [if]; the rest ends the body. *)
Definition and_then (f : flow) (k : state -> flow) : flow :=
  match f with
  | Through s => k s
  | f => f
  end.

(** Lines 117-264: the body of [for update in updates]. *)
Definition handle_update (update : Update) (s : state) : flow :=
  and_then
    (and_then
       (match message update with
        | Some m => handle_message m update s
        | None => Through s
        end)
       (fun s =>
          match callback_query update with
          | Some q => handle_callback_query q update s
          | None => Through s
          end))
    (fun s =>
       match pre_checkout_query update with
       | Some p => handle_pre_checkout_query p update s
       | None => Through s
       end).

(** What the thread of a worker does to its own object: bind one of the
    attributes [run] binds, take the next item of its queue, or end. *)
Inductive thread_step : worker -> worker -> Prop :=
| thread_setattr w name v :
    w_alive w = true ->
    name ∈ ["user"; "admin"; "loc"] ->
    thread_step w {| w_chat := w_chat w; w_attrs := <[name := v]> (w_attrs w);
                     w_queue := w_queue w; w_alive := true |}
| thread_get w d q :
    w_alive w = true ->
    w_queue w = d :: q ->
    thread_step w {| w_chat := w_chat w; w_attrs := w_attrs w;
                     w_queue := q; w_alive := true |}
| thread_end w :
    w_alive w = true ->
    thread_step w {| w_chat := w_chat w; w_attrs := w_attrs w;
                     w_queue := w_queue w; w_alive := false |}.

(** One step of the program: the dispatcher takes an update, goes on
    with a start command ([join] returns only once the old thread has
    ended), or a worker's thread moves. *)
Inductive step : state -> state -> Prop :=
| step_update update s :
    at_pc s = Idle ->
    step s (finish (handle_update update s))
| step_join m old_worker w s :
    at_pc s = Stopping m old_worker ->
    heap s !! old_worker = Some w ->
    w_alive w = false ->
    step s (set_pc (Creating m) s)
| step_create m s :
    at_pc s = Creating m ->
    step s (create m s)
| step_start m new_worker s :
    at_pc s = Starting m new_worker ->
    step s (start m new_worker s)
| step_register m new_worker s :
    at_pc s = Registering m new_worker ->
    step s (register m new_worker s)
| step_thread r w w' s :
    heap s !! r = Some w ->
    thread_step w w' ->
    step s (set_heap (<[r := w']> (heap s)) s).

(** The states the program can be in. *)
Inductive reachable : state -> Prop :=
| reachable_initial : reachable initial
| reachable_step s s' : reachable s -> step s s' -> reachable s'.

End Dispatcher.

(** What of a worker does not depend on the content of its queue. *)
Definition view (w : worker) : Z * bool * gmap string Worker.value :=
  (w_chat w, w_alive w, w_attrs w).

(** [s'] has the dictionary of [s] and the workers of [s], up to their
    queues. *)
Definition same_workers (s s' : state) : Prop :=
  chat_workers s' = chat_workers s
  /\ forall r, view <$> heap s' !! r = view <$> heap s !! r.

(** What the handling of one update leaves of an idle dispatcher [s]: the
    same workers, and a control point that is idle again, crashed, or in
    a start command for a chat whose entry was just looked up. *)
Definition after_update (s s' : state) : Prop :=
  same_workers s s'
  /\ (at_pc s' = Idle
      \/ (exists e, at_pc s' = Crashed e)
      \/ (exists m old_worker,
            at_pc s' = Stopping m old_worker
            /\ chat_workers s !! chat_id m = Some old_worker)
      \/ (exists m, at_pc s' = Creating m /\ chat_workers s !! chat_id m = None)).

Definition flow_ok (s0 : state) (f : flow) : Prop :=
  match f with
  | Next s' => after_update s0 s'
  | Through s' => same_workers s0 s' /\ at_pc s' = at_pc s0
  | Crash e s' => same_workers s0 s'
  end.

(** The dispatcher is between the [join] and the registration of a start
    command for chat [c]. *)
Definition replacing (p : pc) (c : Z) : Prop :=
  match p with
  | Creating m | Starting m _ | Registering m _ => chat_id m = c
  | _ => False
  end.

(** What holds of every state the program reaches. *)
Record invariant (s : state) : Prop := {
  inv_registry :
    forall c r, chat_workers s !! c = Some r ->
      exists w, heap s !! r = Some w /\ w_chat w = c;
  inv_live :
    forall r w, heap s !! r = Some w -> w_alive w = true ->
      (chat_workers s !! w_chat w = Some r /\ ~ replacing (at_pc s) (w_chat w))
      \/ (exists m, at_pc s = Registering m r /\ chat_id m = w_chat w);
  inv_stopping :
    forall m old_worker, at_pc s = Stopping m old_worker ->
      chat_workers s !! chat_id m = Some old_worker;
  inv_new :
    forall m n, at_pc s = Starting m n \/ at_pc s = Registering m n ->
      exists w, heap s !! n = Some w /\ w_chat w = chat_id m
                /\ (at_pc s = Starting m n -> w_alive w = false);
  inv_attrs :
    forall r w, heap s !! r = Some w -> w_attrs w !! "invoice_payload" = None
}.

End Core.

(** ** Concrete objects for the examples *)

Module Examples.
Import Telegram.

(** A press of an inline button by user 7. *)
Definition press (d : string) : Update :=
  {| update_id := 0; message := None;
     callback_query := Some {| cq_id := "q"; cq_from_user := 7; data := d |};
     pre_checkout_query := None |}.

(** A private text message of user 7. *)
Definition private_message (i : Z) (t : string) : Message :=
  {| message_id := i; chat_id := 7; chat_type := "private"; text := Some t |}.

Definition says (i : Z) (t : string) : Update :=
  {| update_id := 0; message := Some (private_message i t);
     callback_query := None; pre_checkout_query := None |}.

(** A pre-checkout query of user 7. *)
Definition checkout (payload : string) : Update :=
  {| update_id := 0; message := None; callback_query := None;
     pre_checkout_query :=
       Some {| pcq_id := "c"; pcq_from_user := 7; invoice_payload := payload |} |}.

Definition ann : Db.TelegramUser :=
  {| Db.id := 7; Db.tg_first_name := "Ann"; Db.tg_last_name := None;
     Db.tg_username := None; Db.language_code := Some "en" |}.

Definition cfg : Worker.config :=
  {| Worker.default_language := "en"; Worker.fallback_language := "en" |}.

(** A database where user 1 is the owner and user 7 is known. *)
Definition db : Db.database :=
  {| Db.users :=
       [{| Db.user_id := 1; Db.first_name := "Root"; Db.last_name := None;
           Db.username := None; Db.language := "en" |};
        {| Db.user_id := 7; Db.first_name := "Ann"; Db.last_name := None;
           Db.username := None; Db.language := "en" |}];
     Db.admins := [{| Db.admin_user_id := 1; Db.is_owner := true |}] |}.

(** A worker's thread at [start()], with [q] to come through its queue. *)
Definition fresh (q : list Worker.item) : Worker.state :=
  {| Worker.attrs := Worker.__init__; Worker.queue := q; Worker.out := [];
     Worker.next_message_id := 100; Worker.db := db |}.

(** The same once [_create_localization] has run. *)
Definition ready (q : list Worker.item) : Worker.state :=
  {| Worker.attrs := <["loc" := Worker.VLocalization "en"]> Worker.__init__;
     Worker.queue := q; Worker.out := [];
     Worker.next_message_id := 100; Worker.db := db |}.

(** A localisation that renders a key as itself. *)
Definition render (language key : string) : string := key.

(** Two thumbnails with a resolution: the narrow one is gone from its
    server, the wide one is a small JPEG. *)
Definition small : Thumbnail.t :=
  {| Thumbnail.resolution := Some "100x100"; Thumbnail.width := 100;
     Thumbnail.url := "https://i.example/small.jpg" |}.

Definition large : Thumbnail.t :=
  {| Thumbnail.resolution := Some "500x500"; Thumbnail.width := 500;
     Thumbnail.url := "https://i.example/large.jpg" |}.

Definition web (url : string) : option Requests.response :=
  if decide (url = "https://i.example/small.jpg") then
    Some {| Requests.status_code := 404; Requests.content_type := Some "text/html";
            Requests.content_length := Some "0"; Requests.content := "" |}
  else if decide (url = "https://i.example/large.jpg") then
    Some {| Requests.status_code := 200; Requests.content_type := Some "image/jpeg";
            Requests.content_length := Some "1000"; Requests.content := "JPEG" |}
  else None.

(** A redirect to a set of one track. *)
Definition track : Info.t :=
  {| Info._type := None; Info.url := None; Info.title := Some "T1";
     Info.webpage_url := Some "https://soundcloud.com/a/t1";
     Info.entries := None; Info.thumbnails := Some [large];
     Info.formats :=
       Some [{| Format.abr := 128; Format.ext := "mp3";
                Format.url := "https://cdn.example/t1.mp3" |}];
     Info.http_headers := Some "headers"; Info.uploader := Some "A" |}.

Definition playlist : Info.t :=
  {| Info._type := Some "playlist"; Info.url := None; Info.title := Some "Set";
     Info.webpage_url := Some "https://soundcloud.com/a/sets/s";
     Info.entries := Some [{["url" := "https://soundcloud.com/a/t1"]}];
     Info.thumbnails := None; Info.formats := None;
     Info.http_headers := None; Info.uploader := None |}.

Definition redirect : Info.t :=
  {| Info._type := Some "url"; Info.url := Some "https://soundcloud.com/a/sets/s";
     Info.title := None; Info.webpage_url := None; Info.entries := None;
     Info.thumbnails := None; Info.formats := None;
     Info.http_headers := None; Info.uploader := None |}.

Definition resolver (url : string) : option Info.t :=
  if decide (url = "https://soundcloud.com/r") then Some redirect
  else if decide (url = "https://soundcloud.com/a/sets/s") then Some playlist
  else if decide (url = "https://soundcloud.com/a/t1") then Some track
  else None.

(** The dispatcher after a first [/start] of user 7: the new worker is
    registered, its thread has not yet bound [loc]. *)
Definition start_command : Update := says 1 "/start".

Definition started : Core.state :=
  Core.register (private_message 1 "/start") 0
    (Core.start (private_message 1 "/start") 0
       (Core.create (private_message 1 "/start")
          (Core.finish (Core.handle_update "en" render start_command Core.initial)))).

(** The same once the worker's thread has bound [loc]. *)
Definition localized : Core.state :=
  Core.set_heap
    (<[0%nat := {| Core.w_chat := 7;
                   Core.w_attrs := <["loc" := Worker.VLocalization "en"]> Worker.__init__;
                   Core.w_queue := []; Core.w_alive := true |}]>
       (Core.heap started))
    started.

(** A second [/start] of user 7: the dispatcher waits in [join], the old
    thread ends, and the new worker is made and started. *)
Definition stopping : Core.state :=
  Core.finish (Core.handle_update "en" render start_command localized).

Definition stopped : Core.state :=
  Core.set_heap
    (<[0%nat := {| Core.w_chat := 7;
                   Core.w_attrs := <["loc" := Worker.VLocalization "en"]> Worker.__init__;
                   Core.w_queue := [Worker.StopSignal "request"];
                   Core.w_alive := false |}]>
       (Core.heap stopping))
    stopping.

Definition restarted : Core.state :=
  Core.start (private_message 1 "/start") 1
    (Core.create (private_message 1 "/start")
       (Core.set_pc (Core.Creating (private_message 1 "/start")) stopped)).

End Examples.

(** ** Predicates and observations used to state further properties *)

Module Shape.
Import PyStr Py Telegram.

(** Every character of [s] passes [p]. *)
Fixpoint all_chars (p : ascii -> bool) (s : string) : bool :=
  match s with
  | EmptyString => true
  | String c s' => p c && all_chars p s'
  end.

(** [c] is none of the characters HTML gives a meaning to in a text or an
    attribute value delimited by double quotes, the ampersand apart. *)
Definition html_plain (c : ascii) : bool :=
  negb (Ascii.eqb c "<") && negb (Ascii.eqb c ">") && negb (Ascii.eqb c dquote).

Definition is_digit (c : ascii) : bool :=
  match digit_value c with Some _ => true | None => false end.

(** What the four replacements make of one character. *)
Definition escape_char (c : ascii) : string :=
  if Ascii.eqb c "<" then "&amp;lt;"
  else if Ascii.eqb c ">" then "&amp;gt;"
  else if Ascii.eqb c "&" then "&amp;"
  else if Ascii.eqb c dquote then "&quot;"
  else chr c.

(** [c] is none of the four characters [telegram_html_escape] replaces. *)
Definition unescaped (c : ascii) : bool :=
  html_plain c && negb (Ascii.eqb c "&").


(** The items [__show_many] lists on a page:
    [data_list[page * ITEMS_PER_PAGE : (page + 1) * ITEMS_PER_PAGE]]. *)
Definition page_data {A} (data_list : list A) (page : Z) : list A :=
  slice data_list (page * Worker.ITEMS_PER_PAGE) ((page + 1) * Worker.ITEMS_PER_PAGE).

(** The thumbnail passes [check_thumbnail], with a result that counts as
    true. *)
Definition passes (requests_get : string -> option Requests.response)
    (t : Thumbnail.t) : Prop :=
  exists u, Utils.check_thumbnail requests_get (Thumbnail.url t) = Some u
            /\ truthy u = true.

(** From [s] to [s'] the database is the same, the queue has only lost
    items at its front, and message identifiers have only grown. *)
Definition continues (s s' : Worker.state) : Prop :=
  Worker.db s' = Worker.db s
  /\ Worker.queue s' `suffix_of` Worker.queue s
  /\ Worker.next_message_id s <= Worker.next_message_id s'.

(** [m] only adds calls to the log, and closes the session exactly when
    it leaves the thread by [sys.exit], as its last call. *)
Definition steady {A} (m : Worker.M A) : Prop :=
  forall s,
    match m s with
    | Worker.Ret _ s' | Worker.Raise _ s' =>
        continues s s'
        /\ exists l, Worker.out s' = Worker.out s ++ l /\ SessionClose ∉ l
    | Worker.Exit s' =>
        continues s s'
        /\ exists l, Worker.out s' = Worker.out s ++ l ++ [SessionClose]
                     /\ SessionClose ∉ l
    | Worker.OutOfFuel => True
    end.

(** [m] does not return: it ends by an exception or by leaving the
    thread. *)
Definition never_returns {A} (m : Worker.M A) : Prop :=
  forall s, match m s with Worker.Ret _ _ => False | _ => True end.

(** The last statement of [run]: the menu of the user or of the admin,
    under the handler that reports a fatal exception to the chat. *)
Definition conversation (chat : Z) (render : string -> string -> string)
    (requests_get : string -> option Requests.response)
    (extract_info : string -> option Info.t) (n : nat) : Worker.M unit :=
  Worker.try_except
    (Worker.bind (Worker.getattr "admin")
       (fun admin =>
          match admin with
          | Worker.VNone => Worker.__user_menu chat requests_get extract_info n
          | _ => Worker._admin_menu chat render requests_get extract_info n
          end))
    (fun _ =>
       Worker.try_except
         (Worker.bind (Worker.loc_get "fatal_conversation_exception" [])
            (fun t =>
               Worker.bind (Worker.send_message chat t NoMarkup None)
                 (fun _ => Worker.ret tt)))
         (fun _ => Worker.ret tt)).

(** The notice [run] sends to an admin about a new user. *)
Definition new_user_notice (language : string) (number : nat) (user : Db.User)
    (admin : Db.Admin) : action :=
  SendMessage (Db.admin_user_id admin)
    (Loc language "new_user_in"
       [("number", pretty number); ("new", Db.identifiable_str user)])
    NoMarkup None.

(** The report [run] sends when the conversation raised. *)
Definition fatal_report (chat : Z) (language : string) : action :=
  SendMessage chat (Loc language "fatal_conversation_exception" []) NoMarkup None.

(** From a queue of at most [L] items, [m] does not exhaust the fuel; it
    leaves at most [L'] items when it returns and at most [L] when it
    raises. *)
Definition within {A} (L : nat) (m : Worker.M A) (L' : nat) : Prop :=
  forall s,
    (length (Worker.queue s) <= L)%nat ->
    match m s with
    | Worker.Ret _ s' => (length (Worker.queue s') <= L')%nat
    | Worker.Raise _ s' => (length (Worker.queue s') <= L)%nat
    | Worker.Exit _ => True
    | Worker.OutOfFuel => False
    end.

(** [m] does not exhaust the fuel, and has taken an item from the queue
    when it returns. *)
Definition consumes {A} (m : Worker.M A) : Prop :=
  forall s,
    match m s with
    | Worker.Ret _ s' => (length (Worker.queue s') < length (Worker.queue s))%nat
    | Worker.Raise _ s' => (length (Worker.queue s') <= length (Worker.queue s))%nat
    | Worker.Exit _ => True
    | Worker.OutOfFuel => False
    end.

(** [c] is an ASCII character other than whitespace. *)
Definition plain (c : ascii) : bool :=
  negb (is_space c) && Nat.ltb (nat_of_ascii c) 128.

(** No whitespace character, as [\s] has it, starts anywhere in [s]. *)
Fixpoint no_whitespace (s : string) : bool :=
  match s with
  | EmptyString => true
  | String _ s' => negb (space_here s) && no_whitespace s'
  end.

(** [link] was taken from the text of a message that was in the queue [q],
    and [msg_id] is the identifier of that message. *)
Definition taken_from (q : list Worker.item) (link : string) (msg_id : Z) : Prop :=
  exists update m t pre post,
    Worker.Upd update ∈ q
    /\ message update = Some m
    /\ text m = Some t
    /\ message_id m = msg_id
    /\ t = pre +:+ link +:+ post.

(** The chats an update names: the chat of its message, and the senders of
    its callback query and of its pre-checkout query. *)
Definition senders (update : Update) : list Z :=
  option_list (chat_id <$> message update)
  ++ option_list (cq_from_user <$> callback_query update)
  ++ option_list (pcq_from_user <$> pre_checkout_query update).

(** Is the update a start command in a private chat?  The dispatcher
    handles such an update by the steps of a start: it stops the worker of
    the chat, waits for it, and makes, starts and registers a new one. *)
Definition starts (update : Update) : bool :=
  match message update with
  | Some m => bool_decide (chat_type m = "private") && Core.is_start (text m)
  | None => false
  end.

(** From [s] to [s'] the dispatcher has kept its dictionary and its calls,
    and every worker: each has got [items] at the end of its queue, each a
    cancel signal or the update, and none unless the worker is the one
    registered for a chat the update names. *)
Definition delivered (update : Update) (s s' : Core.state) : Prop :=
  Core.chat_workers s' = Core.chat_workers s
  /\ Core.out s `prefix_of` Core.out s'
  /\ forall r,
       match Core.heap s !! r with
       | Some w =>
           exists items,
             Core.heap s' !! r
             = Some {| Core.w_chat := Core.w_chat w;
                       Core.w_attrs := Core.w_attrs w;
                       Core.w_queue := Core.w_queue w ++ items;
                       Core.w_alive := Core.w_alive w |}
             /\ Forall (fun d => d ∈ [Worker.CancelSignal; Worker.Upd update]) items
             /\ (items <> [] ->
                 exists c, c ∈ senders update
                           /\ Core.chat_workers s !! c = Some r)
       | None => Core.heap s' !! r = None
       end.

(** [f] applied to the state a call ends in. *)
Definition on_state {A} (f : Worker.state -> Worker.state) (r : Worker.result A)
    : Worker.result A :=
  match r with
  | Worker.Ret a s => Worker.Ret a (f s)
  | Worker.Raise e s => Worker.Raise e (f s)
  | Worker.Exit s => Worker.Exit (f s)
  | Worker.OutOfFuel => Worker.OutOfFuel
  end.


(** With a cancel signal first in the queue, [m] ends as it does without
    it; or it ends before it takes anything from the queue, and the signal
    is still there. *)
Definition skips_cancel {A} (m : Worker.M A) : Prop :=
  forall s q,
    Worker.queue s = Worker.CancelSignal :: q ->
    m s = m (Worker.with_queue q s)
    \/ m (Worker.with_queue q s) = on_state (Worker.with_queue q) (m s).

(** [strings/en.py]: the text of the Cancel key. *)
Definition menu_cancel : string := "🔙 Cancel".

End Shape.

(** * Properties *)

(** ** String replacement *)

Section PyStrFacts.
Import PyStr.

Lemma prefix_chr c d s : String.prefix (chr c) (String d s) = Ascii.eqb c d.
Proof.
  unfold chr; simpl.
  destruct (Ascii.eqb_spec c d) as [->|Hne].
  - destruct (ascii_dec d d); [by destruct s | congruence].
  - destruct (ascii_dec c d); [congruence | done].
Qed.

Lemma replace_chr c new s :
  replace (chr c) new s = flat_map_chars (subst_char c new) s.
Proof.
  unfold replace. induction s as [|d s IH]; [done|].
  cbn [replace_from flat_map_chars]. rewrite prefix_chr.
  change (String.length (chr c) - 1)%nat with 0%nat.
  unfold subst_char. destruct (Ascii.eqb c d); by rewrite IH.
Qed.

Lemma append_cons x (a b : string) : String x a +:+ b = String x (a +:+ b).
Proof. reflexivity. Qed.

Lemma append_assoc (a b c : string) : (a +:+ b) +:+ c = a +:+ (b +:+ c).
Proof.
  induction a as [|x a IH]; [done|].
  by rewrite !append_cons, IH.
Qed.

Lemma flat_map_chars_app f s1 s2 :
  flat_map_chars f (s1 +:+ s2) = flat_map_chars f s1 +:+ flat_map_chars f s2.
Proof.
  induction s1 as [|d s1 IH]; [done|].
  rewrite append_cons. cbn [flat_map_chars].
  by rewrite IH, append_assoc.
Qed.

Lemma replace_chr_app c new s1 s2 :
  replace (chr c) new (s1 +:+ s2)
  = replace (chr c) new s1 +:+ replace (chr c) new s2.
Proof. rewrite !replace_chr. apply flat_map_chars_app. Qed.

Lemma telegram_html_escape_app s1 s2 :
  Utils.telegram_html_escape (s1 +:+ s2)
  = Utils.telegram_html_escape s1 +:+ Utils.telegram_html_escape s2.
Proof.
  unfold Utils.telegram_html_escape.
  change "&" with (chr "&"); change ">" with (chr ">"); change "<" with (chr "<").
  by rewrite !replace_chr_app.
Qed.

End PyStrFacts.

(** C10.  The replacements run in the order [<], [>], [&], double quote,
    so the ampersand that the first two introduce is escaped again by the
    third: every [<] of the input comes out as [&amp;lt;] and every [>] as
    [&amp;gt;], whatever surrounds it; in particular the escape of ["<"] is
    ["&amp;lt;"] and not ["&lt;"], and escaping twice differs from escaping
    once. *)
Theorem telegram_html_escape_reescapes_ampersand :
  Utils.telegram_html_escape "<" = "&amp;lt;"
  /\ Utils.telegram_html_escape "<" <> "&lt;"
  /\ (forall s1 s2 : string,
        Utils.telegram_html_escape (s1 +:+ "<" +:+ s2)
        = Utils.telegram_html_escape s1 +:+ "&amp;lt;"
          +:+ Utils.telegram_html_escape s2)
  /\ (forall s1 s2 : string,
        Utils.telegram_html_escape (s1 +:+ ">" +:+ s2)
        = Utils.telegram_html_escape s1 +:+ "&amp;gt;"
          +:+ Utils.telegram_html_escape s2)
  /\ Utils.telegram_html_escape (Utils.telegram_html_escape "<")
     <> Utils.telegram_html_escape "<".
Proof.
  repeat split.
  - discriminate.
  - intros s1 s2. by rewrite !telegram_html_escape_app.
  - intros s1 s2. by rewrite !telegram_html_escape_app.
  - discriminate.
Qed.

(** ** Receiving from the queue; graceful stop *)

Section WorkerWaits.
Import Telegram Worker.

Lemma graceful_stop_exit chat language reason s :
  attrs s !! "loc" = Some (VLocalization language) ->
  exists s',
    _graceful_stop chat reason s = Exit s'
    /\ queue s' = queue s
    /\ out s' =
         out s
         ++ (if decide (reason = "timeout")
             then [SendMessage chat (Loc language "conversation_expired" [])
                     ReplyKeyboardRemove None]
             else [])
         ++ [SessionClose].
Proof.
  intros Hloc.
  unfold _graceful_stop, _notify_session_expiration, _close_resources,
    loc_get, getattr, bind, ret, call, send_message, sys_exit.
  destruct (decide (reason = "timeout")); simpl.
  - rewrite Hloc. simpl. eexists. split; [reflexivity|]. simpl.
    split; [done|]. by rewrite <- app_assoc.
  - eexists. split; [reflexivity|]. done.
Qed.

(** A wait that needs no more turns than the queue has items, plus one,
    does not exhaust its fuel. *)
Lemma receive_next_update_cases chat s :
  match __receive_next_update chat s with
  | Ret d s' =>
      exists q, queue s = d :: q /\ s' = with_queue q s
                /\ (forall reason, d <> StopSignal reason)
  | OutOfFuel => False
  | _ => True
  end.
Proof.
  unfold __receive_next_update, queue_get, bind, ret.
  destruct (queue s) as [|d q] eqn:Hq.
  - unfold _graceful_stop, _notify_session_expiration, _close_resources,
      loc_get, getattr, bind, ret, call, send_message, sys_exit, raise.
    simpl. destruct (attrs s !! "loc") as [[]|]; simpl; done.
  - destruct d as [u| |reason]; simpl.
    + exists q. split; [done|]. split; [done|]. discriminate.
    + exists q. split; [done|]. split; [done|]. discriminate.
    + unfold _graceful_stop, _notify_session_expiration, _close_resources,
        loc_get, getattr, bind, ret, call, send_message, sys_exit, raise.
      destruct (decide (reason = "timeout")); simpl; [|done].
      destruct (attrs s !! "loc") as [[]|]; simpl; done.
Qed.


Lemma wait_for_specific_message_fuel chat items cancellable fuel s :
  (length (queue s) < fuel)%nat ->
  _wait_for_specific_message_loop chat fuel items cancellable s <> OutOfFuel.
Proof.
  revert s. induction fuel as [|fuel IH]; intros s Hlen; [lia|].
  cbn [_wait_for_specific_message_loop]. unfold bind at 1.
  pose proof (receive_next_update_cases chat s) as Hr.
  destruct (__receive_next_update chat s) as [d s'| | |]; try done.
  destruct Hr as (q & Hq & -> & Hstop).
  assert (length (queue (with_queue q s)) < fuel)%nat
    by (rewrite Hq in Hlen; simpl in *; lia).
  destruct d as [u| |reason]; [| |by destruct (Hstop reason)].
  - destruct (message u) as [m|]; [|by apply IH].
    destruct (text m) as [t|]; [|by apply IH].
    case_bool_decide; [done | by apply IH].
  - destruct cancellable; [done | by apply IH].
Qed.

Lemma wait_for_regex_fuel chat regex cancellable fuel s :
  (length (queue s) < fuel)%nat ->
  __wait_for_regex_loop chat fuel regex cancellable s <> OutOfFuel.
Proof.
  revert s. induction fuel as [|fuel IH]; intros s Hlen; [lia|].
  cbn [__wait_for_regex_loop]. unfold bind at 1.
  pose proof (receive_next_update_cases chat s) as Hr.
  destruct (__receive_next_update chat s) as [d s'| | |]; try done.
  destruct Hr as (q & Hq & -> & Hstop).
  assert (length (queue (with_queue q s)) < fuel)%nat
    by (rewrite Hq in Hlen; simpl in *; lia).
  destruct d as [u| |reason]; [| |by destruct (Hstop reason)].
  - destruct (message u) as [m|]; [|by apply IH].
    destruct (text m) as [t|]; [|by apply IH].
    destruct (regex t); [done | by apply IH].
  - destruct cancellable; [done | by apply IH].
Qed.

Lemma wait_for_inlinekeyboard_callback_fuel chat cancellable fuel s :
  (length (queue s) < fuel)%nat ->
  __wait_for_inlinekeyboard_callback_loop chat fuel cancellable s <> OutOfFuel.
Proof.
  revert s. induction fuel as [|fuel IH]; intros s Hlen; [lia|].
  cbn [__wait_for_inlinekeyboard_callback_loop]. unfold bind at 1.
  pose proof (receive_next_update_cases chat s) as Hr.
  destruct (__receive_next_update chat s) as [d s'| | |]; try done.
  destruct Hr as (q & Hq & -> & Hstop).
  assert (length (queue (with_queue q s)) < fuel)%nat
    by (rewrite Hq in Hlen; simpl in *; lia).
  destruct d as [u| |reason]; [| |by destruct (Hstop reason)].
  - destruct (callback_query u) as [c|]; [done | by apply IH].
  - destruct cancellable; [done | by apply IH].
Qed.

End WorkerWaits.

(** C7.  Once the localization is bound, a receive that times out does not
    raise: it stops the worker gracefully with the reason [timeout].  The
    graceful stop sends the session-expired notice, with the keyboard
    removed, exactly when the reason is [timeout]; for every reason it
    closes the storage session and leaves the thread by [sys.exit]. *)
Theorem timeout_and_stop_end_gracefully
    (chat : Z) (language : string) (s : Worker.state) :
  Worker.attrs s !! "loc" = Some (Worker.VLocalization language) ->
  let notice :=
    Telegram.SendMessage chat (Telegram.Loc language "conversation_expired" [])
      Telegram.ReplyKeyboardRemove None in
  (Worker.queue s = [] ->
   exists s',
     Worker.__receive_next_update chat s = Worker.Exit s'
     /\ Worker.out s' = Worker.out s ++ [notice; Telegram.SessionClose])
  /\ (forall reason q,
        Worker.queue s = Worker.StopSignal reason :: q ->
        exists s',
          Worker.__receive_next_update chat s = Worker.Exit s'
          /\ Worker.out s' =
               Worker.out s
               ++ (if decide (reason = "timeout") then [notice] else [])
               ++ [Telegram.SessionClose])
  /\ (forall reason,
        exists s',
          Worker._graceful_stop chat reason s = Worker.Exit s'
          /\ Worker.out s' =
               Worker.out s
               ++ (if decide (reason = "timeout") then [notice] else [])
               ++ [Telegram.SessionClose]).
Proof.
  intros Hloc notice. repeat split.
  - intros Hq.
    destruct (graceful_stop_exit chat language "timeout" s Hloc)
      as (s' & Hs' & _ & Hout).
    exists s'. split; [|done].
    unfold Worker.__receive_next_update, Worker.queue_get, Worker.bind.
    by rewrite Hq, Hs'.
  - intros reason q Hq.
    destruct (graceful_stop_exit chat language reason (Worker.with_queue q s) Hloc)
      as (s' & Hs' & _ & Hout).
    exists s'. split; [|done].
    unfold Worker.__receive_next_update, Worker.queue_get, Worker.bind.
    rewrite Hq. cbn [Worker.bind]. by rewrite Hs'.
  - intros reason.
    destruct (graceful_stop_exit chat language reason s Hloc)
      as (s' & Hs' & _ & Hout).
    by exists s'.
Qed.


(** On a queue that delivers a [CancelSignal] first, a wait that is not
    cancellable goes on exactly as it does on what the queue delivers
    after the signal, and a cancellable one returns the signal.  None of
    the three waits exhausts the fuel of the model. *)
Lemma wait_drops_cancel_signal
    (chat : Z) (items : list string) (regex : string -> option string)
    (q : list Worker.item) (s : Worker.state) :
  let s_cancel := Worker.with_queue (Worker.CancelSignal :: q) s in
  let s_without := Worker.with_queue q s in
  (Worker._wait_for_specific_message chat items false s_cancel
   = Worker._wait_for_specific_message chat items false s_without
   /\ Worker.__wait_for_regex chat regex false s_cancel
      = Worker.__wait_for_regex chat regex false s_without
   /\ Worker.__wait_for_inlinekeyboard_callback chat false s_cancel
      = Worker.__wait_for_inlinekeyboard_callback chat false s_without)
  /\ (Worker._wait_for_specific_message chat items true s_cancel
      = Worker.Ret Worker.TCancel s_without
      /\ Worker.__wait_for_regex chat regex true s_cancel
         = Worker.Ret Worker.TCancel s_without
      /\ Worker.__wait_for_inlinekeyboard_callback chat true s_cancel
         = Worker.Ret Worker.CCancel s_without)
  /\ (forall cancellable s0,
        Worker._wait_for_specific_message chat items cancellable s0
        <> Worker.OutOfFuel
        /\ Worker.__wait_for_regex chat regex cancellable s0 <> Worker.OutOfFuel
        /\ Worker.__wait_for_inlinekeyboard_callback chat cancellable s0
           <> Worker.OutOfFuel).
Proof.
  intros s_cancel s_without. split; [|split].
  - repeat split; reflexivity.
  - repeat split; reflexivity.
  - intros cancellable s0. repeat split.
    + apply wait_for_specific_message_fuel. lia.
    + apply wait_for_regex_fuel. lia.
    + apply wait_for_inlinekeyboard_callback_fuel. lia.
Qed.

Lemma timeout_and_stop_end_gracefully_witness :
  exists s',
    Worker.__receive_next_update 7 (Examples.ready []) = Worker.Exit s'
    /\ Worker.out s' =
         [Telegram.SendMessage 7 (Telegram.Loc "en" "conversation_expired" [])
            Telegram.ReplyKeyboardRemove None;
          Telegram.SessionClose].
Proof.
  destruct (timeout_and_stop_end_gracefully 7 "en" (Examples.ready []))
    as [Htimeout _]; [reflexivity|].
  apply Htimeout. reflexivity.
Defined.

(** C8.  A [CancelSignal] that reaches a worker at a wait that is not
    cancellable is dropped, and the wait goes on with a time-out of its
    own, started when the signal is taken: it ends as a wait begun at that
    moment does on the items that follow.  This is how the wait ends
    without the signal whenever the item that follows arrives before the
    time-out that ran when the signal came expires, or too late for the
    restarted one as well.  At a cancellable wait the signal is what the
    wait returns.  This holds for the three waits, none of which exhausts
    the fuel of the model. *)
Theorem cancel_signal_dropped_restarts_the_timeout
    (chat : Z) (items : list string) (regex : string -> option string)
    (conversation_timeout now t : Z) (rest : list (Z * Worker.item))
    (s : Worker.state) :
  t <= now + conversation_timeout ->
  let with_signal :=
    Worker.with_queue
      (Worker.served conversation_timeout now ((t, Worker.CancelSignal) :: rest)) s in
  let restarted :=
    Worker.with_queue (Worker.served conversation_timeout (Z.max now t) rest) s in
  let without :=
    Worker.with_queue (Worker.served conversation_timeout now rest) s in
  (Worker._wait_for_specific_message chat items false with_signal
   = Worker._wait_for_specific_message chat items false restarted
   /\ Worker.__wait_for_regex chat regex false with_signal
      = Worker.__wait_for_regex chat regex false restarted
   /\ Worker.__wait_for_inlinekeyboard_callback chat false with_signal
      = Worker.__wait_for_inlinekeyboard_callback chat false restarted)
  /\ (match rest with
      | [] => True
      | (t', _) :: _ =>
          (t <= t' /\ t' <= now + conversation_timeout)
          \/ Z.max now t + conversation_timeout < t'
      end ->
      Worker._wait_for_specific_message chat items false with_signal
      = Worker._wait_for_specific_message chat items false without
      /\ Worker.__wait_for_regex chat regex false with_signal
         = Worker.__wait_for_regex chat regex false without
      /\ Worker.__wait_for_inlinekeyboard_callback chat false with_signal
         = Worker.__wait_for_inlinekeyboard_callback chat false without)
  /\ (Worker._wait_for_specific_message chat items true with_signal
      = Worker.Ret Worker.TCancel restarted
      /\ Worker.__wait_for_regex chat regex true with_signal
         = Worker.Ret Worker.TCancel restarted
      /\ Worker.__wait_for_inlinekeyboard_callback chat true with_signal
         = Worker.Ret Worker.CCancel restarted)
  /\ (forall cancellable s0,
        Worker._wait_for_specific_message chat items cancellable s0
        <> Worker.OutOfFuel
        /\ Worker.__wait_for_regex chat regex cancellable s0 <> Worker.OutOfFuel
        /\ Worker.__wait_for_inlinekeyboard_callback chat cancellable s0
           <> Worker.OutOfFuel).
Proof.
  intros Ht with_signal restarted without.
  assert (Worker.served conversation_timeout now ((t, Worker.CancelSignal) :: rest)
          = Worker.CancelSignal
            :: Worker.served conversation_timeout (Z.max now t) rest) as Hserved.
  { cbn [Worker.served]. by rewrite (proj2 (Z.leb_le _ _) Ht). }
  destruct (wait_drops_cancel_signal chat items regex
              (Worker.served conversation_timeout (Z.max now t) rest) s)
    as (Hdropped & Hreturned & Hfuel).
  subst with_signal restarted without. rewrite Hserved.
  split; [exact Hdropped|]. split; [|split; [exact Hreturned|exact Hfuel]].
  intros Hrest.
  assert (Worker.served conversation_timeout (Z.max now t) rest
          = Worker.served conversation_timeout now rest) as <-; [|exact Hdropped].
  destruct rest as [|[t' d] rest']; [done|]. cbn [Worker.served].
  destruct Hrest as [[Hafter Hintime]|Hlate].
  - rewrite !(proj2 (Z.leb_le _ _)) by lia. do 2 f_equal. lia.
  - by rewrite !(proj2 (Z.leb_gt _ _)) by lia.
Qed.

Lemma cancel_signal_dropped_restarts_the_timeout_witness :
  Worker.__wait_for_inlinekeyboard_callback 7 false
    (Worker.with_queue
       (Worker.served 10 0
          [(6, Worker.CancelSignal); (8, Worker.Upd (Examples.press "cmd_spotify"))])
       (Examples.ready []))
  = Worker.__wait_for_inlinekeyboard_callback 7 false
      (Worker.with_queue
         (Worker.served 10 0 [(8, Worker.Upd (Examples.press "cmd_spotify"))])
         (Examples.ready [])).
Proof.
  destruct (cancel_signal_dropped_restarts_the_timeout 7 [] (fun _ => None) 10 0 6
              [(8, Worker.Upd (Examples.press "cmd_spotify"))] (Examples.ready []))
    as (_ & Hsame & _); [lia|].
  apply Hsame. left. lia.
Defined.

(** An update that comes twelve seconds after the wait began, with a
    time-out of ten: it is served when a cancel signal came in between, six
    seconds in, and it finds the conversation expired when none did.  The
    dropped signal is not as if it had never arrived. *)
Lemma cancel_signal_keeps_the_conversation_alive :
  (exists s',
      Worker.__wait_for_inlinekeyboard_callback 7 false
        (Worker.with_queue
           (Worker.served 10 0
              [(6, Worker.CancelSignal);
               (12, Worker.Upd (Examples.press "cmd_spotify"))])
           (Examples.ready []))
      = Worker.Ret
          (Worker.CCallback
             {| Telegram.cq_id := "q"; Telegram.cq_from_user := 7;
                Telegram.data := "cmd_spotify" |})
          s')
  /\ (exists s',
        Worker.__wait_for_inlinekeyboard_callback 7 false
          (Worker.with_queue
             (Worker.served 10 0 [(12, Worker.Upd (Examples.press "cmd_spotify"))])
             (Examples.ready []))
        = Worker.Exit s'
        /\ Worker.out s'
           = [Telegram.SendMessage 7 (Telegram.Loc "en" "conversation_expired" [])
                Telegram.ReplyKeyboardRemove None;
              Telegram.SessionClose]).
Proof.
  split.
  - eexists. vm_compute. reflexivity.
  - eexists. split; vm_compute; reflexivity.
Qed.

(** ** Which attributes the worker's thread binds *)

Section WorkerAttributes.
Import Telegram Worker.
Variable chat : Z.
Variable render : string -> string -> string.
Variable requests_get : string -> option Requests.response.
Variable extract_info : string -> option Info.t.

Lemma keeps_ret {A} (a : A) : keeps_attrs (ret a).
Proof. by intros s. Qed.

Lemma keeps_raise {A} e : keeps_attrs (@raise A e).
Proof. by intros s. Qed.

Lemma keeps_sys_exit {A} : keeps_attrs (@sys_exit A).
Proof. by intros s. Qed.

Lemma keeps_out_of_fuel {A} : keeps_attrs (@out_of_fuel A).
Proof. by intros s. Qed.

Lemma keeps_bind {A B} (m : M A) (k : A -> M B) :
  keeps_attrs m -> (forall a, keeps_attrs (k a)) -> keeps_attrs (bind m k).
Proof.
  intros Hm Hk s. unfold bind. specialize (Hm s).
  destruct (m s) as [a s'| | |]; try done.
  specialize (Hk a s'). destruct (k a s'); congruence.
Qed.

Lemma keeps_try_except {A} (m : M A) handler :
  keeps_attrs m -> (forall e, keeps_attrs (handler e)) ->
  keeps_attrs (try_except m handler).
Proof.
  intros Hm Hh s. unfold try_except. specialize (Hm s).
  destruct (m s) as [|e s'| |]; try done.
  specialize (Hh e s'). destruct (handler e s'); congruence.
Qed.

Lemma keeps_call a : keeps_attrs (call a).
Proof. by intros s. Qed.

Lemma keeps_send_message c t m r : keeps_attrs (send_message c t m r).
Proof. by intros s. Qed.

Lemma keeps_getattr name : keeps_attrs (getattr name).
Proof. intros s. unfold getattr. by destruct (attrs s !! name). Qed.

Lemma keeps_getitem {A} key (field : option A) : keeps_attrs (getitem key field).
Proof. destruct field; [apply keeps_ret|apply keeps_raise]. Qed.

Lemma keeps_queue_get : keeps_attrs queue_get.
Proof. intros s. unfold queue_get. by destruct (queue s). Qed.

(** One step of the proof that a function keeps the attributes: through a
    bind or a handler, at a primitive, or by cases on what is matched. *)
Ltac keeps_step :=
  first
    [ apply keeps_ret | apply keeps_raise | apply keeps_sys_exit
    | apply keeps_out_of_fuel | apply keeps_call | apply keeps_send_message
    | apply keeps_getattr | apply keeps_getitem | apply keeps_queue_get
    | assumption
    | apply keeps_bind; [|intros ?]
    | apply keeps_try_except; [|intros ?]
    | match goal with
      | H : forall _, keeps_attrs _ |- _ => apply H
      | H : forall _ _, keeps_attrs _ |- _ => apply H
      | H : forall _ _ _, keeps_attrs _ |- _ => apply H
      | H : forall _ _ _ _, keeps_attrs _ |- _ => apply H
      | |- keeps_attrs (match ?x with _ => _ end) => destruct x
      | |- keeps_attrs (if ?x then _ else _) => destruct x
      end ].

Ltac keeps := repeat keeps_step.

Lemma keeps_loc_get key kwargs : keeps_attrs (loc_get key kwargs).
Proof. unfold loc_get. keeps. Qed.

Lemma keeps_loc_str key : keeps_attrs (loc_str render key).
Proof. unfold loc_str. keeps. Qed.

Lemma keeps_graceful_stop reason : keeps_attrs (_graceful_stop chat reason).
Proof.
  unfold _graceful_stop, _notify_session_expiration, _close_resources.
  keeps; apply keeps_loc_get.
Qed.

Lemma keeps_receive_next_update : keeps_attrs (__receive_next_update chat).
Proof. unfold __receive_next_update. keeps; apply keeps_graceful_stop. Qed.


Lemma keeps_wait_for_specific_message items cancellable :
  keeps_attrs (_wait_for_specific_message chat items cancellable).
Proof.
  assert (forall fuel,
             keeps_attrs (_wait_for_specific_message_loop chat fuel items cancellable))
    as Hloop.
  { induction fuel as [|fuel IH]; cbn [_wait_for_specific_message_loop];
      keeps; apply keeps_receive_next_update. }
  intros s. apply Hloop.
Qed.

Lemma keeps_wait_for_regex regex cancellable :
  keeps_attrs (__wait_for_regex chat regex cancellable).
Proof.
  assert (forall fuel, keeps_attrs (__wait_for_regex_loop chat fuel regex cancellable))
    as Hloop.
  { induction fuel as [|fuel IH]; cbn [__wait_for_regex_loop];
      keeps; apply keeps_receive_next_update. }
  intros s. apply Hloop.
Qed.

Lemma keeps_wait_for_inlinekeyboard_callback cancellable :
  keeps_attrs (__wait_for_inlinekeyboard_callback chat cancellable).
Proof.
  assert (forall fuel,
             keeps_attrs (__wait_for_inlinekeyboard_callback_loop chat fuel cancellable))
    as Hloop.
  { induction fuel as [|fuel IH]; cbn [__wait_for_inlinekeyboard_callback_loop];
      keeps; apply keeps_receive_next_update. }
  intros s. apply Hloop.
Qed.

Lemma keeps_create_buttons_from page_data :
  forall i, keeps_attrs (_create_buttons_from i page_data).
Proof.
  induction page_data as [|d page_data IH]; intros i;
    cbn [_create_buttons_from]; keeps.
Qed.

Lemma keeps_collect_tracks all_entries collect rest :
  forall tracks,
    keeps_attrs (collect_tracks chat extract_info all_entries collect tracks rest).
Proof.
  induction rest as [|da rest IH]; intros tracks; cbn [collect_tracks];
    keeps; apply keeps_loc_get.
Qed.

(** The helpers of the conversation keep the attributes. *)
Ltac keeps_known :=
  first
    [ apply keeps_loc_get | apply keeps_loc_str | apply keeps_graceful_stop
    | apply keeps_receive_next_update | apply keeps_wait_for_specific_message
    | apply keeps_wait_for_regex | apply keeps_wait_for_inlinekeyboard_callback
    | apply keeps_create_buttons_from | apply keeps_collect_tracks ].

Ltac keeps_all := repeat first [keeps_step | keeps_known].

Lemma keeps_send_audio_file url headers title uploader thumb_url :
  keeps_attrs (_send_audio_file chat requests_get url headers title uploader thumb_url).
Proof. unfold _send_audio_file. keeps_all. Qed.

(** No function of the conversation binds an attribute. *)
Lemma keeps_conversation n :
  keeps_attrs (__user_menu chat requests_get extract_info n)
  /\ (forall m, keeps_attrs (__user_menu_loop chat requests_get extract_info n m))
  /\ (forall q m,
        keeps_attrs (__handle_menu_selection chat requests_get extract_info n q m))
  /\ (forall name, keeps_attrs (_notify_updating chat requests_get extract_info n name))
  /\ (forall i m, keeps_attrs (_get_link chat requests_get extract_info n i m))
  /\ keeps_attrs (_soundcloud chat requests_get extract_info n)
  /\ (forall l m, keeps_attrs (_handle_extraction chat requests_get extract_info n l m))
  /\ (forall d m, keeps_attrs (_handle_playlist chat requests_get extract_info n d m))
  /\ (forall d m, keeps_attrs (_handle_url chat requests_get extract_info n d m))
  /\ (forall d m l, keeps_attrs (__show_one chat requests_get extract_info n d m l))
  /\ (forall l p m, keeps_attrs (__show_many chat requests_get extract_info n l p m))
  /\ (forall q d u m,
        keeps_attrs (__send_file chat requests_get extract_info n q d u m)).
Proof.
  induction n as [|n (IH1 & IH2 & IH3 & IH4 & IH5 & IH6 & IH7 & IH8 & IH9 & IH10
                      & IH11 & IH12)].
  { split_and!; intros; apply keeps_out_of_fuel. }
  split_and!; intros.
  - cbn [__user_menu]. unfold __create_keyboard, __send_user_menu_message. keeps_all.
  - cbn [__user_menu_loop]. keeps_all.
  - cbn [__handle_menu_selection]. keeps_all.
  - cbn [_notify_updating]. keeps_all.
  - cbn [_get_link]. unfold _clean_up_messages, _handle_invalid_link. keeps_all.
  - cbn [_soundcloud]. keeps_all.
  - cbn [_handle_extraction]. keeps_all.
  - cbn [_handle_playlist]. keeps_all.
  - cbn [_handle_url]. keeps_all.
  - cbn [__show_one]. keeps_all.
  - cbn [__show_many]. unfold _create_buttons, _create_navigation_buttons. keeps_all.
  - cbn [__send_file]. keeps_all; apply keeps_send_audio_file.
Qed.


Lemma keeps_admin_menu n :
  keeps_attrs (_admin_menu chat render requests_get extract_info n).
Proof.
  induction n as [|n IH]; [apply keeps_out_of_fuel|].
  cbn [_admin_menu].
  unfold _send_admin_menu, _wait_for_user_selection, _switch_to_user_menu.
  keeps_all. apply keeps_conversation.
Qed.

Lemma binds_only_keeps {A} names (m : M A) : keeps_attrs m -> binds_only names m.
Proof.
  intros Hm s. specialize (Hm s). destruct (m s); try done; by intros ? _; rewrite Hm.
Qed.

Lemma binds_only_bind {A B} names (m : M A) (k : A -> M B) :
  binds_only names m -> (forall a, binds_only names (k a)) ->
  binds_only names (bind m k).
Proof.
  intros Hm Hk s. unfold bind. specialize (Hm s).
  destruct (m s) as [a s'| | |]; try done.
  specialize (Hk a s').
  destruct (k a s'); try done; intros name Hname; by rewrite Hk, Hm.
Qed.

Lemma binds_only_try_except {A} names (m : M A) handler :
  binds_only names m -> (forall e, binds_only names (handler e)) ->
  binds_only names (try_except m handler).
Proof.
  intros Hm Hh s. unfold try_except. specialize (Hm s).
  destruct (m s) as [|e s'| |]; try done.
  specialize (Hh e s').
  destruct (handler e s'); try done; intros name Hname; by rewrite Hh, Hm.
Qed.

Lemma binds_only_setattr names name v :
  name ∈ names -> binds_only names (setattr name v).
Proof.
  intros Hin s. simpl. intros name' Hout.
  apply lookup_insert_ne. by intros ->.
Qed.

Lemma keeps_notify_admins number new admins :
  keeps_attrs (notify_admins number new admins).
Proof. induction admins as [|a admins IH]; cbn [notify_admins]; keeps_all. Qed.

(** [run] binds [user], [admin] and [loc], and nothing else. *)
Lemma run_binds_only telegram_user cfg n :
  binds_only ["user"; "admin"; "loc"]
    (run chat render requests_get extract_info telegram_user cfg n).
Proof.
  unfold run, _create_localization.
  repeat first
    [ apply binds_only_setattr;
      by repeat first [apply list_elem_of_here | apply list_elem_of_further]
    | apply binds_only_bind; [|intros ?]
    | apply binds_only_try_except; [|intros ?]
    | match goal with
      | |- binds_only _ (match ?x with _ => _ end) => destruct x
      | |- binds_only _ (if ?x then _ else _) => destruct x
      end
    | apply binds_only_keeps;
      first [ by intros ? | apply keeps_notify_admins | apply keeps_admin_menu
            | apply keeps_conversation | keeps_all ] ].
Qed.


(** A worker that starts without [invoice_payload] ends without it. *)
Lemma run_never_binds_invoice_payload telegram_user cfg n s :
  attrs s !! "invoice_payload" = None ->
  match run chat render requests_get extract_info telegram_user cfg n s with
  | Ret _ s' | Raise _ s' | Exit s' => attrs s' !! "invoice_payload" = None
  | OutOfFuel => True
  end.
Proof.
  intros Hnone. pose proof (run_binds_only telegram_user cfg n s) as Hrun.
  assert ("invoice_payload" ∉ ["user"; "admin"; "loc"]) as Hout.
  { intros H. repeat (apply elem_of_cons in H as [?|H]; [done|]).
    by apply elem_of_nil in H. }
  destruct (run _ _ _ _ _ _ _ _); try done; by rewrite Hrun.
Qed.

End WorkerAttributes.

(** ** The dispatcher *)

Section DispatcherFacts.
Import Telegram Core.
Variable default_language : string.
Variable render : string -> string -> string.

Lemma same_workers_refl s : same_workers s s.
Proof. by split. Qed.

Lemma same_workers_trans s1 s2 s3 :
  same_workers s1 s2 -> same_workers s2 s3 -> same_workers s1 s3.
Proof.
  intros [H1 H2] [H3 H4]. split; [congruence|].
  intros r. by rewrite H4, H2.
Qed.

Lemma same_workers_call a s : same_workers s (call a s).
Proof. by split. Qed.

Lemma same_workers_put r d s : same_workers s (put r d s).
Proof.
  split; [done|]. intros r'. unfold put; simpl.
  rewrite list_lookup_alter. case_decide; [|done].
  subst. by destruct (heap s !! r').
Qed.

Lemma same_workers_set_pc p s : same_workers s (set_pc p s).
Proof. by split. Qed.

Lemma same_workers_lookup s s' r w' :
  same_workers s s' -> heap s' !! r = Some w' ->
  exists w, heap s !! r = Some w /\ w_chat w = w_chat w'
            /\ w_alive w = w_alive w' /\ w_attrs w = w_attrs w'.
Proof.
  intros [_ H] Hw'. specialize (H r). rewrite Hw' in H.
  destruct (heap s !! r) as [w|]; [|done].
  exists w. unfold view in H. simpl in H. split; [done|]. naive_solver.
Qed.

Lemma same_workers_lookup_r s s' r w :
  same_workers s s' -> heap s !! r = Some w ->
  exists w', heap s' !! r = Some w' /\ w_chat w = w_chat w'
            /\ w_alive w = w_alive w' /\ w_attrs w = w_attrs w'.
Proof.
  intros [_ H] Hw. specialize (H r). rewrite Hw in H.
  destruct (heap s' !! r) as [w'|]; [|done].
  exists w'. unfold view in H. simpl in H. split; [done|]. naive_solver.
Qed.

Lemma flow_ok_and_then s0 f k :
  flow_ok s0 f ->
  (forall s, same_workers s0 s -> at_pc s = at_pc s0 -> flow_ok s0 (k s)) ->
  flow_ok s0 (and_then f k).
Proof. destruct f; simpl; try done. intros [? ?] Hk. by apply Hk. Qed.


Lemma handle_message_ok m update s :
  at_pc s = Idle ->
  flow_ok s (handle_message default_language render m update s).
Proof.
  intros Hpc. unfold handle_message.
  destruct (negb _).
  { split; [apply same_workers_call | by left]. }
  destruct (is_start _).
  { unfold begin_start. destruct (chat_workers s !! chat_id m) as [old|] eqn:Hold.
    - split.
      + eapply same_workers_trans; [apply same_workers_put|apply same_workers_set_pc].
      + right; right; left. by exists m, old.
    - split; [apply same_workers_set_pc|].
      right; right; right. by exists m. }
  destruct (chat_workers s !! chat_id m) as [r|].
  2:{ split; [apply same_workers_call | by left]. }
  destruct (heap s !! r) as [w|]; [|apply same_workers_refl].
  destruct (Worker.is_ready (w_attrs w)) as [e|[|]]; [apply same_workers_refl| |].
  - destruct (w_attrs w !! "loc") as [[]|]; try apply same_workers_refl.
    case_bool_decide; (split; [apply same_workers_put|done]).
  - split; [apply same_workers_call | by left].
Qed.

Lemma handle_callback_query_ok q update s0 s :
  same_workers s0 s -> at_pc s = at_pc s0 -> at_pc s0 = Idle ->
  flow_ok s0 (handle_callback_query default_language q update s).
Proof.
  intros Hsame Hpc Hidle. unfold handle_callback_query.
  destruct (chat_workers s !! cq_from_user q) as [r|].
  - case_bool_decide.
    + split; [|done]. eapply same_workers_trans; [done|].
      eapply same_workers_trans; [apply same_workers_put|apply same_workers_call].
    + split; [|done]. eapply same_workers_trans; [done|apply same_workers_put].
  - split.
    + eapply same_workers_trans; [done|apply same_workers_call].
    + left. simpl. congruence.
Qed.

Lemma handle_pre_checkout_query_ok p update s0 s :
  same_workers s0 s -> at_pc s = at_pc s0 -> at_pc s0 = Idle ->
  flow_ok s0 (handle_pre_checkout_query default_language p update s).
Proof.
  intros Hsame Hpc Hidle. unfold handle_pre_checkout_query.
  assert (after_update s0
            (call (AnswerPreCheckoutQuery (pcq_id p) false
                     (default_loc default_language "error_invoice_expired")) s)).
  { split.
    - eapply same_workers_trans; [done|apply same_workers_call].
    - left. simpl. congruence. }
  destruct (chat_workers s !! pcq_from_user p) as [r|]; [|done].
  destruct (heap s !! r) as [w|]; [|done].
  destruct (w_attrs w !! "invoice_payload") as [payload|]; [|done].
  destruct (match payload with Worker.VStr _ => _ | _ => _ end); [|done].
  split; [|done]. eapply same_workers_trans; [done|apply same_workers_put].
Qed.

Lemma handle_update_ok update s :
  at_pc s = Idle ->
  flow_ok s (handle_update default_language render update s).
Proof.
  intros Hpc. unfold handle_update.
  apply flow_ok_and_then; [apply flow_ok_and_then|].
  - destruct (message update); [by apply handle_message_ok|].
    split; [apply same_workers_refl|done].
  - intros s1 H1 H2. destruct (callback_query update).
    + by apply handle_callback_query_ok.
    + by split.
  - intros s1 H1 H2. destruct (pre_checkout_query update).
    + by apply handle_pre_checkout_query_ok.
    + by split.
Qed.

Lemma handle_update_after update s :
  at_pc s = Idle ->
  after_update s (finish (handle_update default_language render update s)).
Proof.
  intros Hpc. pose proof (handle_update_ok update s Hpc) as H.
  destruct (handle_update _ _ _ _) as [s'|s'|e s']; simpl in *.
  - done.
  - destruct H as [H1 H2]. split; [done|]. left. congruence.
  - split.
    + eapply same_workers_trans; [done|apply same_workers_set_pc].
    + right; left. by exists e.
Qed.


Lemma invariant_initial : invariant initial.
Proof.
  split; simpl; try done.
  intros m n [?|?]; done.
Qed.

Lemma invariant_after_update s s' :
  invariant s -> at_pc s = Idle -> after_update s s' -> invariant s'.
Proof.
  intros [Hreg Hlive Hstop Hnew Hattrs] Hidle [Hsame Hpc].
  pose proof Hsame as [Hcw _].
  split.
  - intros c r Hc. rewrite Hcw in Hc.
    destruct (Hreg c r Hc) as (w & Hw & Hchat).
    destruct (same_workers_lookup_r s s' r w Hsame Hw) as (w' & ? & ? & _).
    exists w'. split; [done|congruence].
  - intros r w' Hw' Halive.
    destruct (same_workers_lookup s s' r w' Hsame Hw') as (w & Hw & Hc & Ha & _).
    destruct (Hlive r w Hw) as [[Hr _]|(m & Hm & _)]; [congruence| |congruence].
    left. rewrite Hcw, <- Hc. split; [done|].
    destruct Hpc as [->|[[e ->]|[(m & old & -> & _)|(m & -> & Hnone)]]]; simpl;
      [tauto..|].
    intros Heq. rewrite Heq in Hnone. congruence.
  - intros m old Hm.
    destruct Hpc as [H|[[e H]|[(m' & old' & H & Hold)|(m' & H & _)]]];
      rewrite H in Hm; try done.
    injection Hm as -> ->. by rewrite Hcw.
  - intros m n [Hm|Hm];
    destruct Hpc as [H|[[e H]|[(m' & old' & H & _)|(m' & H & _)]]];
      rewrite H in Hm; done.
  - intros r w' Hw'.
    destruct (same_workers_lookup s s' r w' Hsame Hw') as (w & Hw & _ & _ & Ha).
    rewrite <- Ha. by eapply Hattrs.
Qed.

Lemma invariant_join m old_worker w s :
  invariant s -> at_pc s = Stopping m old_worker ->
  heap s !! old_worker = Some w -> w_alive w = false ->
  invariant (set_pc (Creating m) s).
Proof.
  intros [Hreg Hlive Hstop Hnew Hattrs] Hpc Hw Hdead.
  split; simpl; try done.
  - intros r w' Hw' Halive.
    destruct (Hlive r w' Hw' Halive) as [[Hr _]|(m' & Hm' & _)]; [|congruence].
    left. split; [done|]. intros Heq.
    rewrite <- Heq, (Hstop m old_worker Hpc) in Hr.
    injection Hr as ->. congruence.
  - intros m' n [?|?]; done.
Qed.

Lemma invariant_create m s :
  invariant s -> at_pc s = Creating m -> invariant (create m s).
Proof.
  intros [Hreg Hlive Hstop Hnew Hattrs] Hpc.
  split; simpl.
  - intros c r Hc. destruct (Hreg c r Hc) as (w & Hw & Hchat).
    exists w. split; [by apply lookup_app_l_Some|done].
  - intros r w Hw Halive.
    apply lookup_app_Some in Hw as [Hw|[_ Hw]].
    + destruct (Hlive r w Hw Halive) as [[Hr Hrep]|(m' & Hm' & _)]; [|congruence].
      left. split; [done|]. by rewrite Hpc in Hrep.
    + apply list_lookup_singleton_Some in Hw as [_ <-]. done.
  - done.
  - intros m' n [Hm|Hm]; [|done]. injection Hm as -> <-.
    eexists. split; [apply list_lookup_middle; done|]. done.
  - intros r w Hw.
    apply lookup_app_Some in Hw as [Hw|[_ Hw]]; [by eapply Hattrs|].
    apply list_lookup_singleton_Some in Hw as [_ <-]. reflexivity.
Qed.

Lemma invariant_start m n s :
  invariant s -> at_pc s = Starting m n -> invariant (start m n s).
Proof.
  intros [Hreg Hlive Hstop Hnew Hattrs] Hpc.
  destruct (Hnew m n (or_introl Hpc)) as (wn & Hwn & Hchat & _).
  split; simpl.
  - intros c r Hc. destruct (Hreg c r Hc) as (w & Hw & Hcw).
    rewrite list_lookup_alter. case_decide; subst; rewrite Hw; eauto.
  - intros r w. rewrite list_lookup_alter. case_decide as Hr.
    + subst r. rewrite Hwn. simpl. intros [= <-] _. right. by exists m.
    + intros Hw Halive.
      destruct (Hlive r w Hw Halive) as [[Hcw Hrep]|(m' & Hm' & _)]; [|congruence].
      left. split; [done|]. by rewrite Hpc in Hrep.
  - done.
  - intros m' n' [Hm|Hm]; [done|]. injection Hm as -> ->.
    rewrite list_lookup_alter_eq, Hwn. simpl. eexists. split; [done|]. done.
  - intros r w. rewrite list_lookup_alter. case_decide as Hr.
    + subst r. destruct (heap s !! n) as [w0|] eqn:Hw0; [|done].
      simpl. intros [= <-]. simpl. by eapply Hattrs.
    + by apply Hattrs.
Qed.

Lemma invariant_register m n s :
  invariant s -> at_pc s = Registering m n -> invariant (register m n s).
Proof.
  intros [Hreg Hlive Hstop Hnew Hattrs] Hpc.
  destruct (Hnew m n (or_intror Hpc)) as (wn & Hwn & Hchat & _).
  split; simpl; try done.
  - intros c r. rewrite lookup_insert. case_decide.
    + subst c. intros [= <-]. eauto.
    + apply Hreg.
  - intros r w Hw Halive. left. split; [|simpl; tauto].
    destruct (Hlive r w Hw Halive) as [[Hcw Hrep]|(m' & Hm' & Hc)].
    + rewrite Hpc in Hrep. simpl in Hrep. by rewrite lookup_insert_ne.
    + rewrite Hpc in Hm'. injection Hm' as <- <-. rewrite <- Hc.
      apply lookup_insert_eq.
  - intros m' n' [?|?]; done.
Qed.

Lemma invariant_thread r w w' s :
  invariant s -> heap s !! r = Some w -> thread_step w w' ->
  invariant (set_heap (<[r := w']> (heap s)) s).
Proof.
  intros [Hreg Hlive Hstop Hnew Hattrs] Hw Hstep.
  assert (w_chat w' = w_chat w) as Hchat by (by destruct Hstep).
  assert (w_alive w = true) as Halive by (by destruct Hstep).
  assert (w_attrs w' !! "invoice_payload" = None) as Hpayload.
  { destruct Hstep as [w name v _ Hname| |]; simpl; try by eapply Hattrs.
    rewrite lookup_insert_ne; [by eapply Hattrs|].
    intros ->. repeat (apply elem_of_cons in Hname as [?|Hname]; [done|]).
    by apply elem_of_nil in Hname. }
  assert (r < length (heap s))%nat as Hlt by by eapply lookup_lt_Some.
  split; simpl; try done.
  - intros c r0 Hc. destruct (Hreg c r0 Hc) as (w0 & Hw0 & Hc0).
    rewrite list_lookup_insert. case_decide as Hr.
    + destruct Hr as [-> _]. exists w'. split; [done|]. congruence.
    + by exists w0.
  - intros r0 w0. rewrite list_lookup_insert. case_decide as Hr.
    + destruct Hr as [-> _]. intros [= <-] _. rewrite Hchat. by apply Hlive.
    + apply Hlive.
  - intros m n Hpc. destruct (Hnew m n Hpc) as (wn & Hwn & Hc & Hdead).
    rewrite list_lookup_insert. case_decide as Hr.
    + destruct Hr as [-> _]. exists w'. split; [done|]. split; [congruence|].
      intros Hs. specialize (Hdead Hs). congruence.
    + by exists wn.
  - intros r0 w0. rewrite list_lookup_insert. case_decide as Hr.
    + by intros [= <-].
    + apply Hattrs.
Qed.

Lemma invariant_step s s' :
  invariant s -> step default_language render s s' -> invariant s'.
Proof.
  intros Hinv Hstep. destruct Hstep.
  - eapply invariant_after_update; [done..|]. by apply handle_update_after.
  - by eapply invariant_join.
  - by apply invariant_create.
  - by apply invariant_start.
  - by apply invariant_register.
  - by eapply invariant_thread.
Qed.

Lemma invariant_reachable s :
  reachable default_language render s -> invariant s.
Proof.
  induction 1; [apply invariant_initial | by eapply invariant_step].
Qed.

End DispatcherFacts.

(** The example states are reachable. *)

Section DispatcherExamples.
Import Telegram Core.

Lemma reachable_started : reachable "en" Examples.render Examples.started.
Proof.
  unfold Examples.started.
  eapply reachable_step; [|by apply step_register].
  eapply reachable_step; [|by apply step_start].
  eapply reachable_step; [|by apply step_create].
  eapply reachable_step; [apply reachable_initial|by apply step_update].
Qed.

Lemma reachable_localized : reachable "en" Examples.render Examples.localized.
Proof.
  eapply reachable_step; [apply reachable_started|].
  eapply (step_thread _ _ 0%nat
            {| w_chat := 7; w_attrs := Worker.__init__; w_queue := [];
               w_alive := true |}); [reflexivity|].
  apply (thread_setattr
           {| w_chat := 7; w_attrs := Worker.__init__; w_queue := [];
              w_alive := true |} "loc"); [done|].
  by repeat first [apply list_elem_of_here | apply list_elem_of_further].
Qed.

Lemma reachable_restarted : reachable "en" Examples.render Examples.restarted.
Proof.
  unfold Examples.restarted.
  eapply reachable_step; [|by apply step_start].
  eapply reachable_step; [|by apply step_create].
  eapply reachable_step;
    [|by eapply (step_join _ _ (Examples.private_message 1 "/start") 0%nat)].
  eapply reachable_step;
    [|eapply (step_thread _ _ 0%nat
               {| w_chat := 7;
                  w_attrs := <["loc" := Worker.VLocalization "en"]> Worker.__init__;
                  w_queue := [Worker.StopSignal "request"]; w_alive := true |});
      [reflexivity|]].
  - eapply reachable_step; [apply reachable_localized|by apply step_update].
  - exact (thread_end
             {| w_chat := 7;
                w_attrs := <["loc" := Worker.VLocalization "en"]> Worker.__init__;
                w_queue := [Worker.StopSignal "request"]; w_alive := true |}
             eq_refl).
Qed.

End DispatcherExamples.

(** C1.  In every state the program reaches, two running workers of the
    same chat are the same worker, and a running worker is the one the
    dictionary holds for its chat or the one a start command is about to
    store.  A start command for a chat that has a worker first puts
    [StopSignal("request")] in that worker's queue and waits in [join];
    from there the dispatcher moves on only when the old thread has ended,
    so while the new worker is made and started no other worker of the
    chat is running, and when it is stored it is the only one. *)
Theorem one_running_worker_per_chat
    (default_language : string) (render : string -> string -> string)
    (s : Core.state) :
  Core.reachable default_language render s ->
  (forall r1 r2 w1 w2,
      Core.heap s !! r1 = Some w1 -> Core.heap s !! r2 = Some w2 ->
      Core.w_alive w1 = true -> Core.w_alive w2 = true ->
      Core.w_chat w1 = Core.w_chat w2 -> r1 = r2)
  /\ (forall r w,
        Core.heap s !! r = Some w -> Core.w_alive w = true ->
        Core.chat_workers s !! Core.w_chat w = Some r
        \/ exists m, Core.at_pc s = Core.Registering m r
                     /\ Telegram.chat_id m = Core.w_chat w)
  /\ (forall update m old_worker,
        Core.at_pc s = Core.Idle ->
        Telegram.message update = Some m ->
        Telegram.chat_type m = "private" ->
        Core.is_start (Telegram.text m) = true ->
        Core.chat_workers s !! Telegram.chat_id m = Some old_worker ->
        Core.finish (Core.handle_update default_language render update s)
        = Core.set_pc (Core.Stopping m old_worker)
            (Core.put old_worker (Worker.StopSignal "request") s))
  /\ (forall m old_worker s',
        Core.at_pc s = Core.Stopping m old_worker ->
        Core.step default_language render s s' ->
        (Core.at_pc s' = Core.Stopping m old_worker
         /\ length (Core.heap s') = length (Core.heap s))
        \/ (s' = Core.set_pc (Core.Creating m) s
            /\ exists w, Core.heap s !! old_worker = Some w
                         /\ Core.w_alive w = false))
  /\ (forall m r w,
        Core.at_pc s = Core.Creating m
        \/ (exists n, Core.at_pc s = Core.Starting m n) ->
        Core.heap s !! r = Some w -> Core.w_chat w = Telegram.chat_id m ->
        Core.w_alive w = false)
  /\ (forall m n r w,
        Core.at_pc s = Core.Registering m n ->
        Core.heap s !! r = Some w -> Core.w_chat w = Telegram.chat_id m ->
        Core.w_alive w = true -> r = n).
Proof.
  intros Hreach.
  destruct (invariant_reachable default_language render s Hreach)
    as [Hreg Hlive Hstop Hnew Hattrs].
  split; [|split; [|split; [|split; [|split]]]].
  - intros r1 r2 w1 w2 H1 H2 A1 A2 Hchat.
    destruct (Hlive r1 w1 H1 A1) as [[C1 N1]|(m1 & P1 & E1)];
      destruct (Hlive r2 w2 H2 A2) as [[C2 N2]|(m2 & P2 & E2)].
    + rewrite Hchat in C1. congruence.
    + exfalso. apply N1. rewrite P2. simpl. congruence.
    + exfalso. apply N2. rewrite P1. simpl. congruence.
    + congruence.
  - intros r w Hw Ha. destruct (Hlive r w Hw Ha) as [[? _]|?]; eauto.
  - intros update m old_worker Hpc Hm Hprivate Hstart Hold.
    unfold Core.handle_update, Core.handle_message. rewrite Hm.
    rewrite bool_decide_eq_true_2 by done. simpl. rewrite Hstart. simpl.
    unfold Core.begin_start. by rewrite Hold.
  - intros m old_worker s' Hpc Hstep. destruct Hstep; try congruence.
    + right. assert (m0 = m /\ old_worker0 = old_worker) as [-> ->]
        by (split; congruence).
      eauto.
    + left. simpl. split; [done|]. apply length_insert.
  - intros m r w Hpc Hw Hchat.
    destruct (Core.w_alive w) eqn:Ha; [|done]. exfalso.
    destruct (Hlive r w Hw Ha) as [[_ N]|(m' & P & _)].
    + apply N. destruct Hpc as [->|[n ->]]; done.
    + destruct Hpc as [Hpc|[n Hpc]]; congruence.
  - intros m n r w Hpc Hw Hchat Ha.
    destruct (Hlive r w Hw Ha) as [[_ N]|(m' & P & _)].
    + exfalso. apply N. by rewrite Hpc.
    + congruence.
Qed.

Lemma one_running_worker_per_chat_witness :
  Core.chat_workers Examples.restarted !! 7 = Some 1%nat
  \/ exists m, Core.at_pc Examples.restarted = Core.Registering m 1
               /\ Telegram.chat_id m = 7.
Proof.
  destruct (one_running_worker_per_chat "en" Examples.render Examples.restarted
              reachable_restarted) as (_ & Hrunning & _).
  exact (Hrunning 1%nat
           {| Core.w_chat := 7; Core.w_attrs := Worker.__init__;
              Core.w_queue := []; Core.w_alive := true |} eq_refl eq_refl).
Defined.

(** C9.  [Worker.__init__] binds no [loc], so [is_ready] on a worker whose
    thread has not yet run [_create_localization] raises [AttributeError]:
    it returns neither [False] nor [True].  [_create_localization] is what
    binds [loc], after which [is_ready] returns [True].  The dispatcher
    calls [is_ready] for every private text message that is not a start
    command and has a registered worker, and so raises there when that
    worker has no [loc] yet. *)
Theorem is_ready_raises_before_localization
    (default_language : string) (render : string -> string -> string)
    (m : Telegram.Message) (update : Telegram.Update) (s : Core.state)
    (r : nat) (w : Core.worker) :
  Telegram.message update = Some m ->
  Telegram.chat_type m = "private" ->
  Core.is_start (Telegram.text m) = false ->
  Core.chat_workers s !! Telegram.chat_id m = Some r ->
  Core.heap s !! r = Some w ->
  Core.w_attrs w !! "loc" = None ->
  Worker.is_ready (Core.w_attrs w) = inl (Py.AttributeError "loc")
  /\ Core.handle_update default_language render update s
     = Core.Crash (Py.AttributeError "loc") s
  /\ Worker.is_ready Worker.__init__ = inl (Py.AttributeError "loc")
  /\ (forall m' s', Core.heap (Core.create m' s') !! length (Core.heap s')
                    = Some {| Core.w_chat := Telegram.chat_id m';
                              Core.w_attrs := Worker.__init__;
                              Core.w_queue := []; Core.w_alive := false |})
  /\ (forall t u,
        Worker.attrs t !! "user" = Some (Worker.VUser u) ->
        exists t',
          Worker._create_localization t = Worker.Ret tt t'
          /\ Worker.attrs t' = <["loc" := Worker.VLocalization (Db.language u)]>
                                 (Worker.attrs t)
          /\ Worker.is_ready (Worker.attrs t') = inr true).
Proof.
  intros Hm Hprivate Hstart Hr Hw Hloc.
  assert (Worker.is_ready (Core.w_attrs w) = inl (Py.AttributeError "loc")) as Hready
    by (unfold Worker.is_ready; by rewrite Hloc).
  split; [done|]. split; [|split; [reflexivity|split]].
  - unfold Core.handle_update, Core.handle_message. rewrite Hm.
    rewrite bool_decide_eq_true_2 by done. simpl.
    by rewrite Hstart, Hr, Hw, Hready.
  - intros m' s'. unfold Core.create. simpl. by apply list_lookup_middle.
  - intros t u Hu.
    unfold Worker._create_localization, Worker.getattr, Worker.bind, Worker.setattr.
    rewrite Hu. eexists. split; [reflexivity|]. simpl. split; [done|].
    unfold Worker.is_ready. by rewrite lookup_insert_eq.
Qed.

Lemma is_ready_raises_before_localization_witness :
  Core.handle_update "en" Examples.render (Examples.says 2 "hello") Examples.started
  = Core.Crash (Py.AttributeError "loc") Examples.started.
Proof.
  destruct (is_ready_raises_before_localization "en" Examples.render
              (Examples.private_message 2 "hello") (Examples.says 2 "hello")
              Examples.started 0%nat
              {| Core.w_chat := 7; Core.w_attrs := Worker.__init__;
                 Core.w_queue := []; Core.w_alive := true |}
              eq_refl eq_refl eq_refl eq_refl eq_refl eq_refl)
    as (_ & Hcrash & _).
  exact Hcrash.
Defined.

(** What the dispatcher does with a pre-checkout query whose sender has a
    worker, in any state the program reaches: it raises. *)
Lemma pre_checkout_query_with_worker_raises
    (default_language : string) (render : string -> string -> string)
    (p : Telegram.PreCheckoutQuery) (update : Telegram.Update)
    (s : Core.state) (r : nat) :
  Core.reachable default_language render s ->
  Core.chat_workers s !! Telegram.pcq_from_user p = Some r ->
  Core.handle_pre_checkout_query default_language p update s
  = Core.Crash (Py.AttributeError "invoice_payload") s.
Proof.
  intros Hreach Hr.
  destruct (invariant_reachable default_language render s Hreach)
    as [Hreg _ _ _ Hattrs].
  destruct (Hreg _ _ Hr) as (w & Hw & _).
  unfold Core.handle_pre_checkout_query.
  by rewrite Hr, Hw, (Hattrs r w Hw).
Qed.

(** C3, at the failing input.  User 7 has a worker, whose thread has bound
    [loc]; a pre-checkout query of user 7 makes the dispatcher read
    [receiving_worker.invoice_payload], which no worker has: the dispatcher
    raises [AttributeError] having answered nothing and forwarded nothing.
    Without a worker the query is answered negatively. *)
Theorem pre_checkout_query_reads_missing_attribute :
  Core.handle_update "en" Examples.render (Examples.checkout "order-1")
    Examples.localized
  = Core.Crash (Py.AttributeError "invoice_payload") Examples.localized
  /\ Core.at_pc (Core.finish
                   (Core.handle_update "en" Examples.render
                      (Examples.checkout "order-1") Examples.localized))
     = Core.Crashed (Py.AttributeError "invoice_payload")
  /\ Worker.__init__ !! "invoice_payload" = None
  /\ Core.handle_update "en" Examples.render (Examples.checkout "order-1")
       Core.initial
     = Core.Next
         (Core.call
            (Telegram.AnswerPreCheckoutQuery "c" false
               (Telegram.Loc "en" "error_invoice_expired" []))
            Core.initial).
Proof.
  assert (Core.handle_update "en" Examples.render (Examples.checkout "order-1")
            Examples.localized
          = Core.Crash (Py.AttributeError "invoice_payload") Examples.localized)
    as Hcrash.
  { unfold Core.handle_update. simpl.
    apply (pre_checkout_query_with_worker_raises "en" Examples.render
             {| Telegram.pcq_id := "c"; Telegram.pcq_from_user := 7;
                Telegram.invoice_payload := "order-1" |}
             (Examples.checkout "order-1") Examples.localized 0%nat
             reachable_localized).
    reflexivity. }
  split; [done|]. split; [by rewrite Hcrash|]. split; reflexivity.
Qed.

(** ** Format buttons *)

Section FormatButtons.
Import Telegram Worker.

Lemma offered_test f :
  (64 <? Format.abr f) && negb (PyStr.contains ".m3u8" (Format.url f)) = true
  <-> offered f.
Proof.
  unfold offered. rewrite andb_true_iff, negb_true_iff, Z.ltb_lt. tauto.
Qed.

Lemma download_inj k1 k2 :
  Lit ("Download " +:+ k1) = Lit ("Download " +:+ k2) -> k1 = k2.
Proof. intros [= H]. exact H. Qed.

Lemma create_format_buttons_loop_spec formats :
  forall buttons urls (seen : gset string),
    length buttons = length urls ->
    (forall k, k ∈ seen <-> Lit ("Download " +:+ k) ∈ map button_text buttons) ->
    NoDup (map button_text buttons) ->
    exists new_buttons new_urls,
      _create_format_buttons_loop formats buttons urls seen
      = (buttons ++ new_buttons, urls ++ new_urls)
      /\ length new_buttons = length new_urls
      /\ NoDup (map button_text (buttons ++ new_buttons))
      /\ (forall i b,
            new_buttons !! i = Some b ->
            exists f,
              f ∈ formats /\ offered f /\ button_text b = download f
              /\ new_urls !! i = Some (Format.url f)
              /\ callback_data b
                 = "download_format:" +:+ pretty (length urls + i)%nat)
      /\ (forall f, f ∈ formats -> offered f ->
            download f ∈ map button_text (buttons ++ new_buttons)).
Proof.
  induction formats as [|f formats IH]; intros buttons urls seen Hlen Hseen Hnodup.
  { exists [], []. simpl. rewrite !app_nil_r. split_and!; try done.
    intros f Hf. by apply elem_of_nil in Hf. }
  cbn [_create_format_buttons_loop].
  destruct ((64 <? Format.abr f) && negb (PyStr.contains ".m3u8" (Format.url f)))
    eqn:Htest.
  - apply offered_test in Htest.
    destruct (decide (format_key f ∈ seen)) as [Hin|Hnotin].
    + destruct (IH buttons urls seen Hlen Hseen Hnodup)
        as (nb & nu & -> & Hl & Hnd & Hfrom & Hall).
      exists nb, nu. split_and!; try done.
      * intros i b Hb. destruct (Hfrom i b Hb) as (f' & Hf' & ?).
        exists f'. split; [by apply elem_of_cons; right|done].
      * intros f' Hf' Hoff. apply elem_of_cons in Hf' as [->|Hf'].
        -- rewrite map_app. apply elem_of_app. left. by apply Hseen.
        -- by apply Hall.
    + set (b := {| button_text := Lit ("Download " +:+ format_key f);
                   callback_data := "download_format:" +:+ pretty (length urls) |}).
      destruct (IH (buttons ++ [b]) (urls ++ [Format.url f])
                  ({[format_key f]} ∪ seen))
        as (nb & nu & -> & Hl & Hnd & Hfrom & Hall).
      { rewrite !length_app. simpl. lia. }
      { intros k. rewrite map_app, elem_of_app, elem_of_union, elem_of_singleton.
        simpl. rewrite list_elem_of_singleton, Hseen.
        split; intros [H|H]; auto.
        - right. by rewrite H.
        - left. by apply download_inj. }
      { rewrite map_app. apply NoDup_app. split; [done|]. split.
        - intros t Ht. simpl. rewrite list_elem_of_singleton. intros ->.
          by apply Hnotin, Hseen.
        - simpl. apply NoDup_singleton. }
      exists (b :: nb), (Format.url f :: nu).
      rewrite <- !app_assoc in *. simpl in *.
      split_and!; try done.
      * by rewrite Hl.
      * intros [|i] b' Hb'.
        -- injection Hb' as <-. exists f.
           split; [by apply elem_of_cons; left|].
           split_and!; try done. simpl. by rewrite Nat.add_0_r.
        -- simpl in Hb'. destruct (Hfrom i b' Hb') as (f' & Hf' & ? & ? & ? & Hcb).
           exists f'. split; [by apply elem_of_cons; right|].
           split_and!; try done.
           rewrite Hcb, length_app. simpl. do 2 f_equal. lia.
      * intros f' Hf' Hoff. apply elem_of_cons in Hf' as [->|Hf'].
        -- rewrite map_app. apply elem_of_app. right. simpl.
           apply elem_of_cons. by left.
        -- by apply Hall.
  - destruct (IH buttons urls seen Hlen Hseen Hnodup)
      as (nb & nu & -> & Hl & Hnd & Hfrom & Hall).
    exists nb, nu. split_and!; try done.
    + intros i b Hb. destruct (Hfrom i b Hb) as (f' & Hf' & ?).
      exists f'. split; [by apply elem_of_cons; right|done].
    + intros f' Hf' Hoff. apply elem_of_cons in Hf' as [->|Hf'].
      * apply offered_test in Hoff. congruence.
      * by apply Hall.
Qed.

(** A format that fails the test leaves no trace, wherever it stands. *)
Lemma create_format_buttons_loop_skip pre f post :
  ~ offered f ->
  forall buttons urls seen,
    _create_format_buttons_loop (pre ++ f :: post) buttons urls seen
    = _create_format_buttons_loop (pre ++ post) buttons urls seen.
Proof.
  intros Hf. induction pre as [|g pre IH]; intros buttons urls seen.
  - simpl. destruct (_ && _) eqn:Htest; [|done].
    by apply offered_test in Htest.
  - cbn [app _create_format_buttons_loop].
    destruct (_ && _); [|by apply IH].
    destruct (decide _); by apply IH.
Qed.

Lemma append_nil_r (a : string) : a +:+ "" = a.
Proof. induction a as [|x a IH]; [done|]. by rewrite append_cons, IH. Qed.

Lemma contains_chr_cons c d s :
  PyStr.contains (PyStr.chr c) (String d s)
  = Ascii.eqb c d || PyStr.contains (PyStr.chr c) s.
Proof. cbn [PyStr.contains]. by rewrite prefix_chr. Qed.

Lemma contains_chr_app c a b :
  PyStr.contains (PyStr.chr c) (a +:+ b)
  = PyStr.contains (PyStr.chr c) a || PyStr.contains (PyStr.chr c) b.
Proof.
  induction a as [|d a IH]; [done|].
  by rewrite append_cons, !contains_chr_cons, IH, orb_assoc.
Qed.

Lemma pretty_N_char_no_blank x : Ascii.eqb " " (pretty_N_char x) = false.
Proof. unfold pretty_N_char. by repeat case_match. Qed.

Lemma pretty_N_go_no_blank x :
  forall s, exists d,
    pretty_N_go x s = d +:+ s /\ PyStr.contains (PyStr.chr " ") d = false.
Proof.
  induction (N.lt_wf_0 x) as [x _ IH]. intros s.
  destruct (decide (0 < x)%N) as [Hx|Hx].
  - rewrite pretty_N_go_step by done.
    destruct (IH (x `div` 10)%N (N.div_lt x 10 Hx eq_refl)
                (String (pretty_N_char (x `mod` 10)) s)) as (d & -> & Hd).
    exists (d +:+ String (pretty_N_char (x `mod` 10)) "").
    split; [by rewrite append_assoc|].
    by rewrite contains_chr_app, Hd, contains_chr_cons, pretty_N_char_no_blank.
  - assert (x = 0%N) as -> by lia. exists "". by rewrite pretty_N_go_0.
Qed.

Lemma pretty_Z_no_blank (z : Z) : PyStr.contains (PyStr.chr " ") (pretty z) = false.
Proof.
  assert (forall p : positive, PyStr.contains (PyStr.chr " ") (pretty p) = false)
    as Hpos.
  { intros p. unfold pretty, pretty_positive, pretty, pretty_N.
    destruct (decide _); [done|].
    destruct (pretty_N_go_no_blank (N.pos p) "") as (d & -> & Hd).
    by rewrite append_nil_r. }
  destruct z as [|p|p]; [done|apply Hpos|].
  change (pretty (Z.neg p)) with (String "-" (pretty p)).
  by rewrite contains_chr_cons, Hpos.
Qed.

Lemma split_at_blank (a b x y : string) :
  PyStr.contains (PyStr.chr " ") a = false ->
  PyStr.contains (PyStr.chr " ") b = false ->
  a +:+ String " " x = b +:+ String " " y -> a = b /\ x = y.
Proof.
  revert b. induction a as [|c a IH]; intros [|c' b] Ha Hb Heq.
  - by injection Heq.
  - rewrite append_cons in Heq. injection Heq as <- _.
    by rewrite contains_chr_cons in Hb.
  - rewrite append_cons in Heq. injection Heq as -> _.
    by rewrite contains_chr_cons in Ha.
  - rewrite !append_cons in Heq. injection Heq as -> Heq.
    rewrite contains_chr_cons in Ha, Hb.
    apply orb_false_elim in Ha as [_ Ha]. apply orb_false_elim in Hb as [_ Hb].
    by destruct (IH b Ha Hb Heq) as [-> ->].
Qed.

(** Two formats have the same key exactly when they have the same bit
    rate and the same container up to letter case. *)
Lemma format_key_eq f1 f2 :
  format_key f1 = format_key f2
  <-> Format.abr f1 = Format.abr f2
      /\ PyStr.upper (Format.ext f1) = PyStr.upper (Format.ext f2).
Proof.
  unfold format_key. split.
  - intros Heq.
    change (" kbps " +:+ ?e) with (String " " ("kbps " +:+ e)) in Heq.
    apply split_at_blank in Heq as [Habr Hext]; [|apply pretty_Z_no_blank..].
    split; [by apply (inj pretty)|]. by injection Hext.
  - by intros [-> ->].
Qed.

End FormatButtons.

(** C5, as the code has it.  The buttons carry pairwise distinct keys;
    every format with a bit rate above 64 kbps and no [.m3u8] in its URL
    has the button of its key, and every button, with the URL stored at
    its position, comes from such a format; a format at 64 kbps or below,
    or with [.m3u8] in its URL, leaves no trace.  Two formats have the same
    key exactly when they agree on the bit rate and on the container up to
    letter case, so two admitted formats with the same bit rate and
    container and different URLs give one button, for the first URL. *)
Theorem format_buttons_one_per_key (formats : list Format.t) :
  let buttons := fst (Worker._create_format_buttons formats) in
  let urls := snd (Worker._create_format_buttons formats) in
  NoDup (map Telegram.button_text buttons)
  /\ length buttons = length urls
  /\ (forall f, f ∈ formats -> Worker.offered f ->
        exists b, b ∈ buttons /\ Telegram.button_text b = Worker.download f)
  /\ (forall i b, buttons !! i = Some b ->
        exists f, f ∈ formats /\ Worker.offered f
                  /\ Telegram.button_text b = Worker.download f
                  /\ urls !! i = Some (Format.url f)
                  /\ Telegram.callback_data b = "download_format:" +:+ pretty i)
  /\ (forall pre f post,
        Format.abr f <= 64 \/ PyStr.contains ".m3u8" (Format.url f) = true ->
        Worker._create_format_buttons (pre ++ f :: post)
        = Worker._create_format_buttons (pre ++ post))
  /\ (forall f1 f2,
        Worker.download f1 = Worker.download f2
        <-> Format.abr f1 = Format.abr f2
            /\ PyStr.upper (Format.ext f1) = PyStr.upper (Format.ext f2))
  /\ (forall f1 f2,
        Worker.offered f1 -> Worker.offered f2 ->
        Format.abr f1 = Format.abr f2 -> Format.ext f1 = Format.ext f2 ->
        Format.url f1 <> Format.url f2 ->
        Worker._create_format_buttons [f1; f2]
        = ([{| Telegram.button_text := Worker.download f1;
               Telegram.callback_data := "download_format:0" |}],
           [Format.url f1])).
Proof.
  intros buttons urls. subst buttons urls.
  destruct (create_format_buttons_loop_spec formats [] [] ∅)
    as (nb & nu & Heq & Hlen & Hnodup & Hfrom & Hall); try done.
  { intros k. simpl. split; [set_solver|]. by intros H%elem_of_nil. }
  { apply NoDup_nil_2. }
  unfold Worker._create_format_buttons. rewrite Heq. simpl in *.
  split_and!; try done.
  - intros f Hf Hoff. specialize (Hall f Hf Hoff).
    apply list_elem_of_fmap in Hall as (b & Hb & Hin). by exists b.
  - intros pre f post Hf. apply create_format_buttons_loop_skip.
    unfold Worker.offered. intros [? ?]. destruct Hf; [lia|congruence].
  - intros f1 f2. rewrite <- format_key_eq. unfold Worker.download.
    split; [apply download_inj|by intros ->].
  - intros f1 f2 H1 H2 Habr Hext _.
    assert (Worker.format_key f2 = Worker.format_key f1) as Hkey
      by (apply format_key_eq; by rewrite Habr, Hext).
    apply offered_test in H1, H2.
    cbn [Worker._create_format_buttons_loop]. rewrite H1, H2, Hkey.
    destruct (decide (_ ∈ ∅)) as [Hin|_]; [set_solver|].
    destruct (decide (_ ∈ _)) as [_|Hnotin]; [done|set_solver].
Qed.

Lemma format_buttons_one_per_key_witness :
  exists b,
    b ∈ fst (Worker._create_format_buttons
               [{| Format.abr := 128; Format.ext := "mp3";
                   Format.url := "https://cdn.example/a.mp3" |}])
    /\ Telegram.button_text b = Telegram.Lit "Download 128 kbps MP3".
Proof.
  destruct (format_buttons_one_per_key
              [{| Format.abr := 128; Format.ext := "mp3";
                  Format.url := "https://cdn.example/a.mp3" |}])
    as (_ & _ & Hbutton & _).
  apply (Hbutton {| Format.abr := 128; Format.ext := "mp3";
                    Format.url := "https://cdn.example/a.mp3" |}).
  - apply list_elem_of_singleton. reflexivity.
  - split; [reflexivity|reflexivity].
Defined.

(** C5 as stated fails at 64 kbps: a format at exactly 64 kbps is not
    below 64 kbps and its URL is not a manifest, yet it gets no button. *)
Lemma format_at_64_kbps_gets_no_button :
  let f := {| Format.abr := 64; Format.ext := "mp3";
              Format.url := "https://cdn.example/a.mp3" |} in
  (Format.abr f <? 64) = false
  /\ PyStr.contains ".m3u8" (Format.url f) = false
  /\ Worker._create_format_buttons [f] = ([], [])
  /\ ~ (forall formats g,
          g ∈ formats ->
          (Format.abr g <? 64) = false ->
          PyStr.contains ".m3u8" (Format.url g) = false ->
          exists b, b ∈ fst (Worker._create_format_buttons formats)
                    /\ Telegram.button_text b = Worker.download g).
Proof.
  intros f. split_and!; try reflexivity.
  intros Hclaim.
  destruct (Hclaim [f] f) as (b & Hb & _); try reflexivity.
  - apply list_elem_of_singleton. reflexivity.
  - by apply elem_of_nil in Hb.
Qed.

(** ** The conversation at three inputs *)

Section FailingInputs.
Import Telegram Worker.

(** Once a thumbnail with a resolution has been taken, it stays the best
    one as long as it fails [check_thumbnail], whatever follows. *)
Lemma best_thumbnail_stuck requests_get best thumbnails :
  Utils.check_thumbnail requests_get (Thumbnail.url best) = None ->
  _get_best_thumbnail_loop requests_get (Some best) thumbnails = Some best.
Proof.
  intros Hcheck. induction thumbnails as [|t thumbnails IH]; [done|].
  cbn [_get_best_thumbnail_loop].
  destruct (Thumbnail.resolution t); [|done].
  by rewrite Hcheck, andb_false_r.
Qed.

(** The first thumbnail with a resolution is returned, unchecked, when it
    fails [check_thumbnail]; a button is then offered for it. *)
Lemma first_thumbnail_returned_unchecked requests_get t thumbnails :
  is_Some (Thumbnail.resolution t) ->
  Utils.check_thumbnail requests_get (Thumbnail.url t) = None ->
  _get_best_thumbnail requests_get (t :: thumbnails) = Some t.
Proof.
  intros [r Hr] Hcheck. unfold _get_best_thumbnail.
  cbn [_get_best_thumbnail_loop]. rewrite Hr.
  by apply best_thumbnail_stuck.
Qed.

End FailingInputs.

(** C4, at the failing input.  Of two thumbnails with a resolution, the
    first is 100 wide and fails the validation (its server answers 404),
    the second is 500 wide and passes it.  [_get_best_thumbnail] returns
    the first: the validation is run on the current best one, not on the
    candidate, and never on what is returned.  The cover button is offered
    for it, as it is for a lone thumbnail that fails the validation. *)
Theorem best_thumbnail_skips_the_validation :
  Utils.check_thumbnail Examples.web (Thumbnail.url Examples.small) = None
  /\ Utils.check_thumbnail Examples.web (Thumbnail.url Examples.large)
     = Some (Thumbnail.url Examples.large)
  /\ Worker._get_best_thumbnail Examples.web [Examples.small; Examples.large]
     = Some Examples.small
  /\ Worker._get_best_thumbnail Examples.web [Examples.small] = Some Examples.small
  /\ (forall cancel,
        Worker.show_one_keyboard
          (Worker._get_best_thumbnail Examples.web [Examples.small]) [] cancel
        = [[{| Telegram.button_text := Telegram.Lit "Download Cover";
               Telegram.callback_data := "download_cover" |}];
           [{| Telegram.button_text := cancel;
               Telegram.callback_data := "cmd_cancel" |}]]).
Proof.
  assert (Utils.check_thumbnail Examples.web (Thumbnail.url Examples.small) = None)
    as Hsmall by reflexivity.
  split_and!.
  - exact Hsmall.
  - reflexivity.
  - by apply first_thumbnail_returned_unchecked.
  - by apply first_thumbnail_returned_unchecked.
  - intros cancel. by rewrite first_thumbnail_returned_unchecked.
Qed.

(** C2, at the failing input.  The user opens the link prompt and sends
    three texts without a SoundCloud link.  [_get_link] sends the notice
    after each, then the final notice, and returns [None];
    [_soundcloud] unpacks that result and raises [TypeError].  In a
    conversation just started nothing catches it before [run]: the worker
    sends the fatal-error notice and its thread ends, the next press left
    in the queue.  The conversation does not return to the main menu. *)
Theorem three_invalid_links_end_the_worker (k : nat) :
  let texts :=
    [Worker.Upd (Examples.says 11 "hello");
     Worker.Upd (Examples.says 12 "see http://example.com/x");
     Worker.Upd (Examples.says 13 "soundcloud")] in
  let invalid markup :=
    Telegram.SendMessage 7 (Telegram.Loc "en" "invalid_link" []) markup None in
  let keyboard :=
    Telegram.ReplyKeyboardMarkup Worker.cancel_keyboard true true in
  (exists s',
      Worker._get_link 7 Examples.web Examples.resolver (5 + k) 0 100
        (Examples.ready texts)
      = Worker.Ret None s'
      /\ Worker.out s' =
           [invalid keyboard;
            Telegram.DeleteMessage 7 100; invalid keyboard;
            Telegram.DeleteMessage 7 100; invalid keyboard;
            invalid Telegram.NoMarkup])
  /\ (exists s',
        Worker._soundcloud 7 Examples.web Examples.resolver (6 + k)
          (Examples.ready texts)
        = Worker.Raise
            (Py.TypeError "cannot unpack non-iterable NoneType object") s')
  /\ (exists s',
        Worker.run 7 Examples.render Examples.web Examples.resolver
          Examples.ann Examples.cfg (9 + k)
          (Examples.fresh
             (Worker.Upd (Examples.press "cmd_soundcloud") :: texts
              ++ [Worker.Upd (Examples.press "cmd_spotify")]))
        = Worker.Ret tt s'
        /\ Worker.queue s' = [Worker.Upd (Examples.press "cmd_spotify")]
        /\ last (Worker.out s')
           = Some (Telegram.SendMessage 7
                     (Telegram.Loc "en" "fatal_conversation_exception" [])
                     Telegram.NoMarkup None)).
Proof.
  intros texts invalid keyboard. split_and!.
  - eexists. split; vm_compute; reflexivity.
  - eexists. vm_compute. reflexivity.
  - eexists. split_and!; vm_compute; reflexivity.
Qed.

(** C6, at the failing input.  A redirect leads to a set of one track.
    The user picks the track from the list and then presses a button of an
    older menu.  The list flow ends there and [_handle_playlist] returns;
    [_handle_url] has no [else] and goes on to [__show_one] with the set
    itself, which has no thumbnails: [KeyError].  Under [_soundcloud] the
    user is told that the link is invalid.  Both outcomes are taken, one
    after the other. *)
Theorem redirect_to_playlist_runs_both_flows (k : nat) :
  let presses :=
    [Worker.Upd (Examples.press "button_0");
     Worker.Upd (Examples.press "cmd_youtube")] in
  exists s',
    Worker._handle_playlist 7 Examples.web Examples.resolver (5 + k)
      Examples.playlist 50 (Examples.ready presses)
    = Worker.Ret tt s'
    /\ Worker.__show_one 7 Examples.web Examples.resolver (5 + k)
         Examples.playlist 50 None s'
       = Worker.Raise (Py.KeyError "thumbnails") s'
    /\ Worker._handle_url 7 Examples.web Examples.resolver (6 + k)
         Examples.redirect 50 (Examples.ready presses)
       = Worker.Raise (Py.KeyError "thumbnails") s'
    /\ Telegram.EditMessageReplyMarkup 7 50
         (Telegram.InlineKeyboardMarkup
            [[{| Telegram.button_text := Telegram.Lit "1. T1";
                 Telegram.callback_data := "button_0" |}];
             [{| Telegram.button_text := Telegram.Loc "en" "menu_cancel" [];
                 Telegram.callback_data := "cmd_cancel" |}]])
       ∈ Worker.out s'
    /\ exists s'',
         Worker._soundcloud 7 Examples.web Examples.resolver (8 + k)
           (Examples.ready
              (Worker.Upd (Examples.says 11 "https://soundcloud.com/r") :: presses))
         = Worker.Ret tt s''
         /\ last (Worker.out s'')
            = Some (Telegram.SendMessage 7 (Telegram.Loc "en" "invalid_link" [])
                      Telegram.NoMarkup None).
Proof.
  intros presses. eexists. split_and!.
  - vm_compute. reflexivity.
  - vm_compute. reflexivity.
  - vm_compute. reflexivity.
  - vm_compute. set_solver.
  - eexists. split; vm_compute; reflexivity.
Qed.

(** * Further properties *)

(** ** More on strings *)

Section MoreStrings.
Import PyStr Shape.

Lemma all_chars_app p a b :
  all_chars p (a +:+ b) = all_chars p a && all_chars p b.
Proof.
  induction a as [|c a IH]; [done|].
  rewrite append_cons. simpl. by rewrite IH, andb_assoc.
Qed.

Lemma all_chars_flat_map p f s :
  (forall c, all_chars p (f c) = true) -> all_chars p (flat_map_chars f s) = true.
Proof.
  intros Hf. induction s as [|c s IH]; [done|].
  cbn [flat_map_chars]. by rewrite all_chars_app, Hf, IH.
Qed.

Lemma flat_map_chars_compose f g s :
  flat_map_chars g (flat_map_chars f s)
  = flat_map_chars (fun c => flat_map_chars g (f c)) s.
Proof.
  induction s as [|c s IH]; [done|].
  cbn [flat_map_chars]. by rewrite flat_map_chars_app, IH.
Qed.

Lemma flat_map_chars_ext f g s :
  (forall c, f c = g c) -> flat_map_chars f s = flat_map_chars g s.
Proof.
  intros Hfg. induction s as [|c s IH]; [done|].
  cbn [flat_map_chars]. by rewrite Hfg, IH.
Qed.

Lemma telegram_html_escape_chars s :
  Utils.telegram_html_escape s = flat_map_chars escape_char s.
Proof.
  unfold Utils.telegram_html_escape.
  change "&" with (chr "&"); change ">" with (chr ">"); change "<" with (chr "<").
  rewrite !replace_chr, !flat_map_chars_compose.
  apply flat_map_chars_ext. intros c. unfold escape_char, subst_char.
  destruct (Ascii.eqb_spec "<" c) as [<-|H1]; [reflexivity|].
  rewrite (proj2 (Ascii.eqb_neq c "<")) by congruence.
  destruct (Ascii.eqb_spec ">" c) as [<-|H2]; [reflexivity|].
  rewrite (proj2 (Ascii.eqb_neq c ">")) by congruence.
  destruct (Ascii.eqb_spec "&" c) as [<-|H3]; [reflexivity|].
  rewrite (proj2 (Ascii.eqb_neq c "&")) by congruence.
  destruct (Ascii.eqb_spec dquote c) as [<-|H4]; [reflexivity|].
  rewrite (proj2 (Ascii.eqb_neq c dquote)) by congruence.
  assert ((">" =? c)%char = false) as E2 by (apply Ascii.eqb_neq; congruence).
  assert (("&" =? c)%char = false) as E3 by (apply Ascii.eqb_neq; congruence).
  assert ((dquote =? c)%char = false) as E4 by (apply Ascii.eqb_neq; congruence).
  unfold chr. cbn [flat_map_chars]. rewrite E2. cbn [flat_map_chars].
  rewrite E3. cbn [flat_map_chars]. by rewrite E4.
Qed.


Lemma length_append (a b : string) :
  String.length (a +:+ b) = (String.length a + String.length b)%nat.
Proof. induction a as [|c a IH]; [done|]. rewrite append_cons. simpl. by rewrite IH. Qed.

Lemma escape_char_cases c :
  (unescaped c = true /\ escape_char c = chr c)
  \/ (unescaped c = false /\ (1 < String.length (escape_char c))%nat).
Proof.
  unfold unescaped, html_plain, escape_char.
  destruct (Ascii.eqb c "<"); [right; split; [done|simpl; lia]|].
  destruct (Ascii.eqb c ">"); [right; split; [done|simpl; lia]|].
  destruct (Ascii.eqb c "&"); [right; split; [by rewrite andb_false_r|simpl; lia]|].
  destruct (Ascii.eqb c dquote); [right; split; [done|simpl; lia]|].
  by left.
Qed.

Lemma escape_char_plain c : all_chars html_plain (escape_char c) = true.
Proof.
  unfold escape_char.
  destruct (Ascii.eqb c "<") eqn:E1; [done|].
  destruct (Ascii.eqb c ">") eqn:E2; [done|].
  destruct (Ascii.eqb c "&") eqn:E3; [done|].
  destruct (Ascii.eqb c dquote) eqn:E4; [done|].
  simpl. unfold html_plain. by rewrite E1, E2, E4.
Qed.

Lemma length_escape s :
  (String.length s <= String.length (flat_map_chars escape_char s))%nat
  /\ (String.length (flat_map_chars escape_char s) = String.length s ->
      all_chars unescaped s = true).
Proof.
  induction s as [|c s [IH1 IH2]]; [done|].
  cbn [flat_map_chars all_chars]. rewrite length_append. simpl.
  destruct (escape_char_cases c) as [[Hc ->]|[Hc Hlen]].
  - simpl. split; [lia|]. intros H. rewrite Hc. apply IH2. lia.
  - split; [lia|]. intros H. lia.
Qed.

End MoreStrings.

(** X1.  The text [telegram_html_escape] returns holds no [<], no [>]
    and no double quote, and it is the text given exactly when that one
    holds none of the four characters replaced. *)
Theorem telegram_html_escape_output (s : string) :
  Shape.all_chars Shape.html_plain (Utils.telegram_html_escape s) = true
  /\ (Utils.telegram_html_escape s = s <-> Shape.all_chars Shape.unescaped s = true).
Proof.
  rewrite telegram_html_escape_chars. split.
  - apply all_chars_flat_map, escape_char_plain.
  - split.
    + intros H. apply length_escape. by rewrite H.
    + intros H. induction s as [|c s IH]; [done|].
      simpl in H. apply andb_true_iff in H as [Hc Hs].
      cbn [PyStr.flat_map_chars]. rewrite (IH Hs).
      destruct (escape_char_cases c) as [[_ ->]|[Hc' _]]; [done|congruence].
Qed.

(** ** Printing an integer and reading it back *)

Section IntOfPretty.
Import PyStr Shape.

Lemma digit_value_pretty_N_char (y : N) :
  (y < 10)%N -> digit_value (pretty_N_char y) = Some (Z.of_N y).
Proof.
  intros Hy.
  assert (y = 0 \/ y = 1 \/ y = 2 \/ y = 3 \/ y = 4 \/ y = 5 \/ y = 6 \/ y = 7
          \/ y = 8 \/ y = 9)%N as Hcases by lia.
  repeat (destruct Hcases as [->|Hcases]; [reflexivity|]). by subst.
Qed.

Lemma digits_pretty_N_go (x : N) :
  (0 < x)%N ->
  exists p, forall acc need s,
      digits acc need (pretty_N_go x s) = digits (acc * p + Z.of_N x) false s.
Proof.
  induction (N.lt_wf_0 x) as [x _ IH]. intros Hx.
  assert (digit_value (pretty_N_char (x `mod` 10)) = Some (Z.of_N (x `mod` 10)))
    as Hd by (apply digit_value_pretty_N_char, N.mod_lt; lia).
  destruct (decide (0 < x `div` 10)%N) as [Hq|Hq].
  - destruct (IH (x `div` 10)%N (N.div_lt x 10 Hx eq_refl) Hq) as (p & Hp).
    exists (p * 10). intros acc need s.
    rewrite pretty_N_go_step by done. rewrite Hp. cbn [digits]. rewrite Hd.
    f_equal. pose proof (N.div_mod x 10 ltac:(done)) as E.
    set (q := (x `div` 10)%N) in *. set (r := (x `mod` 10)%N) in *.
    clearbody q r. rewrite E, N2Z.inj_add, N2Z.inj_mul. simpl Z.of_N. ring.
  - exists 10. intros acc need s.
    rewrite pretty_N_go_step by done.
    assert (x `div` 10 = 0)%N as Hz by (destruct (x `div` 10)%N; [done|lia]).
    rewrite Hz, pretty_N_go_0.
    cbn [digits]. rewrite Hd. f_equal.
    pose proof (N.div_mod x 10 ltac:(done)) as E. rewrite Hz in E.
    set (r := (x `mod` 10)%N) in *. clearbody r.
    rewrite E, N2Z.inj_add. simpl Z.of_N. ring.
Qed.

Lemma is_digit_plain c : is_digit c = true -> Shape.plain c = true.
Proof.
  unfold is_digit, digit_value, Shape.plain, is_space.
  destruct (Nat.leb 48 _ && Nat.leb _ 57) eqn:H; [|done]. intros _.
  apply andb_true_iff in H as [H1%Nat.leb_le H2%Nat.leb_le].
  apply andb_true_iff. split; [|apply Nat.ltb_lt; lia].
  apply negb_true_iff, orb_false_iff. split; apply andb_false_iff.
  - right. apply Nat.leb_gt. lia.
  - right. apply Nat.leb_gt. lia.
Qed.

(** A byte below 194 starts no whitespace character of several bytes. *)
Lemma wide_space_below c s :
  (nat_of_ascii c < 194)%nat -> wide_space (String c s) = 0%nat.
Proof.
  intros Hc. unfold wide_space. destruct s as [|b rest]; [done|].
  replace (Nat.eqb (nat_of_ascii c) 194) with false
    by (symmetry; apply Nat.eqb_neq; lia).
  replace (Nat.eqb (nat_of_ascii c) 225) with false
    by (symmetry; apply Nat.eqb_neq; lia).
  replace (Nat.eqb (nat_of_ascii c) 226) with false
    by (symmetry; apply Nat.eqb_neq; lia).
  replace (Nat.eqb (nat_of_ascii c) 227) with false
    by (symmetry; apply Nat.eqb_neq; lia).
  by destruct rest.
Qed.

Lemma plain_cases c :
  Shape.plain c = true -> is_space c = false /\ (nat_of_ascii c < 128)%nat.
Proof.
  unfold Shape.plain. intros [H1 H2]%andb_true_iff.
  split; [by apply negb_true_iff|by apply Nat.ltb_lt].
Qed.

Lemma space_here_plain c s : Shape.plain c = true -> space_here (String c s) = false.
Proof.
  intros [Hs Hc]%plain_cases. unfold space_here.
  by rewrite Hs, wide_space_below by lia.
Qed.

Lemma int_space_plain c s : Shape.plain c = true -> int_space (String c s) = 0%nat.
Proof.
  intros [Hs Hc]%plain_cases. unfold int_space.
  rewrite wide_space_below by lia.
  unfold is_space in Hs. apply orb_false_iff in Hs as [Hs1 Hs2].
  rewrite Hs1. simpl.
  destruct (Nat.eqb_spec (nat_of_ascii c) 32) as [Heq|]; [|done].
  rewrite Heq in Hs2. discriminate Hs2.
Qed.

Lemma pretty_N_go_digits x :
  forall s, all_chars is_digit s = true ->
            all_chars is_digit (pretty_N_go x s) = true.
Proof.
  induction (N.lt_wf_0 x) as [x _ IH]. intros s Hs.
  destruct (decide (0 < x)%N) as [Hx|Hx].
  - rewrite pretty_N_go_step by done.
    apply IH; [by apply N.div_lt|]. simpl. rewrite Hs, andb_true_r.
    unfold is_digit. by rewrite digit_value_pretty_N_char by (apply N.mod_lt; lia).
  - assert (x = 0%N) as -> by lia. by rewrite pretty_N_go_0.
Qed.

Lemma rev_app_rev_app a b c :
  String.rev_app (String.rev_app a b) c = String.rev_app b (a +:+ c).
Proof.
  revert b. induction a as [|x a IH]; intros b; [done|].
  simpl. rewrite IH. simpl. by rewrite append_cons.
Qed.

Lemma rev_involutive s : String.rev (String.rev s) = s.
Proof. unfold String.rev. rewrite rev_app_rev_app. simpl. apply append_nil_r. Qed.

Lemma lstrip_id s : all_chars Shape.plain s = true -> lstrip s = s.
Proof.
  destruct s as [|c s]; [done|]. simpl. intros [H _]%andb_true_iff.
  unfold lstrip. cbn [lstrip_from]. by rewrite int_space_plain.
Qed.

Lemma rstrip_id s : all_chars Shape.plain s = true -> rstrip s = s.
Proof.
  induction s as [|c s IH]; [done|]. simpl all_chars. intros [Hc Hs]%andb_true_iff.
  cbn [rstrip all_space_from]. rewrite int_space_plain by done. by rewrite IH.
Qed.

Lemma strip_id s : all_chars Shape.plain s = true -> strip s = s.
Proof. intros H. unfold strip. by rewrite (lstrip_id s H), rstrip_id. Qed.

Lemma all_chars_impl (p q : ascii -> bool) s :
  (forall c, p c = true -> q c = true) ->
  all_chars p s = true -> all_chars q s = true.
Proof.
  intros Hpq. induction s as [|c s IH]; [done|]. simpl.
  intros [Hc Hs]%andb_true_iff. by rewrite (Hpq c Hc), IH.
Qed.

(** A text of digits is read as the number its digits spell. *)
Lemma int_digits s :
  all_chars is_digit s = true -> int s = digits 0 true s.
Proof.
  intros H. unfold int. rewrite strip_id.
  2:{ apply (all_chars_impl is_digit); [|done]. apply is_digit_plain. }
  destruct s as [|c s]; [done|].
  simpl in H. apply andb_true_iff in H as [Hc _].
  destruct c as [[] [] [] [] [] [] [] []]; try discriminate Hc; reflexivity.
Qed.

Lemma int_pretty_N (x : N) : int (pretty x) = Some (Z.of_N x).
Proof.
  unfold pretty, pretty_N. destruct (decide (x = 0)%N) as [->|Hx]; [done|].
  rewrite int_digits by (by apply pretty_N_go_digits).
  destruct (digits_pretty_N_go x) as (p & Hp); [lia|].
  by rewrite Hp.
Qed.

Lemma int_pretty_nat (i : nat) : int (pretty i) = Some (Z.of_nat i).
Proof.
  unfold pretty, pretty_nat. rewrite int_pretty_N. f_equal. lia.
Qed.

Lemma int_pretty_Z (z : Z) : int (pretty z) = Some z.
Proof.
  destruct z as [|p|p]; [done| |].
  - apply (int_pretty_N (N.pos p)).
  - change (pretty (Z.neg p)) with (String "-" (pretty (N.pos p))).
    pose proof (int_pretty_N (N.pos p)) as Hint.
    unfold pretty, pretty_N in *. destruct (decide _); [done|].
    rewrite int_digits in Hint by (by apply pretty_N_go_digits).
    unfold int. rewrite strip_id.
    + by rewrite Hint.
    + simpl. apply (all_chars_impl is_digit).
      * apply is_digit_plain.
      * by apply pretty_N_go_digits.
Qed.

End IntOfPretty.

(** ** Callback data: what a button carries and what a press selects *)

Section CallbackData.
Import PyStr Py Telegram Worker Shape.

Lemma prefix_append (p t : string) : String.prefix p (p +:+ t) = true.
Proof.
  induction p as [|c p IH]; [by destruct t|].
  rewrite append_cons. simpl. by destruct (ascii_dec c c).
Qed.

Lemma split_go_no_sep sep cur s :
  all_chars (fun c => negb (Ascii.eqb c sep)) s = true ->
  split_go sep cur s = [String.rev (String.rev_app s cur)].
Proof.
  revert cur. induction s as [|c s IH]; intros cur H; [done|].
  simpl in H. apply andb_true_iff in H as [Hc Hs].
  cbn [split_go]. destruct (Ascii.eqb c sep); [done|].
  by rewrite IH.
Qed.

Lemma pretty_Z_nonneg_digits (z : Z) :
  0 <= z -> all_chars is_digit (pretty z) = true.
Proof.
  intros Hz. destruct z as [|p|p]; [done| |lia].
  unfold pretty, pretty_Z, pretty, pretty_positive, pretty, pretty_N.
  destruct (decide _); [done|]. by apply pretty_N_go_digits.
Qed.

Lemma pretty_nat_digits (i : nat) : all_chars is_digit (pretty i) = true.
Proof.
  unfold pretty, pretty_nat, pretty, pretty_N.
  destruct (decide _); [done|]. by apply pretty_N_go_digits.
Qed.

Lemma is_digit_not_underscore c : is_digit c = true -> negb (Ascii.eqb c "_") = true.
Proof.
  intros H. destruct (Ascii.eqb_spec c "_") as [->|]; [discriminate H|done].
Qed.

(** [int(("button_" + str(i)).split("_")[1])] is [i]. *)
Lemma button_data_decodes (i : nat) :
  index (split "_" ("button_" +:+ pretty (Z.of_nat i))) 1
  = Some (pretty (Z.of_nat i))
  /\ int (pretty (Z.of_nat i)) = Some (Z.of_nat i).
Proof.
  split; [|apply int_pretty_Z].
  unfold split. change ("button_" +:+ ?t) with
    (String "b" (String "u" (String "t" (String "t" (String "o" (String "n"
       (String "_" t))))))).
  cbn [split_go Ascii.eqb Bool.eqb].
  rewrite split_go_no_sep.
  - unfold index. simpl. f_equal.
    change (String.rev_app (pretty (Z.of_nat i)) "")
      with (String.rev (pretty (Z.of_nat i))).
    apply rev_involutive.
  - apply (all_chars_impl is_digit); [apply is_digit_not_underscore|].
    apply pretty_Z_nonneg_digits. lia.
Qed.

Lemma index_nat {A} (l : list A) (i : nat) :
  index l (Z.of_nat i) = l !! i.
Proof.
  unfold index.
  destruct (decide (i < length l)%nat) as [Hi|Hi].
  - rewrite (proj2 (Z.leb_le _ _)), (proj2 (Z.ltb_lt _ _)) by lia.
    simpl. by rewrite Nat2Z.id.
  - rewrite (proj2 (Z.leb_le 0 _)) by lia.
    rewrite (proj2 (Z.ltb_ge _ _)) by lia. simpl.
    rewrite (proj2 (Z.ltb_ge _ 0)) by lia. simpl.
    symmetry. apply lookup_ge_None. lia.
Qed.

Lemma create_buttons_from_spec page_data :
  forall i s,
    match _create_buttons_from i page_data s with
    | Ret buttons s' =>
        s' = s
        /\ length buttons = length page_data
        /\ forall (k : nat) b,
             buttons !! k = Some b ->
             callback_data b = "button_" +:+ pretty (i + Z.of_nat k)
             /\ exists data title,
                  page_data !! k = Some data /\ Info.title data = Some title
                  /\ button_text b
                     = Lit (pretty (i + Z.of_nat k + 1) +:+ ". " +:+ title)
    | Raise e s' =>
        s' = s /\ e = KeyError "title"
        /\ exists data, data ∈ page_data /\ Info.title data = None
    | _ => False
    end.
Proof.
  induction page_data as [|data page_data IH]; intros i s.
  { simpl. split_and!; done. }
  cbn [_create_buttons_from]. unfold bind at 1.
  destruct (Info.title data) as [title|] eqn:Htitle; simpl.
  2:{ split_and!; try done. exists data. split; [apply elem_of_cons; by left|done]. }
  unfold bind at 1. specialize (IH (i + 1) s).
  destruct (_create_buttons_from (i + 1) page_data s) as [buttons s'|e s'| |];
    try done.
  - destruct IH as (-> & Hlen & Hb). simpl. split_and!; try done.
    + by rewrite Hlen.
    + intros [|k] b Hk.
      * injection Hk as <-. simpl. rewrite Z.add_0_r. split; [done|].
        by exists data, title.
      * simpl in Hk. destruct (Hb k b Hk) as (Hcb & d & t & Hd & Ht & Htext).
        replace (i + Z.of_nat (S k)) with (i + 1 + Z.of_nat k) by lia.
        split; [done|]. by exists d, t.
  - destruct IH as (-> & -> & d & Hd & Hnone). split_and!; try done.
    exists d. split; [by apply elem_of_cons; right|done].
Qed.

End CallbackData.

(** X2.  [_create_buttons] makes one button per item of the page, in
    order, unless an item has no title, in which case it raises
    [KeyError].  The data of the button at position [k] is decoded by
    [__show_many] ([int(data.split("_")[1])], then [page_data[...]]) to the
    item at position [k]: a press selects the item the button shows. *)
Theorem item_button_selects_its_item
    (page_data : list Info.t) (s : Worker.state) :
  match Worker._create_buttons page_data s with
  | Worker.Ret buttons s' =>
      s' = s
      /\ length buttons = length page_data
      /\ forall (k : nat) b,
           buttons !! k = Some b ->
           exists field data title,
             Py.index (PyStr.split "_" (Telegram.callback_data b)) 1 = Some field
             /\ PyStr.int field = Some (Z.of_nat k)
             /\ Py.index page_data (Z.of_nat k) = Some data
             /\ Info.title data = Some title
             /\ Telegram.button_text b
                = Telegram.Lit (pretty (Z.of_nat k + 1) +:+ ". " +:+ title)
  | Worker.Raise e s' =>
      s' = s /\ e = Py.KeyError "title"
      /\ exists data, data ∈ page_data /\ Info.title data = None
  | _ => False
  end.
Proof.
  unfold Worker._create_buttons.
  pose proof (create_buttons_from_spec page_data 0 s) as H.
  destruct (Worker._create_buttons_from 0 page_data s) as [buttons s'|e s'| |];
    try done.
  destruct H as (-> & Hlen & Hb). split_and!; try done.
  intros k b Hk. destruct (Hb k b Hk) as (Hcb & data & title & Hd & Ht & Htext).
  simpl in Hcb, Htext. rewrite Hcb.
  destruct (button_data_decodes k) as [Hsplit Hint].
  exists (pretty (Z.of_nat k)), data, title. split_and!; try done.
  by rewrite index_nat.
Qed.

(** X3.  The data of the format button at position [i] is decoded by
    [__send_file] ([int(data[len("download_format:"):])]) to [i], which
    passes its bound check and indexes [format_urls] at the URL of the
    format the button was made for. *)
Theorem format_button_selects_its_url
    (formats : list Format.t) (i : nat) (b : Telegram.InlineKeyboardButton) :
  let buttons := fst (Worker._create_format_buttons formats) in
  let format_urls := snd (Worker._create_format_buttons formats) in
  buttons !! i = Some b ->
  exists f,
    f ∈ formats
    /\ Telegram.button_text b = Worker.download f
    /\ PyStr.startswith "download_format:" (Telegram.callback_data b) = true
    /\ PyStr.int (PyStr.drop (String.length "download_format:")
                    (Telegram.callback_data b))
       = Some (Z.of_nat i)
    /\ Z.of_nat i < Z.of_nat (length format_urls)
    /\ Py.index format_urls (Z.of_nat i) = Some (Format.url f).
Proof.
  intros buttons format_urls Hb. subst buttons format_urls.
  destruct (create_format_buttons_loop_spec formats [] [] ∅)
    as (nb & nu & Heq & Hlen & Hnodup & Hfrom & Hall); try done.
  { intros k. simpl. split; [by intros ?%elem_of_empty|by intros ?%elem_of_nil]. }
  { apply NoDup_nil_2. }
  unfold Worker._create_format_buttons in *. rewrite Heq in *. simpl in *.
  destruct (Hfrom i b Hb) as (f & Hf & _ & Htext & Hurl & Hcb).
  exists f. rewrite Hcb. split_and!; try done.
  - apply prefix_append.
  - apply int_pretty_nat.
  - apply lookup_lt_Some in Hurl. lia.
  - by rewrite index_nat.
Qed.

Lemma format_button_selects_its_url_witness :
  exists f,
    f ∈ [{| Format.abr := 128; Format.ext := "mp3";
            Format.url := "https://cdn.example/a.mp3" |}]
    /\ Py.index
         (snd (Worker._create_format_buttons
                 [{| Format.abr := 128; Format.ext := "mp3";
                     Format.url := "https://cdn.example/a.mp3" |}]))
         0
       = Some (Format.url f).
Proof.
  destruct (format_button_selects_its_url
              [{| Format.abr := 128; Format.ext := "mp3";
                  Format.url := "https://cdn.example/a.mp3" |}]
              0%nat
              {| Telegram.button_text := Telegram.Lit "Download 128 kbps MP3";
                 Telegram.callback_data := "download_format:0" |}
              eq_refl)
    as (f & Hf & _ & _ & _ & _ & Hurl).
  exists f. split; [exact Hf|exact Hurl].
Defined.

(** ** Pages of the item list *)

Section Pages.
Import Py Telegram Worker Shape.

Lemma page_data_nonneg {A} (l : list A) (page : nat) :
  page_data l (Z.of_nat page) = take 15 (drop (15 * page) l).
Proof.
  unfold page_data, slice, clamp, ITEMS_PER_PAGE.
  rewrite !(proj2 (Z.ltb_ge _ 0)) by lia.
  destruct (decide (length l <= 15 * page)%nat) as [Hge|Hlt].
  - rewrite !Z.min_l by lia. rewrite Z.sub_diag.
    change (Z.to_nat 0) with 0%nat.
    by rewrite take_0, (drop_ge l (15 * page)), take_nil by lia.
  - rewrite (Z.min_r _ (Z.of_nat page * 15)) by lia.
    replace (Z.to_nat (Z.of_nat page * 15)) with (15 * page)%nat by lia.
    destruct (decide (length l <= 15 * page + 15)%nat) as [Hlast|Hmore].
    + rewrite Z.min_l by lia.
      rewrite !take_ge; [done| |]; rewrite length_drop; lia.
    + rewrite Z.min_r by lia. f_equal. lia.
Qed.

Lemma pages_concat {A} (l : list A) (k : nat) :
  concat (map (fun page => page_data l (Z.of_nat page)) (seq 0 k))
  = take (15 * k) l.
Proof.
  induction k as [|k IH]; [done|].
  rewrite seq_S, map_app, concat_app, IH. simpl.
  rewrite app_nil_r, page_data_nonneg, take_take_drop. f_equal. lia.
Qed.

End Pages.

(** X4.  The pages of [__show_many] cut the list into consecutive runs of
    at most fifteen items: the pages 0 to [k - 1], one after the other, are
    the first [15 * k] items, and the whole list once [15 * k] reaches its
    length.  The page before the first one, which a press of [prev] on page
    0 asks for, is empty. *)
Theorem pages_cover_the_list {A} (data_list : list A) (k : nat) :
  (forall page : nat, (length (Shape.page_data data_list (Z.of_nat page)) <= 15)%nat)
  /\ concat (map (fun page => Shape.page_data data_list (Z.of_nat page)) (seq 0 k))
     = take (15 * k) data_list
  /\ ((length data_list <= 15 * k)%nat ->
      concat (map (fun page => Shape.page_data data_list (Z.of_nat page)) (seq 0 k))
      = data_list)
  /\ Shape.page_data data_list (-1) = [].
Proof.
  split_and!.
  - intros page. rewrite page_data_nonneg, length_take. lia.
  - apply pages_concat.
  - intros Hk. rewrite pages_concat. by apply take_ge.
  - unfold Shape.page_data, Py.slice, Py.clamp, Worker.ITEMS_PER_PAGE. simpl.
    replace (Z.to_nat _) with 0%nat by lia. done.
Qed.

Lemma pages_cover_the_list_witness :
  concat (map (fun page => Shape.page_data [1; 2; 3] (Z.of_nat page)) (seq 0 1))
  = [1; 2; 3].
Proof.
  destruct (pages_cover_the_list [1; 2; 3] 1) as (_ & _ & Hall & _).
  apply Hall. simpl. lia.
Defined.

(** X5.  With the localization bound, [_create_navigation_buttons] for a
    page from 0 on returns, in this order, the Previous button exactly
    when the page is not the first, the Next button exactly when the next
    page has an item, and the Cancel button always; it makes no call. *)
Theorem navigation_buttons_follow_the_pages
    (data_list : list Info.t) (page : nat) (language : string)
    (s : Worker.state) :
  Worker.attrs s !! "loc" = Some (Worker.VLocalization language) ->
  Worker._create_navigation_buttons (Z.of_nat page)
    (Z.of_nat (length data_list)) s
  = Worker.Ret
      ((if decide (page = 0%nat) then []
        else [{| Telegram.button_text := Telegram.Loc language "menu_previous" [];
                 Telegram.callback_data := "prev" |}])
       ++ (if decide (Shape.page_data data_list (Z.of_nat page + 1) = []) then []
           else [{| Telegram.button_text := Telegram.Loc language "menu_next" [];
                    Telegram.callback_data := "next" |}])
       ++ [{| Telegram.button_text := Telegram.Loc language "menu_cancel" [];
              Telegram.callback_data := "cmd_cancel" |}])
      s.
Proof.
  intros Hloc.
  assert (forall key,
             Worker.loc_get key [] s = Worker.Ret (Telegram.Loc language key []) s)
    as Hget.
  { intros key. unfold Worker.loc_get, Worker.getattr, Worker.bind. by rewrite Hloc. }
  unfold Worker._create_navigation_buttons, Worker.ITEMS_PER_PAGE.
  assert ((Shape.page_data data_list (Z.of_nat page + 1) = [])
          <-> ~ (Z.of_nat page + 1) * 15 < Z.of_nat (length data_list)) as Hnext.
  { replace (Z.of_nat page + 1) with (Z.of_nat (S page)) by lia.
    rewrite page_data_nonneg. split.
    - intros H. apply take_nil_inv in H as [H|H]; [lia|].
      apply drop_nil_inv in H. lia.
    - intros H. rewrite drop_ge by lia. done. }
  assert ((0 <? Z.of_nat page) = (if decide (page = 0%nat) then false else true))
    as ->.
  { destruct (decide (page = 0%nat)) as [->|Hpage]; [done|].
    apply Z.ltb_lt. lia. }
  assert (((Z.of_nat page + 1) * 15 <? Z.of_nat (length data_list))
          = (if decide (Shape.page_data data_list (Z.of_nat page + 1) = [])
             then false else true)) as ->.
  { destruct (decide _) as [He|He].
    - apply Z.ltb_ge. apply Hnext in He. lia.
    - apply Z.ltb_lt.
      destruct (Z.lt_decidable ((Z.of_nat page + 1) * 15)
                  (Z.of_nat (length data_list))) as [H|H]; [done|].
      by apply Hnext in H. }
  destruct (decide (page = 0%nat)), (decide (Shape.page_data _ _ = []));
    unfold Worker.bind, Worker.ret; rewrite ?Hget; cbn iota beta;
    rewrite ?Hget; reflexivity.
Qed.

Lemma navigation_buttons_follow_the_pages_witness :
  Worker._create_navigation_buttons 0 0 (Examples.ready [])
  = Worker.Ret
      [{| Telegram.button_text := Telegram.Loc "en" "menu_cancel" [];
          Telegram.callback_data := "cmd_cancel" |}]
      (Examples.ready []).
Proof.
  exact (navigation_buttons_follow_the_pages [] 0 "en" (Examples.ready []) eq_refl).
Defined.

(** ** The best thumbnail, for every list *)

Section BestThumbnail.
Import Worker.
Variable requests_get : string -> option Requests.response.

Lemma best_thumbnail_loop_member best thumbnails b :
  _get_best_thumbnail_loop requests_get best thumbnails = Some b ->
  best = Some b
  \/ (b ∈ thumbnails /\ is_Some (Thumbnail.resolution b)).
Proof.
  revert best. induction thumbnails as [|t thumbnails IH]; intros best H.
  { by left. }
  cbn [_get_best_thumbnail_loop] in H. apply IH in H as [H|[H1 H2]].
  - destruct (Thumbnail.resolution t) as [r|] eqn:Hr; [|by left].
    destruct best as [b0|].
    + destruct (_ && _); [|by left].
      injection H as <-. right. split; [apply elem_of_cons; by left|by eexists].
    + injection H as <-. right. split; [apply elem_of_cons; by left|by eexists].
  - right. split; [by apply elem_of_cons; right|done].
Qed.

Lemma best_thumbnail_loop_none best thumbnails :
  _get_best_thumbnail_loop requests_get best thumbnails = None
  <-> best = None /\ Forall (fun t => Thumbnail.resolution t = None) thumbnails.
Proof.
  revert best. induction thumbnails as [|t thumbnails IH]; intros best.
  { simpl. split; [by intros ->|by intros [-> _]]. }
  cbn [_get_best_thumbnail_loop]. rewrite IH, Forall_cons. split.
  - intros [H1 H2]. destruct (Thumbnail.resolution t); [|done].
    destruct best; [|done]. by destruct (_ && _).
  - intros (-> & Ht & H). by rewrite Ht.
Qed.

Lemma best_thumbnail_loop_widest best0 thumbnails :
  Shape.passes requests_get best0 ->
  Forall (fun t => is_Some (Thumbnail.resolution t) -> Shape.passes requests_get t)
    thumbnails ->
  exists b,
    _get_best_thumbnail_loop requests_get (Some best0) thumbnails = Some b
    /\ Thumbnail.width best0 <= Thumbnail.width b
    /\ Forall (fun t => is_Some (Thumbnail.resolution t) ->
                        Thumbnail.width t <= Thumbnail.width b) thumbnails.
Proof.
  revert best0. induction thumbnails as [|t thumbnails IH]; intros best0 H0 Hall.
  { exists best0. split_and!; [done|lia|constructor]. }
  apply Forall_cons in Hall as [Ht Hall].
  cbn [_get_best_thumbnail_loop].
  destruct (Thumbnail.resolution t) as [r|] eqn:Hr.
  - destruct H0 as (u & Hu & Htruthy). rewrite Hu, Htruthy, andb_true_r.
    destruct (Thumbnail.width best0 <? Thumbnail.width t) eqn:Hw.
    + apply Z.ltb_lt in Hw.
      destruct (IH t (Ht ltac:(by eexists)) Hall) as (b & Hb & Hwb & Hrest).
      exists b. split_and!; [done|lia|]. apply Forall_cons. split; [done|done].
    + apply Z.ltb_ge in Hw.
      destruct (IH best0 ltac:(by exists u) Hall) as (b & Hb & Hwb & Hrest).
      exists b. split_and!; [done|done|]. apply Forall_cons. split; [|done].
      intros _. lia.
  - destruct (IH best0 H0 Hall) as (b & Hb & Hwb & Hrest).
    exists b. split_and!; [done|done|]. apply Forall_cons. split; [|done].
    intros [? ?]. congruence.
Qed.

End BestThumbnail.

(** X6.  [_get_best_thumbnail] returns nothing exactly when no thumbnail
    carries a resolution; otherwise it returns one of the thumbnails that
    carry one, whatever [check_thumbnail] answers. *)
Theorem best_thumbnail_is_one_with_a_resolution
    (requests_get : string -> option Requests.response)
    (thumbnails : list Thumbnail.t) :
  (Worker._get_best_thumbnail requests_get thumbnails = None
   <-> Forall (fun t => Thumbnail.resolution t = None) thumbnails)
  /\ (forall b,
        Worker._get_best_thumbnail requests_get thumbnails = Some b ->
        b ∈ thumbnails /\ is_Some (Thumbnail.resolution b)).
Proof.
  split.
  - unfold Worker._get_best_thumbnail. rewrite best_thumbnail_loop_none. tauto.
  - intros b Hb. unfold Worker._get_best_thumbnail in Hb.
    by apply best_thumbnail_loop_member in Hb as [?|?].
Qed.

(** X7.  When every thumbnail that carries a resolution passes
    [check_thumbnail], [_get_best_thumbnail] returns one of them that no
    other is wider than. *)
Theorem best_thumbnail_is_widest_when_all_pass
    (requests_get : string -> option Requests.response)
    (thumbnails : list Thumbnail.t) :
  Forall (fun t => is_Some (Thumbnail.resolution t) -> Shape.passes requests_get t)
    thumbnails ->
  Exists (fun t => is_Some (Thumbnail.resolution t)) thumbnails ->
  exists b,
    Worker._get_best_thumbnail requests_get thumbnails = Some b
    /\ b ∈ thumbnails
    /\ Shape.passes requests_get b
    /\ Forall (fun t => is_Some (Thumbnail.resolution t) ->
                        Thumbnail.width t <= Thumbnail.width b) thumbnails.
Proof.
  intros Hall Hex.
  assert (exists b,
             Worker._get_best_thumbnail requests_get thumbnails = Some b
             /\ Forall (fun t => is_Some (Thumbnail.resolution t) ->
                                 Thumbnail.width t <= Thumbnail.width b) thumbnails)
    as (b & Hb & Hwidest).
  { unfold Worker._get_best_thumbnail.
    induction thumbnails as [|t thumbnails IH]; [by apply Exists_nil in Hex|].
    apply Forall_cons in Hall as [Ht Hall].
    cbn [Worker._get_best_thumbnail_loop].
    destruct (Thumbnail.resolution t) as [r|] eqn:Hr.
    - destruct (best_thumbnail_loop_widest requests_get t thumbnails
                  (Ht ltac:(by eexists)) Hall) as (b & Hb & Hw & Hrest).
      exists b. split; [done|]. apply Forall_cons. by split.
    - apply Exists_cons in Hex as [[? ?]|Hex]; [congruence|].
      destruct (IH Hall Hex) as (b & Hb & Hrest).
      exists b. split; [done|]. apply Forall_cons. split; [|done].
      intros [? ?]. congruence. }
  exists b. split; [done|].
  unfold Worker._get_best_thumbnail in Hb.
  apply best_thumbnail_loop_member in Hb as [?|[Hin Hres]]; [done|].
  split; [done|]. split; [|done].
  rewrite Forall_forall in Hall. by apply Hall.
Qed.

Lemma best_thumbnail_is_widest_when_all_pass_witness :
  exists b,
    Worker._get_best_thumbnail Examples.web [Examples.large] = Some b
    /\ b ∈ [Examples.large].
Proof.
  destruct (best_thumbnail_is_widest_when_all_pass Examples.web [Examples.large])
    as (b & Hb & Hin & _).
  - apply Forall_cons. split; [|constructor].
    intros _. exists "https://i.example/large.jpg". split; reflexivity.
  - apply Exists_cons. left. by eexists.
  - exists b. split; [exact Hb|exact Hin].
Defined.

(** ** What a conversation leaves as it was *)

Section ConversationFrame.
Import Telegram Worker.
Variable chat : Z.
Variable render : string -> string -> string.
Variable requests_get : string -> option Requests.response.
Variable extract_info : string -> option Info.t.

Lemma continues_refl s : Shape.continues s s.
Proof. split_and!; [done|done|lia]. Qed.

Lemma continues_trans s1 s2 s3 :
  Shape.continues s1 s2 -> Shape.continues s2 s3 -> Shape.continues s1 s3.
Proof.
  intros (H1 & H2 & H3) (H4 & H5 & H6). split_and!; [congruence| |lia].
  by etrans.
Qed.

Lemma steady_ret {A} (a : A) : Shape.steady (ret a).
Proof.
  intros s. simpl. split; [apply continues_refl|]. exists [].
  split; [by rewrite app_nil_r|apply not_elem_of_nil].
Qed.

Lemma steady_raise {A} e : Shape.steady (@raise A e).
Proof.
  intros s. simpl. split; [apply continues_refl|]. exists [].
  split; [by rewrite app_nil_r|apply not_elem_of_nil].
Qed.

Lemma steady_out_of_fuel {A} : Shape.steady (@out_of_fuel A).
Proof. by intros s. Qed.

Lemma steady_bind {A B} (m : M A) (k : A -> M B) :
  Shape.steady m -> (forall a, Shape.steady (k a)) -> Shape.steady (bind m k).
Proof.
  intros Hm Hk s. unfold bind. specialize (Hm s).
  destruct (m s) as [a s'| | |]; try done.
  destruct Hm as (Hc & l & Hl & Hno).
  specialize (Hk a s').
  destruct (k a s') as [b s''|e s''|s''|]; [| | |done].
  - destruct Hk as (Hc' & l' & Hl' & Hno').
    split; [by eapply continues_trans|]. exists (l ++ l').
    split; [by rewrite Hl', Hl, app_assoc|].
    rewrite elem_of_app. tauto.
  - destruct Hk as (Hc' & l' & Hl' & Hno').
    split; [by eapply continues_trans|]. exists (l ++ l').
    split; [by rewrite Hl', Hl, app_assoc|].
    rewrite elem_of_app. tauto.
  - destruct Hk as (Hc' & l' & Hl' & Hno').
    split; [by eapply continues_trans|]. exists (l ++ l').
    split; [by rewrite Hl', Hl, !app_assoc|].
    rewrite elem_of_app. tauto.
Qed.

Lemma steady_try_except {A} (m : M A) handler :
  Shape.steady m -> (forall e, Shape.steady (handler e)) ->
  Shape.steady (try_except m handler).
Proof.
  intros Hm Hh s. unfold try_except. specialize (Hm s).
  destruct (m s) as [|e s'| |]; try done.
  destruct Hm as (Hc & l & Hl & Hno).
  specialize (Hh e s').
  destruct (handler e s') as [b s''|e' s''|s''|]; [| | |done].
  - destruct Hh as (Hc' & l' & Hl' & Hno').
    split; [by eapply continues_trans|]. exists (l ++ l').
    split; [by rewrite Hl', Hl, app_assoc|].
    rewrite elem_of_app. tauto.
  - destruct Hh as (Hc' & l' & Hl' & Hno').
    split; [by eapply continues_trans|]. exists (l ++ l').
    split; [by rewrite Hl', Hl, app_assoc|].
    rewrite elem_of_app. tauto.
  - destruct Hh as (Hc' & l' & Hl' & Hno').
    split; [by eapply continues_trans|]. exists (l ++ l').
    split; [by rewrite Hl', Hl, !app_assoc|].
    rewrite elem_of_app. tauto.
Qed.

Lemma steady_call a : a <> SessionClose -> Shape.steady (call a).
Proof.
  intros Ha s. simpl. split; [split_and!; [done|done|simpl; lia]|]. exists [a].
  split; [done|]. intros H%list_elem_of_singleton; congruence.
Qed.

Lemma steady_close_resources : Shape.steady _close_resources.
Proof.
  intros s. simpl. split; [split_and!; [done|done|simpl; lia]|]. exists [].
  split; [done|apply not_elem_of_nil].
Qed.

Lemma steady_send_message c t m r : Shape.steady (send_message c t m r).
Proof.
  intros s. simpl. split; [split_and!; [done|done|simpl; lia]|].
  eexists [_]. split; [done|]. intros H%list_elem_of_singleton; congruence.
Qed.

Lemma steady_getattr name : Shape.steady (getattr name).
Proof.
  intros s. unfold getattr.
  destruct (attrs s !! name) as [v|];
    [apply (steady_ret v s)|apply (steady_raise (A:=value) (Py.AttributeError name) s)].
Qed.

Lemma steady_getitem {A} key (field : option A) : Shape.steady (getitem key field).
Proof. destruct field; [apply steady_ret|apply steady_raise]. Qed.

Lemma steady_queue_get : Shape.steady queue_get.
Proof.
  intros s. unfold queue_get. destruct (queue s) as [|d q] eqn:Hq.
  - apply (steady_ret (@None item) s).
  - split.
    + split_and!; [done| |simpl; lia]. simpl. rewrite Hq. by apply suffix_cons_r.
    + exists []. split; [by rewrite app_nil_r|apply not_elem_of_nil].
Qed.

(** One step of the proof that a function is steady. *)
Ltac steady_step :=
  first
    [ apply steady_ret | apply steady_raise | apply steady_close_resources
    | apply steady_out_of_fuel | (apply steady_call; discriminate)
    | apply steady_send_message
    | apply steady_getattr | apply steady_getitem | apply steady_queue_get
    | assumption
    | apply steady_bind; [|intros ?]
    | apply steady_try_except; [|intros ?]
    | match goal with
      | H : forall _, Shape.steady _ |- _ => apply H
      | H : forall _ _, Shape.steady _ |- _ => apply H
      | H : forall _ _ _, Shape.steady _ |- _ => apply H
      | H : forall _ _ _ _, Shape.steady _ |- _ => apply H
      | |- Shape.steady (match ?x with _ => _ end) => destruct x
      | |- Shape.steady (if ?x then _ else _) => destruct x
      end ].

Lemma steady_loc_get key kwargs : Shape.steady (loc_get key kwargs).
Proof. unfold loc_get. repeat steady_step. Qed.

Lemma steady_loc_str key : Shape.steady (loc_str render key).
Proof. unfold loc_str. repeat steady_step. Qed.

Lemma steady_graceful_stop reason : Shape.steady (_graceful_stop chat reason).
Proof.
  unfold _graceful_stop, _notify_session_expiration.
  repeat first [steady_step | apply steady_loc_get].
Qed.

Lemma steady_receive_next_update : Shape.steady (__receive_next_update chat).
Proof.
  unfold __receive_next_update.
  repeat first [steady_step | apply steady_graceful_stop].
Qed.

Lemma steady_wait_for_specific_message items cancellable :
  Shape.steady (_wait_for_specific_message chat items cancellable).
Proof.
  assert (forall fuel,
             Shape.steady (_wait_for_specific_message_loop chat fuel items cancellable))
    as Hloop.
  { induction fuel as [|fuel IH]; cbn [_wait_for_specific_message_loop];
      repeat first [steady_step | apply steady_receive_next_update]. }
  intros s. apply Hloop.
Qed.

Lemma steady_wait_for_regex regex cancellable :
  Shape.steady (__wait_for_regex chat regex cancellable).
Proof.
  assert (forall fuel, Shape.steady (__wait_for_regex_loop chat fuel regex cancellable))
    as Hloop.
  { induction fuel as [|fuel IH]; cbn [__wait_for_regex_loop];
      repeat first [steady_step | apply steady_receive_next_update]. }
  intros s. apply Hloop.
Qed.

Lemma steady_wait_for_inlinekeyboard_callback cancellable :
  Shape.steady (__wait_for_inlinekeyboard_callback chat cancellable).
Proof.
  assert (forall fuel,
             Shape.steady (__wait_for_inlinekeyboard_callback_loop chat fuel cancellable))
    as Hloop.
  { induction fuel as [|fuel IH]; cbn [__wait_for_inlinekeyboard_callback_loop];
      repeat first [steady_step | apply steady_receive_next_update]. }
  intros s. apply Hloop.
Qed.

Lemma steady_create_buttons_from page_data :
  forall i, Shape.steady (_create_buttons_from i page_data).
Proof.
  induction page_data as [|d page_data IH]; intros i;
    cbn [_create_buttons_from]; repeat steady_step.
Qed.

Lemma steady_collect_tracks all_entries collect rest :
  forall tracks,
    Shape.steady (collect_tracks chat extract_info all_entries collect tracks rest).
Proof.
  induction rest as [|da rest IH]; intros tracks; cbn [collect_tracks];
    repeat first [steady_step | apply steady_loc_get].
Qed.

Ltac steady_known :=
  first
    [ apply steady_loc_get | apply steady_loc_str | apply steady_graceful_stop
    | apply steady_receive_next_update | apply steady_wait_for_specific_message
    | apply steady_wait_for_regex | apply steady_wait_for_inlinekeyboard_callback
    | apply steady_create_buttons_from | apply steady_collect_tracks ].

Ltac steady_all := repeat first [steady_step | steady_known].

Lemma steady_send_audio_file url headers title uploader thumb_url :
  Shape.steady (_send_audio_file chat requests_get url headers title uploader thumb_url).
Proof. unfold _send_audio_file. steady_all. Qed.

Lemma steady_handle_invalid_link i msg_link :
  Shape.steady (_handle_invalid_link chat i msg_link).
Proof. unfold _handle_invalid_link. steady_all. Qed.

Lemma steady_conversation n :
  Shape.steady (__user_menu chat requests_get extract_info n)
  /\ (forall m, Shape.steady (__user_menu_loop chat requests_get extract_info n m))
  /\ (forall q m,
        Shape.steady (__handle_menu_selection chat requests_get extract_info n q m))
  /\ (forall name, Shape.steady (_notify_updating chat requests_get extract_info n name))
  /\ (forall i m, Shape.steady (_get_link chat requests_get extract_info n i m))
  /\ Shape.steady (_soundcloud chat requests_get extract_info n)
  /\ (forall l m, Shape.steady (_handle_extraction chat requests_get extract_info n l m))
  /\ (forall d m, Shape.steady (_handle_playlist chat requests_get extract_info n d m))
  /\ (forall d m, Shape.steady (_handle_url chat requests_get extract_info n d m))
  /\ (forall d m l, Shape.steady (__show_one chat requests_get extract_info n d m l))
  /\ (forall l p m, Shape.steady (__show_many chat requests_get extract_info n l p m))
  /\ (forall q d u m,
        Shape.steady (__send_file chat requests_get extract_info n q d u m)).
Proof.
  induction n as [|n (IH1 & IH2 & IH3 & IH4 & IH5 & IH6 & IH7 & IH8 & IH9 & IH10
                      & IH11 & IH12)].
  { split_and!; intros; apply steady_out_of_fuel. }
  split_and!; intros.
  - cbn [__user_menu]. unfold __create_keyboard, __send_user_menu_message. steady_all.
  - cbn [__user_menu_loop]. steady_all.
  - cbn [__handle_menu_selection]. steady_all.
  - cbn [_notify_updating]. steady_all.
  - cbn [_get_link]. unfold _clean_up_messages, _handle_invalid_link. steady_all.
  - cbn [_soundcloud]. steady_all.
  - cbn [_handle_extraction]. steady_all.
  - cbn [_handle_playlist]. steady_all.
  - cbn [_handle_url]. steady_all.
  - cbn [__show_one]. steady_all.
  - cbn [__show_many]. unfold _create_buttons, _create_navigation_buttons. steady_all.
  - cbn [__send_file]. steady_all; apply steady_send_audio_file.
Qed.

Lemma steady_admin_menu n :
  Shape.steady (_admin_menu chat render requests_get extract_info n).
Proof.
  induction n as [|n IH]; [apply steady_out_of_fuel|].
  cbn [_admin_menu].
  unfold _send_admin_menu, _wait_for_user_selection, _switch_to_user_menu.
  steady_all. apply steady_conversation.
Qed.

Lemma never_returns_bind {A B} (m : M A) (k : A -> M B) :
  (forall a, Shape.never_returns (k a)) -> Shape.never_returns (bind m k).
Proof.
  intros Hk s. unfold bind. destruct (m s) as [a s'| | |]; try done. apply Hk.
Qed.

Lemma user_menu_never_returns n :
  Shape.never_returns (__user_menu chat requests_get extract_info n)
  /\ forall m,
       Shape.never_returns (__user_menu_loop chat requests_get extract_info n m).
Proof.
  assert (forall n m,
             Shape.never_returns (__user_menu_loop chat requests_get extract_info n m))
    as Hloop.
  { clear n. induction n as [|n IH]; intros m; [by intros s|].
    cbn [__user_menu_loop]. apply never_returns_bind. intros [|q]; [by intros s|].
    apply never_returns_bind. intros _. apply IH. }
  split; [|apply Hloop].
  destruct n as [|n]; [by intros s|].
  cbn [__user_menu]. do 2 (apply never_returns_bind; intros ?). apply Hloop.
Qed.

Lemma admin_menu_never_returns n :
  Shape.never_returns (_admin_menu chat render requests_get extract_info n).
Proof.
  induction n as [|n IH]; [by intros s|].
  cbn [_admin_menu]. do 4 (apply never_returns_bind; intros ?). apply IH.
Qed.

End ConversationFrame.

Section RunFacts.
Import Telegram Worker.
Variable chat : Z.
Variable render : string -> string -> string.
Variable requests_get : string -> option Requests.response.
Variable extract_info : string -> option Info.t.
Variable telegram_user : Db.TelegramUser.
Variable cfg : config.

Lemma bind_ret {A B} (m : M A) (k : A -> M B) s a s' :
  m s = Ret a s' -> bind m k s = k a s'.
Proof. unfold bind. by intros ->. Qed.

Lemma loc_get_bound key kwargs language s :
  attrs s !! "loc" = Some (VLocalization language) ->
  loc_get key kwargs s = Ret (Loc language key kwargs) s.
Proof. intros H. unfold loc_get, bind, getattr. by rewrite H. Qed.

Lemma notify_admins_spec number new admins language :
  forall s,
    attrs s !! "loc" = Some (VLocalization language) ->
    notify_admins number new admins s
    = Ret tt
        {| attrs := attrs s; queue := queue s;
           out := out s
                  ++ map (fun a =>
                            SendMessage (Db.admin_user_id a)
                              (Loc language "new_user_in"
                                 [("number", pretty number); ("new", new)])
                              NoMarkup None) admins;
           next_message_id := next_message_id s + Z.of_nat (length admins);
           db := db s |}.
Proof.
  induction admins as [|a admins IH]; intros s Hloc.
  { simpl. unfold ret. destruct s; simpl. by rewrite app_nil_r, Z.add_0_r. }
  cbn [notify_admins].
  erewrite bind_ret by (by apply loc_get_bound).
  erewrite bind_ret by reflexivity.
  rewrite IH by done. simpl.
  f_equal. f_equal; [by rewrite <- app_assoc|lia].
Qed.

(** [run] up to the conversation: the state the conversation starts
    from. *)
Lemma run_registers n s :
  exists s1,
    run chat render requests_get extract_info telegram_user cfg n s
    = Shape.conversation chat render requests_get extract_info n s1
    /\ queue s1 = queue s
    /\ is_Some (attrs s1 !! "admin")
    /\ match find (fun u => Db.user_id u =? chat) (Db.users (db s)) with
       | Some u =>
           attrs s1 !! "user" = Some (VUser u)
           /\ attrs s1 !! "loc" = Some (VLocalization (Db.language u))
           /\ db s1 = db s /\ out s1 = out s
       | None =>
           let user := Db.new_User telegram_user (default_language cfg) in
           let owner :=
             {| Db.admin_user_id := Db.user_id user; Db.is_owner := true |} in
           let admins :=
             match Db.admins (db s) with
             | [] => [owner]
             | _ => Db.admins (db s)
             end in
           attrs s1 !! "user" = Some (VUser user)
           /\ attrs s1 !! "loc" = Some (VLocalization (Db.language user))
           /\ db s1 = {| Db.users := Db.users (db s) ++ [user];
                         Db.admins := admins |}
           /\ out s1
              = out s
                ++ map (Shape.new_user_notice (Db.language user)
                          (S (length (Db.users (db s)))) user) admins
       end.
Proof.
  unfold run.
  do 4 (erewrite bind_ret by reflexivity).
  cbn [db attrs queue out next_message_id].
  destruct (find _ (Db.users (db s))) as [u|] eqn:Hu.
  - erewrite bind_ret by reflexivity.
    unfold _create_localization.
    erewrite (bind_ret (bind _ _)); cycle 1.
    { erewrite bind_ret; cycle 1.
      { unfold getattr. cbn [attrs].
        rewrite lookup_insert_ne, lookup_insert_eq by done. reflexivity. }
      reflexivity. }
    erewrite bind_ret by reflexivity.
    eexists. split; [reflexivity|]. cbn [attrs queue db out].
    split; [done|]. split.
    { rewrite lookup_insert_ne, lookup_insert_eq by done. by eexists. }
    split_and!; [|by rewrite lookup_insert_eq|done|done].
    by rewrite !lookup_insert_ne, lookup_insert_eq by done.
  - destruct (Db.admins (db s)) as [|a0 admins0] eqn:Hadmins.
    + erewrite (bind_ret (bind _ _)); cycle 1.
      { erewrite bind_ret by reflexivity.
        cbn [head]. unfold query_first_admin. cbn [db]. rewrite Hadmins. cbn [head].
        do 2 (erewrite bind_ret by reflexivity).
        erewrite (bind_ret (bind _ _)); cycle 1.
        { erewrite bind_ret by reflexivity. reflexivity. }
        reflexivity. }
      unfold _create_localization.
      erewrite (bind_ret (bind _ _)); cycle 1.
      { erewrite bind_ret; cycle 1.
        { unfold getattr. cbn [attrs].
          rewrite lookup_insert_ne, lookup_insert_eq by done. reflexivity. }
        reflexivity. }
      erewrite (bind_ret (bind _ _)); cycle 1.
      { erewrite bind_ret by reflexivity.
        apply notify_admins_spec with
          (language := Db.language (Db.new_User telegram_user (default_language cfg))).
        cbn [attrs]. by rewrite lookup_insert_eq. }
      eexists. split; [reflexivity|]. cbn [attrs queue db out].
      split; [done|]. split.
      { rewrite lookup_insert_ne, lookup_insert_eq by done. by eexists. }
      split_and!.
      * by rewrite !lookup_insert_ne, lookup_insert_eq by done.
      * by rewrite lookup_insert_eq.
      * cbn. by rewrite Hadmins.
      * cbn. rewrite Hadmins. simpl. by rewrite length_app, Nat.add_1_r.
    + erewrite (bind_ret (bind _ _)); cycle 1.
      { erewrite bind_ret by reflexivity.
        unfold query_first_admin. cbn [db]. rewrite Hadmins. cbn [head].
        do 2 (erewrite bind_ret by reflexivity).
        erewrite (bind_ret (ret tt)) by reflexivity.
        reflexivity. }
      unfold _create_localization.
      erewrite (bind_ret (bind _ _)); cycle 1.
      { erewrite bind_ret; cycle 1.
        { unfold getattr. cbn [attrs].
          rewrite lookup_insert_eq by done. reflexivity. }
        reflexivity. }
      erewrite (bind_ret (bind _ _)); cycle 1.
      { erewrite bind_ret by reflexivity.
        apply notify_admins_spec with
          (language := Db.language (Db.new_User telegram_user (default_language cfg))).
        cbn [attrs]. by rewrite lookup_insert_eq. }
      eexists. split; [reflexivity|]. cbn [attrs queue db out].
      split; [done|]. split.
      { rewrite !lookup_insert_ne, lookup_insert_eq by done. by eexists. }
      split_and!.
      * by rewrite !lookup_insert_ne, lookup_insert_eq by done.
      * by rewrite lookup_insert_eq.
      * cbn. by rewrite Hadmins.
      * cbn. rewrite Hadmins. simpl. by rewrite length_app, Nat.add_1_r.
Qed.

(** The conversation under the handler of [run]: it leaves the thread
    with the session closed, or returns after the report of a fatal
    exception. *)
Lemma conversation_outcome n s language :
  attrs s !! "loc" = Some (VLocalization language) ->
  is_Some (attrs s !! "admin") ->
  match Shape.conversation chat render requests_get extract_info n s with
  | Raise _ _ => False
  | Ret _ s' =>
      attrs s' = attrs s /\ Shape.continues s s'
      /\ exists l, out s' = out s ++ l ++ [Shape.fatal_report chat language]
                   /\ SessionClose ∉ l
  | Exit s' =>
      attrs s' = attrs s /\ Shape.continues s s'
      /\ exists l, out s' = out s ++ l ++ [SessionClose] /\ SessionClose ∉ l
  | OutOfFuel => True
  end.
Proof.
  intros Hloc [admin Hadmin]. unfold Shape.conversation.
  match goal with |- context [try_except ?b _ s] => set (body := b) end.
  assert (Shape.steady body) as Hsteady.
  { apply steady_bind; [apply steady_getattr|]. intros [].
    all: first [apply steady_conversation | apply steady_admin_menu]. }
  assert (keeps_attrs body) as Hkeeps.
  { apply keeps_bind; [apply keeps_getattr|]. intros [].
    all: first [apply keeps_conversation | apply keeps_admin_menu]. }
  assert (Shape.never_returns body) as Hnever.
  { apply never_returns_bind. intros [].
    all: first [apply user_menu_never_returns | apply admin_menu_never_returns]. }
  unfold try_except at 1.
  specialize (Hsteady s). specialize (Hkeeps s). specialize (Hnever s).
  destruct (body s) as [a s'|e s'|s'|]; [done| | |done].
  - destruct Hsteady as (Hc & l & Hl & Hno).
    unfold try_except.
    erewrite bind_ret by (apply loc_get_bound; by rewrite Hkeeps).
    erewrite bind_ret by reflexivity. cbn.
    split_and!; [done| |].
    + destruct Hc as (? & ? & ?). split_and!; [done|done|simpl; lia].
    + exists l. split; [by rewrite Hl, <- app_assoc|done].
  - destruct Hsteady as (Hc & l & Hl & Hno). split_and!; [done|done|].
    by exists l.
Qed.

End RunFacts.

(** X8.  Neither menu touches the database or retracts a call: however
    [__user_menu] or [_admin_menu] ends, the database is as it was, what is
    left of the queue is a tail of what was there, and the calls made before
    are still the first of the log.  The session is closed exactly when the
    thread is left by [sys.exit], as the last call; and neither menu
    returns. *)
Theorem menus_keep_the_database_and_never_return
    (chat : Z) (render : string -> string -> string)
    (requests_get : string -> option Requests.response)
    (extract_info : string -> option Info.t) (n : nat) :
  Shape.steady (Worker.__user_menu chat requests_get extract_info n)
  /\ Shape.never_returns (Worker.__user_menu chat requests_get extract_info n)
  /\ Shape.steady (Worker._admin_menu chat render requests_get extract_info n)
  /\ Shape.never_returns
       (Worker._admin_menu chat render requests_get extract_info n).
Proof.
  split_and!.
  - apply steady_conversation.
  - apply user_menu_never_returns.
  - apply steady_admin_menu.
  - apply admin_menu_never_returns.
Qed.

(** X9.  [run] lets no exception of the conversation out.  It leaves the
    thread by [sys.exit] with the session closed as the last call, or it
    returns after reporting [fatal_conversation_exception] to the chat, in
    the language of the user, as the last call, and then the session was
    never closed. *)
Theorem run_exits_or_reports
    (chat : Z) (render : string -> string -> string)
    (requests_get : string -> option Requests.response)
    (extract_info : string -> option Info.t)
    (telegram_user : Db.TelegramUser) (cfg : Worker.config)
    (n : nat) (s : Worker.state) :
  match Worker.run chat render requests_get extract_info telegram_user cfg n s with
  | Worker.Raise _ _ => False
  | Worker.Exit s' =>
      exists l, Worker.out s' = Worker.out s ++ l ++ [Telegram.SessionClose]
                /\ Telegram.SessionClose ∉ l
  | Worker.Ret _ s' =>
      exists l language,
        Worker.attrs s' !! "loc" = Some (Worker.VLocalization language)
        /\ Worker.out s' = Worker.out s ++ l ++ [Shape.fatal_report chat language]
        /\ Telegram.SessionClose ∉ l
  | Worker.OutOfFuel => True
  end.
Proof.
  destruct (run_registers chat render requests_get extract_info telegram_user cfg n s)
    as (s1 & -> & Hq & Hadmin & Hs1).
  assert (exists language l0,
             Worker.attrs s1 !! "loc" = Some (Worker.VLocalization language)
             /\ Worker.out s1 = Worker.out s ++ l0
             /\ Telegram.SessionClose ∉ l0) as (language & l0 & Hloc & Hout & Hno0).
  { destruct (find _ _) as [u|].
    - destruct Hs1 as (_ & Hloc & _ & Hout). exists (Db.language u), [].
      split_and!; [done|by rewrite app_nil_r|apply not_elem_of_nil].
    - destruct Hs1 as (_ & Hloc & _ & Hout). eexists _, _.
      split_and!; [exact Hloc|exact Hout|].
      intros (a & Ha & _)%list_elem_of_fmap. discriminate Ha. }
  pose proof (conversation_outcome chat render requests_get extract_info n s1
                language Hloc Hadmin) as H.
  destruct (Shape.conversation _ _ _ _ _ _) as [a s'|e s'|s'|]; [| | |done].
  - destruct H as (Hattrs & _ & l & Hl & Hno). exists (l0 ++ l), language.
    split_and!; [by rewrite Hattrs|by rewrite Hl, Hout, <- !app_assoc|].
    rewrite elem_of_app. tauto.
  - done.
  - destruct H as (Hattrs & _ & l & Hl & Hno). exists (l0 ++ l).
    split; [by rewrite Hl, Hout, <- !app_assoc|].
    rewrite elem_of_app. tauto.
Qed.

(** X10.  What [run] has registered when it ends.  For a chat whose user
    is in the table, the database is as it was and [user] is that record.
    For any other, exactly one record is added, made from the Telegram user
    and the default language; it is also made the owner when the table of
    admins was empty; and the first calls of the run notify every admin, the
    new owner included, with the new number of users and the identifiable
    string of the user. *)
Theorem run_registers_a_new_user_once
    (chat : Z) (render : string -> string -> string)
    (requests_get : string -> option Requests.response)
    (extract_info : string -> option Info.t)
    (telegram_user : Db.TelegramUser) (cfg : Worker.config)
    (n : nat) (s : Worker.state) :
  match Worker.run chat render requests_get extract_info telegram_user cfg n s with
  | Worker.Ret _ s' | Worker.Exit s' | Worker.Raise _ s' =>
      match find (fun u => Db.user_id u =? chat) (Db.users (Worker.db s)) with
      | Some u =>
          Worker.db s' = Worker.db s
          /\ Worker.attrs s' !! "user" = Some (Worker.VUser u)
          /\ Worker.attrs s' !! "loc" = Some (Worker.VLocalization (Db.language u))
      | None =>
          let user := Db.new_User telegram_user (Worker.default_language cfg) in
          let owner :=
            {| Db.admin_user_id := Db.user_id user; Db.is_owner := true |} in
          let admins :=
            match Db.admins (Worker.db s) with
            | [] => [owner]
            | _ => Db.admins (Worker.db s)
            end in
          Worker.db s'
          = {| Db.users := Db.users (Worker.db s) ++ [user]; Db.admins := admins |}
          /\ Worker.attrs s' !! "user" = Some (Worker.VUser user)
          /\ Worker.attrs s' !! "loc"
             = Some (Worker.VLocalization (Db.language user))
          /\ exists l,
               Worker.out s'
               = Worker.out s
                 ++ map (Shape.new_user_notice (Db.language user)
                           (S (length (Db.users (Worker.db s)))) user) admins
                 ++ l
      end
  | Worker.OutOfFuel => True
  end.
Proof.
  destruct (run_registers chat render requests_get extract_info telegram_user cfg n s)
    as (s1 & -> & Hq & Hadmin & Hs1).
  assert (exists language,
             Worker.attrs s1 !! "loc" = Some (Worker.VLocalization language))
    as (language & Hloc).
  { destruct (find _ _); destruct Hs1 as (_ & Hloc & _); by eexists. }
  pose proof (conversation_outcome chat render requests_get extract_info n s1
                language Hloc Hadmin) as H.
  assert (forall s',
             Worker.attrs s' = Worker.attrs s1 -> Worker.db s' = Worker.db s1 ->
             (exists l, Worker.out s' = Worker.out s1 ++ l) ->
             match find (fun u => Db.user_id u =? chat) (Db.users (Worker.db s)) with
             | Some u =>
                 Worker.db s' = Worker.db s
                 /\ Worker.attrs s' !! "user" = Some (Worker.VUser u)
                 /\ Worker.attrs s' !! "loc"
                    = Some (Worker.VLocalization (Db.language u))
             | None =>
                 let user := Db.new_User telegram_user (Worker.default_language cfg) in
                 let owner :=
                   {| Db.admin_user_id := Db.user_id user; Db.is_owner := true |} in
                 let admins :=
                   match Db.admins (Worker.db s) with
                   | [] => [owner]
                   | _ => Db.admins (Worker.db s)
                   end in
                 Worker.db s'
                 = {| Db.users := Db.users (Worker.db s) ++ [user];
                      Db.admins := admins |}
                 /\ Worker.attrs s' !! "user" = Some (Worker.VUser user)
                 /\ Worker.attrs s' !! "loc"
                    = Some (Worker.VLocalization (Db.language user))
                 /\ exists l,
                      Worker.out s'
                      = Worker.out s
                        ++ map (Shape.new_user_notice (Db.language user)
                                  (S (length (Db.users (Worker.db s)))) user) admins
                        ++ l
             end) as Hend.
  { intros s' Hattrs Hdb [l Hl]. destruct (find _ _) as [u|].
    - destruct Hs1 as (Huser & Hloc' & Hdb1 & _).
      split_and!; [congruence|by rewrite Hattrs|by rewrite Hattrs].
    - destruct Hs1 as (Huser & Hloc' & Hdb1 & Hout1).
      split_and!; [congruence|by rewrite Hattrs|by rewrite Hattrs|].
      exists l. by rewrite Hl, Hout1, <- app_assoc. }
  destruct (Shape.conversation _ _ _ _ _ _) as [a s'|e s'|s'|]; [|done| |done].
  - destruct H as (Hattrs & (Hdb & _) & l & Hl & _). apply Hend; [done|done|].
    by eexists.
  - destruct H as (Hattrs & (Hdb & _) & l & Hl & _). apply Hend; [done|done|].
    by eexists.
Qed.

(** ** Every conversation ends *)

Section ConversationEnds.
Import Telegram Worker.
Variable chat : Z.
Variable render : string -> string -> string.
Variable requests_get : string -> option Requests.response.
Variable extract_info : string -> option Info.t.

Lemma within_weaken {A} L (m : M A) L1 L2 :
  Shape.within L m L1 -> (L1 <= L2)%nat -> Shape.within L m L2.
Proof.
  intros Hm Hle s Hs. specialize (Hm s Hs). destruct (m s); try done. lia.
Qed.

Lemma within_ret {A} (a : A) L L2 : (L <= L2)%nat -> Shape.within L (ret a) L2.
Proof. intros Hle s Hs. simpl. lia. Qed.

Lemma within_raise {A} e L L2 : Shape.within L (@raise A e) L2.
Proof. by intros s Hs. Qed.

Lemma within_close_resources L L2 : Shape.within L _close_resources L2.
Proof. by intros s Hs. Qed.

Lemma within_bind {A B} (m : M A) (k : A -> M B) L L2 :
  Shape.within L m L -> (forall a, Shape.within L (k a) L2) ->
  Shape.within L (bind m k) L2.
Proof.
  intros Hm Hk s Hs. unfold bind. specialize (Hm s Hs).
  destruct (m s) as [a s'| | |]; try done.
  specialize (Hk a s' Hm). by destruct (k a s').
Qed.

Lemma within_bind_consumes {A B} (m : M A) (k : A -> M B) L L2 :
  Shape.consumes m ->
  (forall L', L = S L' -> forall a, Shape.within L' (k a) L2) ->
  Shape.within L (bind m k) L2.
Proof.
  intros Hm Hk s Hs. unfold bind. specialize (Hm s).
  destruct (m s) as [a s'|e s'| |]; [|lia|done|done].
  destruct L as [|L']; [lia|].
  assert (length (queue s') <= L')%nat as Hs' by lia.
  specialize (Hk L' eq_refl a s' Hs'). destruct (k a s'); try done. lia.
Qed.

Lemma within_try_except {A} (m : M A) handler L L2 :
  Shape.within L m L2 -> (forall e, Shape.within L (handler e) L2) ->
  Shape.within L (try_except m handler) L2.
Proof.
  intros Hm Hh s Hs. unfold try_except. specialize (Hm s Hs).
  destruct (m s) as [|e s'| |]; try done.
  specialize (Hh e s' Hm). by destruct (handler e s').
Qed.

Lemma within_call a L : Shape.within L (call a) L.
Proof. by intros s Hs. Qed.

Lemma within_send_message c t m r L : Shape.within L (send_message c t m r) L.
Proof. by intros s Hs. Qed.

Lemma within_getattr name L : Shape.within L (getattr name) L.
Proof. intros s Hs. unfold getattr. by destruct (attrs s !! name). Qed.

Lemma within_getitem {A} key (field : option A) L :
  Shape.within L (getitem key field) L.
Proof. destruct field; [by apply within_ret|apply within_raise]. Qed.

(** One step of the proof of a bound: at a primitive, through a bind or a
    handler, by a bound at hand with the arithmetic left to [lia], or by
    cases on what is matched. *)
Ltac within_step :=
  first
    [ apply within_ret; lia | apply within_raise | apply within_close_resources
    | apply within_call | apply within_send_message
    | apply within_getattr | apply within_getitem
    | (eapply within_weaken; [apply within_call|lia])
    | (eapply within_weaken; [apply within_send_message|lia])
    | (eapply within_weaken; [apply within_getattr|lia])
    | (eapply within_weaken; [apply within_getitem|lia])
    | apply within_bind; [|intros ?]
    | apply within_try_except; [|intros ?]
    | match goal with
      | |- Shape.within _ (match ?x with _ => _ end) _ => destruct x
      | |- Shape.within _ (if ?x then _ else _) _ => destruct x
      end ].

Lemma within_loc_get key kwargs L : Shape.within L (loc_get key kwargs) L.
Proof. unfold loc_get. repeat within_step. Qed.

Lemma within_loc_str key L : Shape.within L (loc_str render key) L.
Proof. unfold loc_str. repeat within_step. Qed.

Lemma within_create_buttons_from page_data L :
  forall i, Shape.within L (_create_buttons_from i page_data) L.
Proof.
  induction page_data as [|d page_data IH]; intros i;
    cbn [_create_buttons_from]; repeat first [within_step | apply IH].
Qed.

Lemma within_collect_tracks all_entries collect rest L :
  forall tracks,
    Shape.within L (collect_tracks chat extract_info all_entries collect tracks rest) L.
Proof.
  induction rest as [|da rest IH]; intros tracks; cbn [collect_tracks];
    repeat first [within_step | apply within_loc_get | apply IH].
Qed.

Lemma within_send_audio_file url headers title uploader thumb_url L :
  Shape.within L
    (_send_audio_file chat requests_get url headers title uploader thumb_url) L.
Proof.
  unfold _send_audio_file. repeat first [within_step | apply within_loc_get].
Qed.

Lemma receive_next_update_consumes : Shape.consumes (__receive_next_update chat).
Proof.
  intros s. pose proof (receive_next_update_cases chat s) as Hr.
  pose proof (steady_receive_next_update chat s) as Hs.
  destruct (__receive_next_update chat s) as [d s'|e s'| |]; [| |done|done].
  - destruct Hr as (q & Hq & -> & _). rewrite Hq. simpl. lia.
  - destruct Hs as ((_ & Hsuffix & _) & _). by apply suffix_length.
Qed.

Lemma consumes_step {A B} (m : M A) (k : A -> M B) fuel :
  Shape.consumes m ->
  (forall a s s',
      m s = Ret a s' -> (length (queue s') < fuel)%nat ->
      match k a s' with
      | Ret _ s'' => (length (queue s'') <= length (queue s'))%nat
      | Raise _ s'' => (length (queue s'') <= length (queue s'))%nat
      | Exit _ => True
      | OutOfFuel => False
      end) ->
  forall s, (length (queue s) < S fuel)%nat ->
    match bind m k s with
    | Ret _ s' => (length (queue s') < length (queue s))%nat
    | Raise _ s' => (length (queue s') <= length (queue s))%nat
    | Exit _ => True
    | OutOfFuel => False
    end.
Proof.
  intros Hm Hk s Hs. unfold bind. specialize (Hm s).
  destruct (m s) as [a s'|e s'| |] eqn:Hms; [|done|done|done].
  specialize (Hk a s s' Hms ltac:(lia)). destruct (k a s'); try done; lia.
Qed.

Lemma wait_for_specific_message_consumes items cancellable :
  Shape.consumes (_wait_for_specific_message chat items cancellable).
Proof.
  assert (forall fuel s,
             (length (queue s) < fuel)%nat ->
             match _wait_for_specific_message_loop chat fuel items cancellable s with
             | Ret _ s' => (length (queue s') < length (queue s))%nat
             | Raise _ s' => (length (queue s') <= length (queue s))%nat
             | Exit _ => True
             | OutOfFuel => False
             end) as Hloop.
  { induction fuel as [|fuel IH]; intros s Hs; [lia|].
    cbn [_wait_for_specific_message_loop].
    apply (consumes_step _ _ fuel); [apply receive_next_update_consumes| |done].
    intros d s0 s' _ Hs'. specialize (IH s' Hs').
    assert (match _wait_for_specific_message_loop chat fuel items cancellable s' with
            | Ret _ s'' | Raise _ s'' => (length (queue s'') <= length (queue s'))%nat
            | Exit _ => True
            | OutOfFuel => False
            end) as IH'.
    { destruct (_wait_for_specific_message_loop _ _ _ _ _); try done; lia. }
    destruct d as [u| |reason]; simpl; [| |done].
    - destruct (message u) as [m|]; [|done].
      destruct (text m) as [t|]; [|done].
      case_bool_decide; [simpl; lia|done].
    - destruct cancellable; [simpl; lia|done]. }
  intros s. apply Hloop. lia.
Qed.

Lemma wait_for_regex_consumes regex cancellable :
  Shape.consumes (__wait_for_regex chat regex cancellable).
Proof.
  assert (forall fuel s,
             (length (queue s) < fuel)%nat ->
             match __wait_for_regex_loop chat fuel regex cancellable s with
             | Ret _ s' => (length (queue s') < length (queue s))%nat
             | Raise _ s' => (length (queue s') <= length (queue s))%nat
             | Exit _ => True
             | OutOfFuel => False
             end) as Hloop.
  { induction fuel as [|fuel IH]; intros s Hs; [lia|].
    cbn [__wait_for_regex_loop].
    apply (consumes_step _ _ fuel); [apply receive_next_update_consumes| |done].
    intros d s0 s' _ Hs'. specialize (IH s' Hs').
    assert (match __wait_for_regex_loop chat fuel regex cancellable s' with
            | Ret _ s'' | Raise _ s'' => (length (queue s'') <= length (queue s'))%nat
            | Exit _ => True
            | OutOfFuel => False
            end) as IH'.
    { destruct (__wait_for_regex_loop _ _ _ _ _); try done; lia. }
    destruct d as [u| |reason]; simpl; [| |done].
    - destruct (message u) as [m|]; [|done].
      destruct (text m) as [t|]; [|done].
      destruct (regex t); [simpl; lia|done].
    - destruct cancellable; [simpl; lia|done]. }
  intros s. apply Hloop. lia.
Qed.

Lemma wait_for_inlinekeyboard_callback_consumes cancellable :
  Shape.consumes (__wait_for_inlinekeyboard_callback chat cancellable).
Proof.
  assert (forall fuel s,
             (length (queue s) < fuel)%nat ->
             match __wait_for_inlinekeyboard_callback_loop chat fuel cancellable s with
             | Ret _ s' => (length (queue s') < length (queue s))%nat
             | Raise _ s' => (length (queue s') <= length (queue s))%nat
             | Exit _ => True
             | OutOfFuel => False
             end) as Hloop.
  { induction fuel as [|fuel IH]; intros s Hs; [lia|].
    cbn [__wait_for_inlinekeyboard_callback_loop].
    apply (consumes_step _ _ fuel); [apply receive_next_update_consumes| |done].
    intros d s0 s' _ Hs'. specialize (IH s' Hs').
    assert (match __wait_for_inlinekeyboard_callback_loop chat fuel cancellable s' with
            | Ret _ s'' | Raise _ s'' => (length (queue s'') <= length (queue s'))%nat
            | Exit _ => True
            | OutOfFuel => False
            end) as IH'.
    { destruct (__wait_for_inlinekeyboard_callback_loop _ _ _ _); try done; lia. }
    destruct d as [u| |reason]; simpl; [| |done].
    - destruct (callback_query u) as [c|]; [|done]. simpl. lia.
    - destruct cancellable; [simpl; lia|done]. }
  intros s. apply Hloop. lia.
Qed.

Lemma wait_for_user_selection_consumes :
  Shape.consumes (_wait_for_user_selection chat render).
Proof.
  intros s. unfold _wait_for_user_selection, bind.
  pose proof (within_loc_str "menu_user_mode" (length (queue s)) s ltac:(lia)) as H.
  destruct (loc_str render "menu_user_mode" s) as [mode s'| | |]; [|done|done|done].
  pose proof (wait_for_specific_message_consumes [mode] false s') as H'.
  destruct (_wait_for_specific_message _ _ _ _); try done; lia.
Qed.

(** A wait takes an item before the conversation goes on. *)
Ltac within_wait :=
  apply within_bind_consumes;
  [ first [ apply wait_for_inlinekeyboard_callback_consumes
          | apply wait_for_regex_consumes
          | apply wait_for_specific_message_consumes
          | apply wait_for_user_selection_consumes ]
  | intros ? -> ? ].

Ltac within_known :=
  first
    [ apply within_loc_get | apply within_loc_str
    | apply within_create_buttons_from | apply within_collect_tracks
    | apply within_send_audio_file
    | (eapply within_weaken; [apply within_loc_get|lia]) ].

(** A call of a function of the conversation, by the bound at hand. *)
Ltac within_call_known :=
  match goal with
  | H : forall L, _ -> Shape.within L ?f L |- Shape.within _ ?f _ =>
      eapply within_weaken; [apply H; lia|lia]
  | H : forall L _, _ -> Shape.within L (?f _) L |- Shape.within _ (?f _) _ =>
      eapply within_weaken; [apply H; lia|lia]
  | H : forall L _ _, _ -> Shape.within L (?f _ _) L |- Shape.within _ (?f _ _) _ =>
      eapply within_weaken; [apply H; lia|lia]
  | H : forall L _ _ _, _ -> Shape.within L (?f _ _ _) L
    |- Shape.within _ (?f _ _ _) _ =>
      eapply within_weaken; [apply H; lia|lia]
  | H : forall L _ _ _ _, _ -> Shape.within L (?f _ _ _ _) L
    |- Shape.within _ (?f _ _ _ _) _ =>
      eapply within_weaken; [apply H; lia|lia]
  end.

Ltac within_all :=
  repeat first [within_wait | within_step | within_known | within_call_known].

(** Six units of fuel per item of the queue, and a few more, take every
    function of the conversation to its end. *)
Lemma within_conversation n :
  (forall L, (2 + 6 * L <= n)%nat ->
     Shape.within L (__user_menu chat requests_get extract_info n) L)
  /\ (forall L m, (1 + 6 * L <= n)%nat ->
        Shape.within L (__user_menu_loop chat requests_get extract_info n m) L)
  /\ (forall L q m, (6 + 6 * L <= n)%nat ->
        Shape.within L
          (__handle_menu_selection chat requests_get extract_info n q m) L)
  /\ (forall L name, (3 + 6 * L <= n)%nat ->
        Shape.within L (_notify_updating chat requests_get extract_info n name) L)
  /\ (forall L i m, (1 + 6 * L <= n)%nat ->
        Shape.within L (_get_link chat requests_get extract_info n i m) L)
  /\ (forall L, (5 + 6 * L <= n)%nat ->
        Shape.within L (_soundcloud chat requests_get extract_info n) L)
  /\ (forall L l m, (4 + 6 * L <= n)%nat ->
        Shape.within L (_handle_extraction chat requests_get extract_info n l m) L)
  /\ (forall L d m, (2 + 6 * L <= n)%nat ->
        Shape.within L (_handle_playlist chat requests_get extract_info n d m) L)
  /\ (forall L d m, (3 + 6 * L <= n)%nat ->
        Shape.within L (_handle_url chat requests_get extract_info n d m) L)
  /\ (forall L d m l, (1 + 6 * L <= n)%nat ->
        Shape.within L (__show_one chat requests_get extract_info n d m l) L)
  /\ (forall L l p m, (1 + 6 * L <= n)%nat ->
        Shape.within L (__show_many chat requests_get extract_info n l p m) L)
  /\ (forall L q d u m, (3 + 6 * L <= n)%nat ->
        Shape.within L (__send_file chat requests_get extract_info n q d u m) L).
Proof.
  induction n as [|n (IH1 & IH2 & IH3 & IH4 & IH5 & IH6 & IH7 & IH8 & IH9 & IH10
                      & IH11 & IH12)].
  { split_and!; intros L; intros; lia. }
  split_and!; intros L; intros.
  - cbn [__user_menu]. unfold __create_keyboard, __send_user_menu_message. within_all.
  - cbn [__user_menu_loop]. within_all.
  - cbn [__handle_menu_selection]. within_all.
  - cbn [_notify_updating]. within_all.
  - cbn [_get_link]. unfold _clean_up_messages, _handle_invalid_link. within_all.
  - cbn [_soundcloud]. within_all.
  - cbn [_handle_extraction]. within_all.
  - cbn [_handle_playlist]. within_all.
  - cbn [_handle_url]. within_all.
  - cbn [__show_one]. within_all.
  - cbn [__show_many]. unfold _create_buttons, _create_navigation_buttons. within_all.
  - cbn [__send_file]. within_all.
Qed.

Lemma within_admin_menu n :
  forall L, (1 + 6 * L <= n)%nat ->
    Shape.within L (_admin_menu chat render requests_get extract_info n) L.
Proof.
  pose proof within_conversation as Hconv.
  induction n as [|n IH]; intros L Hn; [lia|].
  destruct (Hconv n) as (Hmenu & _).
  cbn [_admin_menu]. unfold _send_admin_menu, _switch_to_user_menu.
  within_all.
Qed.

Lemma within_run_conversation n L :
  (2 + 6 * L <= n)%nat ->
  Shape.within L (Shape.conversation chat render requests_get extract_info n) L.
Proof.
  intros Hn. destruct (within_conversation n) as (Hmenu & _).
  pose proof (within_admin_menu n) as Hadmin.
  unfold Shape.conversation. within_all.
Qed.

End ConversationEnds.

(** X11.  The thread of a worker ends.  With fuel for six calls per item
    its queue still delivers, and two more, [run] leaves the thread by
    [sys.exit] or returns; it neither goes on for ever nor lets an
    exception out. *)
Theorem run_ends
    (chat : Z) (render : string -> string -> string)
    (requests_get : string -> option Requests.response)
    (extract_info : string -> option Info.t)
    (telegram_user : Db.TelegramUser) (cfg : Worker.config)
    (n : nat) (s : Worker.state) :
  (2 + 6 * length (Worker.queue s) <= n)%nat ->
  match Worker.run chat render requests_get extract_info telegram_user cfg n s with
  | Worker.Ret _ _ | Worker.Exit _ => True
  | Worker.Raise _ _ | Worker.OutOfFuel => False
  end.
Proof.
  intros Hn.
  destruct (run_registers chat render requests_get extract_info telegram_user cfg n s)
    as (s1 & Hrun & Hq & Hadmin & Hs1).
  assert (exists language,
             Worker.attrs s1 !! "loc" = Some (Worker.VLocalization language))
    as (language & Hloc).
  { destruct (find _ _); destruct Hs1 as (_ & Hloc & _); by eexists. }
  pose proof (conversation_outcome chat render requests_get extract_info n s1
                language Hloc Hadmin) as Hout.
  pose proof (within_run_conversation chat render requests_get extract_info n
                (length (Worker.queue s)) Hn s1 ltac:(rewrite Hq; lia)) as Hfuel.
  rewrite Hrun.
  by destruct (Shape.conversation _ _ _ _ _ _).
Qed.

Lemma run_ends_witness :
  match
    Worker.run 7 Examples.render Examples.web Examples.resolver Examples.ann
      Examples.cfg 8
      (Examples.fresh [Worker.Upd (Examples.press "cmd_spotify")])
  with
  | Worker.Ret _ _ | Worker.Exit _ => True
  | Worker.Raise _ _ | Worker.OutOfFuel => False
  end.
Proof.
  apply (run_ends 7 Examples.render Examples.web Examples.resolver Examples.ann
           Examples.cfg 8 (Examples.fresh [Worker.Upd (Examples.press "cmd_spotify")])).
  simpl. lia.
Defined.

(** ** Rows of the item keyboard *)

Section Rows.
Import Py.

Lemma slice_nat {A} (l : list A) (a b : nat) :
  slice l (Z.of_nat a) (Z.of_nat b) = take (b - a) (drop a l).
Proof.
  unfold slice, clamp.
  rewrite !(proj2 (Z.ltb_ge _ 0)) by lia.
  change (@List.skipn A) with (@drop A).
  destruct (decide (length l <= a)%nat) as [Hge|Hlt].
  - rewrite (Z.min_l _ (Z.of_nat a)) by lia.
    rewrite Nat2Z.id, !(drop_ge l) by lia. by rewrite !take_nil.
  - rewrite (Z.min_r _ (Z.of_nat a)) by lia. rewrite Nat2Z.id.
    destruct (decide (length l <= b)%nat) as [Hlast|Hmore].
    + rewrite Z.min_l by lia.
      rewrite !take_ge; [done| |]; rewrite length_drop; lia.
    + rewrite Z.min_r by lia. f_equal. lia.
Qed.

Lemma pairs_lookup {A} (k : nat) :
  forall l : list A,
    pairs l !! k
    = if decide (2 * k < length l)%nat
      then Some (take 2 (drop (2 * k) l))
      else None.
Proof.
  induction k as [|k IH]; intros [|x [|y l]]; try done.
  cbn [pairs]. rewrite lookup_cons. rewrite IH.
  replace (2 * S k)%nat with (S (S (2 * k))) by lia. cbn [drop length].
  repeat case_decide; try done; lia.
Qed.

Lemma pairs_concat {A} (l : list A) : concat (pairs l) = l.
Proof.
  assert (forall n (l : list A), (length l <= n)%nat -> concat (pairs l) = l) as H.
  { clear l. induction n as [|n IH]; intros [|x [|y l]] Hl; try done;
      try (simpl in Hl; lia).
    cbn [pairs concat]. simpl in Hl. rewrite IH by lia. done. }
  by apply (H (length l)).
Qed.

End Rows.

(** X12.  The rows [__show_many] lays the item buttons in are the slices
    [buttons[i : i + 2]] for [i] = 0, 2, 4, ... below the number of
    buttons, and no more: read row by row they are the buttons in order,
    two to a row, the last row holding one when their number is odd. *)
Theorem rows_are_the_slices_by_two {A} (buttons : list A) :
  concat (Py.pairs buttons) = buttons
  /\ forall k : nat,
       Py.pairs buttons !! k
       = if decide (2 * k < length buttons)%nat
         then Some (Py.slice buttons (Z.of_nat (2 * k)) (Z.of_nat (2 * k) + 2))
         else None.
Proof.
  split; [apply pairs_concat|].
  intros k. rewrite pairs_lookup. case_decide; [|done].
  replace (Z.of_nat (2 * k) + 2) with (Z.of_nat (2 * k + 2)) by lia.
  rewrite slice_nat. do 2 f_equal. lia.
Qed.

(** ** The tracks of a playlist *)

Section Playlist.
Import Py Telegram Worker.
Variable chat : Z.
Variable extract_info : string -> option Info.t.




End Playlist.



(** ** The link [_get_link] accepts *)

Section Links.
Import PyStr Py Telegram Worker.
Variable chat : Z.
Variable requests_get : string -> option Requests.response.
Variable extract_info : string -> option Info.t.

Lemma prefix_split (p s : string) :
  String.prefix p s = true -> s = p +:+ drop (String.length p) s.
Proof.
  revert s. induction p as [|c p IH]; intros s H; [by destruct s|].
  destruct s as [|d s]; [done|]. simpl in H.
  destruct (ascii_dec c d) as [->|]; [|done].
  rewrite append_cons. cbn [String.length drop]. by rewrite <- IH.
Qed.

(** A whitespace character that starts a text starts every text that
    begins with it. *)
Lemma wide_space_prefix (a b : string) :
  wide_space a <> 0%nat -> wide_space (a +:+ b) = wide_space a.
Proof.
  destruct a as [|x [|y [|z a]]]; try done.
  unfold wide_space. rewrite !append_cons.
    destruct (Nat.eqb (nat_of_ascii x) 194
              && (Nat.eqb (nat_of_ascii y) 133 || Nat.eqb (nat_of_ascii y) 160));
      [done|]. by intros H.
Qed.

Lemma space_here_prefix (a b : string) :
  space_here a = true -> space_here (a +:+ b) = true.
Proof.
  destruct a as [|c a]; [done|]. rewrite append_cons. unfold space_here.
  intros [H|H]%orb_true_iff; [by rewrite H|].
  apply orb_true_iff. right. rewrite <- append_cons.
  apply negb_true_iff, Nat.eqb_neq in H.
  rewrite wide_space_prefix by done. by apply negb_true_iff, Nat.eqb_neq.
Qed.

Lemma take_nonspace_prefix (s : string) : exists rest, s = take_nonspace s +:+ rest.
Proof.
  induction s as [|c s (rest & IH)]; [by exists ""|].
  cbn [take_nonspace]. destruct (space_here (String c s)); [by eexists|].
  exists rest. by rewrite append_cons, <- IH.
Qed.

Lemma take_nonspace_spec (s : string) :
  Shape.no_whitespace (take_nonspace s) = true
  /\ exists rest, s = take_nonspace s +:+ rest.
Proof.
  split; [|apply take_nonspace_prefix].
  induction s as [|c s IH]; [done|].
  cbn [take_nonspace]. destruct (space_here (String c s)) eqn:Hc; [done|].
  cbn [Shape.no_whitespace]. rewrite IH, andb_true_r. apply negb_true_iff.
  destruct (space_here (String c (take_nonspace s))) eqn:Hrun; [|done].
  destruct (take_nonspace_prefix s) as (rest & Hrest).
  apply (space_here_prefix _ rest) in Hrun.
  rewrite append_cons, <- Hrest in Hrun. congruence.
Qed.

Lemma no_whitespace_plain_app (a b : string) :
  Shape.all_chars Shape.plain a = true ->
  Shape.no_whitespace (a +:+ b) = Shape.no_whitespace b.
Proof.
  induction a as [|c a IH]; [done|]. simpl Shape.all_chars.
  intros [Hc Ha]%andb_true_iff. rewrite append_cons. cbn [Shape.no_whitespace].
  by rewrite space_here_plain, IH.
Qed.

Lemma url_match_here_sound (s u : string) :
  url_match_here s = Some u ->
  (String.prefix "https://" u = true \/ String.prefix "http://" u = true)
  /\ Shape.no_whitespace u = true
  /\ exists rest, s = u +:+ rest.
Proof.
  assert (forall scheme,
             Shape.all_chars Shape.plain scheme = true ->
             (if String.prefix scheme s
              then match take_nonspace (drop (String.length scheme) s) with
                   | EmptyString => None
                   | run => Some (scheme +:+ run)
                   end
              else None) = Some u ->
             String.prefix scheme u = true
             /\ Shape.no_whitespace u = true
             /\ exists rest, s = u +:+ rest) as Hafter.
  { intros scheme Hscheme H.
    destruct (String.prefix scheme s) eqn:Hp; [|done].
    destruct (take_nonspace_spec (drop (String.length scheme) s))
      as (Hrun & rest & Hrest).
    destruct (take_nonspace _) as [|c run] eqn:Htake; [done|].
    injection H as <-. split_and!.
    - apply prefix_append.
    - by rewrite no_whitespace_plain_app.
    - exists rest. rewrite append_assoc, <- Hrest. by apply prefix_split. }
  unfold url_match_here.
  match goal with
  | |- match ?a with _ => _ end = _ -> _ => destruct a as [u'|] eqn:Hhttps
  end.
  - intros [= ->]. destruct (Hafter "https://" eq_refl Hhttps) as (? & ? & ?).
    split_and!; [by left|done|done].
  - intros H. destruct (Hafter "http://" eq_refl H) as (? & ? & ?).
    split_and!; [by right|done|done].
Qed.

Lemma url_search_sound (link u : string) :
  url_search link = Some u ->
  (String.prefix "https://" u = true \/ String.prefix "http://" u = true)
  /\ Shape.no_whitespace u = true
  /\ exists pre post, link = pre +:+ u +:+ post.
Proof.
  induction link as [|c link IH]; cbn [url_search].
  - destruct (url_match_here "") as [u'|] eqn:Hm; [|done].
    intros [= ->]. destruct (url_match_here_sound _ _ Hm) as (? & ? & rest & ?).
    split_and!; [done|done|]. by exists "", rest.
  - destruct (url_match_here (String c link)) as [u'|] eqn:Hm.
    + intros [= ->]. destruct (url_match_here_sound _ _ Hm) as (? & ? & rest & ?).
      split_and!; [done|done|]. by exists "", rest.
    + intros H. destruct (IH H) as (? & ? & pre & post & ->).
      split_and!; [done|done|]. by exists (String c pre), post.
Qed.

Lemma bind_Ret_inv {A B} (m : M A) (k : A -> M B) s b s' :
  bind m k s = Ret b s' -> exists a s1, m s = Ret a s1 /\ k a s1 = Ret b s'.
Proof.
  unfold bind. destruct (m s) as [a s1| | |]; [|done..]. intros H. by exists a, s1.
Qed.

Lemma wait_for_regex_text regex cancellable s t id s' :
  __wait_for_regex chat regex cancellable s = Ret (TText t id) s' ->
  exists update m t0,
    Upd update ∈ queue s /\ message update = Some m /\ text m = Some t0
    /\ regex t0 = Some t /\ message_id m = id.
Proof.
  unfold __wait_for_regex. generalize (S (length (queue s))) as fuel.
  intros fuel. revert s.
  induction fuel as [|fuel IH]; intros s H; [done|].
  cbn [__wait_for_regex_loop] in H.
  apply bind_Ret_inv in H as (d & s1 & Hd & H).
  pose proof (receive_next_update_cases chat s) as Hr. rewrite Hd in Hr.
  destruct Hr as (q & Hq & -> & _).
  assert (forall x, x ∈ queue (with_queue q s) -> x ∈ queue s) as Hin.
  { intros x Hx. rewrite Hq. by apply elem_of_cons; right. }
  assert (d ∈ queue s) as Hhere by (rewrite Hq; apply elem_of_cons; by left).
  assert (__wait_for_regex_loop chat fuel regex cancellable (with_queue q s)
          = Ret (TText t id) s' ->
          exists update m t0,
            Upd update ∈ queue s /\ message update = Some m /\ text m = Some t0
            /\ regex t0 = Some t /\ message_id m = id) as Hnext.
  { intros H'. destruct (IH _ H') as (u & m & t0 & Hu & ?).
    exists u, m, t0. split; [by apply Hin|done]. }
  destruct d as [u| |reason]; [| |done].
  - destruct (message u) as [m|] eqn:Hm; [|by apply Hnext].
    destruct (text m) as [t0|] eqn:Ht0; [|by apply Hnext].
    destruct (regex t0) as [g|] eqn:Hg; [|by apply Hnext].
    injection H as <- <- <-. by exists u, m, t0.
  - destruct cancellable; [done|by apply Hnext].
Qed.

Lemma never_returns_bind_l {A B} (m : M A) (k : A -> M B) :
  Shape.never_returns m -> Shape.never_returns (bind m k).
Proof.
  intros Hm s. unfold bind. specialize (Hm s). by destruct (m s).
Qed.

Lemma never_returns_Ret {A} (m : M A) s a s' :
  Shape.never_returns m -> m s = Ret a s' -> False.
Proof. intros Hm H. specialize (Hm s). by rewrite H in Hm. Qed.

Lemma get_link_sound n :
  forall i msg_link s url msg_id s',
    _get_link chat requests_get extract_info n i msg_link s
    = Ret (Some (url, msg_id)) s' ->
    (String.prefix "https://" url = true \/ String.prefix "http://" url = true)
    /\ contains "soundcloud" url = true
    /\ Shape.no_whitespace url = true
    /\ Shape.taken_from (queue s) url msg_id.
Proof.
  induction n as [|n IH]; intros i msg_link s url msg_id s' H; [done|].
  cbn [_get_link] in H.
  destruct (i <? MAX_RETRIES).
  2:{ apply bind_Ret_inv in H as (t & s1 & _ & H).
      apply bind_Ret_inv in H as (? & s2 & _ & H). done. }
  apply bind_Ret_inv in H as (got & s1 & Hgot & H).
  apply bind_Ret_inv in H as ([link id] & s2 & Hreceived & H).
  pose proof (steady_wait_for_regex chat regex_any true s) as Hsteady.
  rewrite Hgot in Hsteady. destruct Hsteady as ((_ & Hsuffix & _) & _).
  destruct got as [|t id'].
  { exfalso. eapply never_returns_Ret; [|exact Hreceived].
    apply never_returns_bind. intros _. apply never_returns_bind_l.
    apply user_menu_never_returns. }
  injection Hreceived as <- <- <-.
  apply wait_for_regex_text in Hgot as (u & m & t0 & Hu & Hm & Ht0 & [= <-] & Hid).
  cbn [fst snd] in H.
  destruct (url_search t0) as [found|] eqn:Hsearch.
  - destruct (contains "soundcloud" found) eqn:Hsc.
    + injection H as <- <- <-.
      destruct (url_search_sound _ _ Hsearch) as (Hscheme & Hns & pre & post & Ht).
      split_and!; [done|done|done|]. by exists u, m, t0, pre, post.
    + apply bind_Ret_inv in H as (? & s2 & Hinvalid & H).
      destruct (IH _ _ _ _ _ _ H) as (? & ? & ? & (u' & m' & t' & pre & post & Hu' & ?)).
      split_and!; [done|done|done|]. exists u', m', t', pre, post.
      split; [|done].
      pose proof (steady_handle_invalid_link chat i msg_link s1) as Hsteady. rewrite Hinvalid in Hsteady.
      destruct Hsteady as ((_ & Hsuffix' & _) & _).
      destruct Hsuffix as [k1 ->]. destruct Hsuffix' as [k2 ->].
      rewrite !elem_of_app. tauto.
  - apply bind_Ret_inv in H as (? & s2 & Hinvalid & H).
    destruct (IH _ _ _ _ _ _ H) as (? & ? & ? & (u' & m' & t' & pre & post & Hu' & ?)).
    split_and!; [done|done|done|]. exists u', m', t', pre, post.
    split; [|done].
    pose proof (steady_handle_invalid_link chat i msg_link s1) as Hsteady. rewrite Hinvalid in Hsteady.
    destruct Hsteady as ((_ & Hsuffix' & _) & _).
    destruct Hsuffix as [k1 ->]. destruct Hsuffix' as [k2 ->].
    rewrite !elem_of_app. tauto.
Qed.

End Links.

(** X14.  A link [_get_link] returns was found in the text of a message
    taken from the queue, and comes with the identifier of that message:
    it starts with [http://] or [https://], holds no whitespace, and holds
    [soundcloud]. *)
Theorem get_link_returns_a_soundcloud_url
    (chat : Z) (requests_get : string -> option Requests.response)
    (extract_info : string -> option Info.t)
    (n : nat) (i msg_link : Z) (s : Worker.state)
    (url : string) (msg_id : Z) (s' : Worker.state) :
  Worker._get_link chat requests_get extract_info n i msg_link s
  = Worker.Ret (Some (url, msg_id)) s' ->
  (PyStr.startswith "https://" url = true \/ PyStr.startswith "http://" url = true)
  /\ PyStr.contains "soundcloud" url = true
  /\ Shape.no_whitespace url = true
  /\ Shape.taken_from (Worker.queue s) url msg_id.
Proof. apply get_link_sound. Qed.

Lemma get_link_returns_a_soundcloud_url_witness :
  Shape.no_whitespace "https://soundcloud.com/a/t1" = true
  /\ Shape.taken_from
       [Worker.Upd (Examples.says 5 "listen to https://soundcloud.com/a/t1 please")]
       "https://soundcloud.com/a/t1" 5.
Proof.
  destruct (get_link_returns_a_soundcloud_url 7 Examples.web Examples.resolver
              1 0 9
              (Examples.ready
                 [Worker.Upd
                    (Examples.says 5 "listen to https://soundcloud.com/a/t1 please")])
              "https://soundcloud.com/a/t1" 5 (Examples.ready [])
              ltac:(vm_compute; reflexivity))
    as (_ & _ & Hns & Htaken).
  split; [exact Hns|exact Htaken].
Defined.

(** ** The identifiable string of a user *)

Section Identifiable.
Import PyStr.

Lemma pretty_Z_plain (z : Z) : Shape.all_chars Shape.plain (pretty z) = true.
Proof.
  assert (forall z : Z, 0 <= z -> Shape.all_chars Shape.plain (pretty z) = true)
    as Hpos.
  { intros z' Hz. apply (all_chars_impl Shape.is_digit); [|by apply pretty_Z_nonneg_digits].
    apply is_digit_plain. }
  destruct z as [|p|p]; [by apply Hpos|by apply Hpos|].
  change (pretty (Z.neg p)) with (String "-" (pretty (Z.pos p))).
  cbn [Shape.all_chars]. by rewrite (Hpos (Z.pos p)).
Qed.

Lemma take_nonspace_until_blank (a b : string) :
  Shape.all_chars Shape.plain a = true ->
  take_nonspace (a +:+ String " " b) = a.
Proof.
  induction a as [|c a IH]; intros Ha; [done|].
  cbn [Shape.all_chars] in Ha. apply andb_true_iff in Ha as [Hc Ha].
  rewrite append_cons. cbn [take_nonspace].
  rewrite space_here_plain by done. by rewrite IH.
Qed.

End Identifiable.

(** X15.  The identifiable string of a user leads back to the record: the
    run of characters after [user_], up to the first blank, reads as the
    identifier of the user.  So two users with the same identifiable string
    have the same identifier. *)
Theorem identifiable_str_leads_back_to_the_user (u : Db.User) :
  PyStr.startswith "user_" (Db.identifiable_str u) = true
  /\ PyStr.int
       (PyStr.take_nonspace (PyStr.drop (String.length "user_") (Db.identifiable_str u)))
     = Some (Db.user_id u)
  /\ forall u', Db.identifiable_str u' = Db.identifiable_str u ->
                Db.user_id u' = Db.user_id u.
Proof.
  assert (forall u : Db.User,
             PyStr.int
               (PyStr.take_nonspace
                  (PyStr.drop (String.length "user_") (Db.identifiable_str u)))
             = Some (Db.user_id u)) as Hback.
  { clear u. intros u. unfold Db.identifiable_str.
    change (PyStr.drop (String.length "user_") ("user_" +:+ ?x)) with x.
    change (pretty (Db.user_id u) +:+ " (" +:+ ?x)
      with (pretty (Db.user_id u) +:+ String " " ("(" +:+ x)).
    rewrite take_nonspace_until_blank by apply pretty_Z_plain.
    apply int_pretty_Z. }
  split_and!.
  - unfold Db.identifiable_str. apply prefix_append.
  - apply Hback.
  - intros u' Heq. pose proof (Hback u') as H'. rewrite Heq, Hback in H'.
    by injection H'.
Qed.

(** ** What the dispatcher delivers *)

Section Delivery.
Import Telegram Core.
Variable default_language : string.
Variable render : string -> string -> string.
Variable update : Update.

Lemma delivered_refl s : Shape.delivered update s s.
Proof.
  split_and!; [done|done|]. intros r. destruct (heap s !! r) as [w|] eqn:Hw; [|done].
  exists []. rewrite app_nil_r. split_and!; [by destruct w|done|done].
Qed.

Lemma delivered_trans s1 s2 s3 :
  Shape.delivered update s1 s2 -> Shape.delivered update s2 s3 ->
  Shape.delivered update s1 s3.
Proof.
  intros (Hc1 & Ho1 & Hh1) (Hc2 & Ho2 & Hh2).
  split_and!; [congruence|by etrans|].
  intros r. specialize (Hh1 r). specialize (Hh2 r).
  destruct (heap s1 !! r) as [w|].
  - destruct Hh1 as (items1 & Hw2 & Hall1 & Hreg1). rewrite Hw2 in Hh2.
    destruct Hh2 as (items2 & Hw3 & Hall2 & Hreg2). simpl in Hw3.
    exists (items1 ++ items2). split_and!.
    + by rewrite Hw3, app_assoc.
    + by apply Forall_app.
    + intros Hne. destruct items1 as [|d items1].
      * destruct (Hreg2 Hne) as (c & Hc & Hr). exists c. by rewrite <- Hc1.
      * by apply Hreg1.
  - by rewrite Hh1 in Hh2.
Qed.

Lemma delivered_call a s : Shape.delivered update s (call a s).
Proof.
  destruct (delivered_refl s) as (? & ? & ?).
  split_and!; [done|by apply prefix_app_r|done].
Qed.

Lemma delivered_set_pc p s : Shape.delivered update s (set_pc p s).
Proof. destruct (delivered_refl s) as (? & ? & ?). by split_and!. Qed.

Lemma delivered_put r d c s :
  d ∈ [Worker.CancelSignal; Worker.Upd update] ->
  c ∈ Shape.senders update ->
  chat_workers s !! c = Some r ->
  Shape.delivered update s (put r d s).
Proof.
  intros Hd Hc Hr. split_and!; [done|done|].
  intros r'. unfold put, set_heap. cbn [heap].
  rewrite list_lookup_alter.
  destruct (heap s !! r') as [w|] eqn:Hw.
  - case_decide as Heq.
    + subst r'. exists [d]. rewrite Hw. split_and!; [done|by apply Forall_singleton|].
      intros _. by exists c.
    + exists []. rewrite app_nil_r. split_and!; [by destruct w|done|done].
  - case_decide; [subst; by rewrite Hw|done].
Qed.

Lemma delivered_and_then s0 f k :
  Shape.delivered update s0 (finish f) ->
  (forall s, Shape.delivered update s0 s -> Shape.delivered update s0 (finish (k s))) ->
  Shape.delivered update s0 (finish (and_then f k)).
Proof. destruct f; simpl; try done. intros H Hk. by apply Hk. Qed.

Lemma delivered_step s0 s s' :
  Shape.delivered update s0 s -> Shape.delivered update s s' ->
  Shape.delivered update s0 s'.
Proof. apply delivered_trans. Qed.

Lemma delivered_registry s0 s c :
  Shape.delivered update s0 s -> chat_workers s !! c = chat_workers s0 !! c.
Proof. intros (-> & _). done. Qed.

Lemma handle_message_delivers m s :
  Shape.starts update = false ->
  message update = Some m ->
  Shape.delivered update s (finish (handle_message default_language render m update s)).
Proof.
  intros Hstarts Hm. unfold Shape.starts in Hstarts. rewrite Hm in Hstarts.
  assert (chat_id m ∈ Shape.senders update) as Hsender.
  { unfold Shape.senders. rewrite Hm, !elem_of_app. left. apply list_elem_of_here. }
  unfold handle_message.
  destruct (bool_decide (chat_type m = "private")); [|apply delivered_call].
  simpl in Hstarts. rewrite Hstarts. cbn [negb].
  destruct (chat_workers s !! chat_id m) as [r|] eqn:Hr; [|apply delivered_call].
  destruct (heap s !! r) as [w|]; [|apply delivered_set_pc].
  destruct (Worker.is_ready _) as [e|[]]; [apply delivered_set_pc| |apply delivered_call].
  destruct (w_attrs w !! "loc") as [[]|]; try apply delivered_set_pc.
  case_bool_decide; cbn [finish].
  - eapply delivered_put; [|exact Hsender|exact Hr].
    repeat first [apply list_elem_of_here | apply list_elem_of_further].
  - eapply delivered_put; [|exact Hsender|exact Hr].
    repeat first [apply list_elem_of_here | apply list_elem_of_further].
Qed.

Lemma handle_callback_query_delivers q s0 s :
  callback_query update = Some q ->
  Shape.delivered update s0 s ->
  Shape.delivered update s0 (finish (handle_callback_query default_language q update s)).
Proof.
  intros Hq H0.
  assert (cq_from_user q ∈ Shape.senders update) as Hsender.
  { unfold Shape.senders. rewrite Hq, !elem_of_app. right. left.
    apply list_elem_of_here. }
  eapply delivered_trans; [exact H0|].
  unfold handle_callback_query.
  destruct (chat_workers s !! cq_from_user q) as [r|] eqn:Hr; [|apply delivered_call].
  case_bool_decide; cbn [finish].
  - eapply delivered_trans; [|apply delivered_call].
    eapply delivered_put; [|exact Hsender|exact Hr].
    repeat first [apply list_elem_of_here | apply list_elem_of_further].
  - eapply delivered_put; [|exact Hsender|exact Hr].
    repeat first [apply list_elem_of_here | apply list_elem_of_further].
Qed.

Lemma handle_pre_checkout_query_delivers p s0 s :
  pre_checkout_query update = Some p ->
  Shape.delivered update s0 s ->
  Shape.delivered update s0
    (finish (handle_pre_checkout_query default_language p update s)).
Proof.
  intros Hp H0.
  assert (pcq_from_user p ∈ Shape.senders update) as Hsender.
  { unfold Shape.senders. rewrite Hp, !elem_of_app. right. right.
    apply list_elem_of_here. }
  eapply delivered_trans; [exact H0|].
  unfold handle_pre_checkout_query.
  destruct (chat_workers s !! pcq_from_user p) as [r|] eqn:Hr; [|apply delivered_call].
  destruct (heap s !! r) as [w|]; [|apply delivered_set_pc].
  destruct (w_attrs w !! "invoice_payload") as [payload|]; [|apply delivered_set_pc].
  destruct (match payload with Worker.VStr _ => _ | _ => _ end);
    cbn [finish]; [|apply delivered_call].
  eapply delivered_put; [|exact Hsender|exact Hr].
  repeat first [apply list_elem_of_here | apply list_elem_of_further].
Qed.

Lemma handle_update_delivers s :
  Shape.starts update = false ->
  Shape.delivered update s (finish (handle_update default_language render update s)).
Proof.
  intros Hstarts. unfold handle_update.
  apply delivered_and_then; [apply delivered_and_then|].
  - destruct (message update) as [m|] eqn:Hm; [|apply delivered_refl].
    by apply handle_message_delivers.
  - intros s1 H1. destruct (callback_query update) as [q|] eqn:Hq; [|exact H1].
    by apply handle_callback_query_delivers.
  - intros s1 H1. destruct (pre_checkout_query update) as [p|] eqn:Hp; [|exact H1].
    by apply handle_pre_checkout_query_delivers.
Qed.

End Delivery.

(** X16.  Handling an update that is not a start command keeps the
    dictionary of workers, keeps the calls made so far, and keeps every
    worker and what its queue holds: a worker only gets items at the end
    of its queue, each a cancel signal or the update itself, and gets none
    unless it is the worker registered for the chat of the message or for
    the sender of the query in the update. *)
Theorem update_reaches_only_the_worker_of_its_chat
    (default_language : string) (render : string -> string -> string)
    (update : Telegram.Update) (s : Core.state) (r : nat) :
  Shape.starts update = false ->
  let s' := Core.finish (Core.handle_update default_language render update s) in
  Core.chat_workers s' = Core.chat_workers s
  /\ Core.out s `prefix_of` Core.out s'
  /\ match Core.heap s !! r with
     | Some w =>
         exists items,
           Core.heap s' !! r
           = Some {| Core.w_chat := Core.w_chat w;
                     Core.w_attrs := Core.w_attrs w;
                     Core.w_queue := Core.w_queue w ++ items;
                     Core.w_alive := Core.w_alive w |}
           /\ Forall (fun d => d ∈ [Worker.CancelSignal; Worker.Upd update]) items
           /\ (items <> [] ->
               exists c, c ∈ Shape.senders update
                         /\ Core.chat_workers s !! c = Some r)
     | None => Core.heap s' !! r = None
     end.
Proof.
  intros Hstarts.
  destruct (handle_update_delivers default_language render update s Hstarts)
    as (Hc & Ho & Hh).
  split_and!; [exact Hc|exact Ho|apply Hh].
Qed.

Lemma update_reaches_only_the_worker_of_its_chat_witness :
  Core.heap
    (Core.finish
       (Core.handle_update "en" Examples.render (Examples.says 4 "hello")
          Examples.localized))
  !! 0%nat
  = Some {| Core.w_chat := 7;
            Core.w_attrs := <["loc" := Worker.VLocalization "en"]> Worker.__init__;
            Core.w_queue := [Worker.Upd (Examples.says 4 "hello")];
            Core.w_alive := true |}
  /\ Core.chat_workers
       (Core.finish
          (Core.handle_update "en" Examples.render (Examples.says 4 "hello")
             Examples.localized))
     = Core.chat_workers Examples.localized.
Proof.
  split; [reflexivity|].
  exact (proj1 (update_reaches_only_the_worker_of_its_chat "en" Examples.render
                  (Examples.says 4 "hello") Examples.localized 0 eq_refl)).
Defined.

(** ** A cancel signal where no wait is cancellable *)

Section CancelDropped.
Import Telegram Worker.
Variable chat : Z.
Variable requests_get : string -> option Requests.response.
Variable extract_info : string -> option Info.t.













Lemma skips_bind_wait {A B} (m : M A) (k : A -> M B) :
  (forall s q, queue s = CancelSignal :: q -> m s = m (with_queue q s)) ->
  Shape.skips_cancel (bind m k).
Proof. intros Hm s q Hq. left. unfold bind. by rewrite (Hm s q Hq). Qed.

Lemma wait_for_inlinekeyboard_callback_skips s q :
  queue s = CancelSignal :: q ->
  __wait_for_inlinekeyboard_callback chat false s
  = __wait_for_inlinekeyboard_callback chat false (with_queue q s).
Proof.
  intros Hq.
  assert (forall fuel,
             __wait_for_inlinekeyboard_callback_loop chat (S fuel) false s
             = __wait_for_inlinekeyboard_callback_loop chat fuel false
                 (with_queue q s)) as Hstep.
  { intros fuel. cbn [__wait_for_inlinekeyboard_callback_loop].
    rewrite (bind_ret (__receive_next_update chat) _ s CancelSignal (with_queue q s));
      [done|].
    unfold __receive_next_update.
    rewrite (bind_ret queue_get _ s (Some CancelSignal) (with_queue q s)); [done|].
    unfold queue_get. by rewrite Hq. }
  unfold __wait_for_inlinekeyboard_callback. rewrite Hq.
  cbn [length queue with_queue]. apply Hstep.
Qed.

Lemma user_menu_loop_skips n message_user_menu :
  Shape.skips_cancel
    (__user_menu_loop chat requests_get extract_info n message_user_menu).
Proof.
  destruct n as [|n]; [by left|].
  cbn [__user_menu_loop]. apply skips_bind_wait.
  apply wait_for_inlinekeyboard_callback_skips.
Qed.


End CancelDropped.



(** X19.  [_send_audio_file] lets no failure out: it always returns.  It
    makes one call, the [send_audio] with the title and the file name
    built from the uploader and the title, exactly when both downloads
    succeed and the localization is bound; otherwise it makes no call at
    all, so the user is told nothing. *)
Theorem send_audio_file_swallows_every_failure
    (chat : Z) (requests_get : string -> option Requests.response)
    (url headers title uploader thumb_url : string) (s : Worker.state) :
  let sent :=
    match requests_get url, requests_get thumb_url, Worker.attrs s !! "loc" with
    | Some audio, Some thumb, Some (Worker.VLocalization language) =>
        [Telegram.SendAudio chat (Requests.content audio) (Requests.content thumb)
           (Telegram.Loc language "caption" [("title", title)])
           (uploader +:+ " - " +:+ title)
           (uploader +:+ " - " +:+ title +:+ ".mp3")]
    | _, _, _ => []
    end in
  Worker._send_audio_file chat requests_get url headers title uploader thumb_url s
  = Worker.Ret tt
      {| Worker.attrs := Worker.attrs s; Worker.queue := Worker.queue s;
         Worker.out := Worker.out s ++ sent;
         Worker.next_message_id := Worker.next_message_id s;
         Worker.db := Worker.db s |}.
Proof.
  assert (s = {| Worker.attrs := Worker.attrs s; Worker.queue := Worker.queue s;
                 Worker.out := Worker.out s ++ [];
                 Worker.next_message_id := Worker.next_message_id s;
                 Worker.db := Worker.db s |}) as Hs.
  { rewrite app_nil_r. by destruct s. }
  unfold Worker._send_audio_file, Worker.try_except.
  destruct (requests_get url) as [audio|]; [|simpl; by rewrite <- Hs].
  destruct (requests_get thumb_url) as [thumb|]; [|simpl; by rewrite <- Hs].
  unfold Worker.bind, Worker.loc_get, Worker.bind, Worker.getattr.
  destruct (Worker.attrs s !! "loc") as [[]|]; simpl; try by rewrite <- Hs.
  done.
Qed.

(** X20.  The Cancel key [_soundcloud] offers is labelled with the English
    [menu_cancel].  When a worker that is ready gets that label as a
    private message, the dispatcher puts a cancel signal in its queue
    exactly when the language of the worker renders [menu_cancel] as the
    English text; for any other rendering it forwards the message as an
    update. *)
Theorem cancel_key_is_recognised_in_english_only
    (default_language : string) (render : string -> string -> string)
    (m : Telegram.Message) (update : Telegram.Update) (s : Core.state)
    (r : nat) (w : Core.worker) (language : string) :
  Telegram.chat_type m = "private" ->
  Telegram.text m = Some Shape.menu_cancel ->
  Core.chat_workers s !! Telegram.chat_id m = Some r ->
  Core.heap s !! r = Some w ->
  Core.w_attrs w !! "loc" = Some (Worker.VLocalization language) ->
  Worker.cancel_keyboard = [[Telegram.Lit Shape.menu_cancel]]
  /\ Core.handle_message default_language render m update s
     = Core.Through
         (Core.put r
            (if decide (render language "menu_cancel" = Shape.menu_cancel)
             then Worker.CancelSignal
             else Worker.Upd update)
            s).
Proof.
  intros Hprivate Htext Hr Hw Hloc. split; [reflexivity|].
  unfold Core.handle_message.
  rewrite Hprivate, Htext, Hr, Hw. simpl negb. cbn iota.
  change (Core.is_start (Some Shape.menu_cancel)) with false. cbn iota.
  unfold Worker.is_ready. rewrite Hloc.
  case_bool_decide as Heq; case_decide as Heq'; try done.
  - injection Heq as Heq. by rewrite Heq in Heq'.
  - by rewrite Heq' in Heq.
Qed.

Lemma cancel_key_is_recognised_in_english_only_witness :
  Core.handle_message "en" (fun _ _ => Shape.menu_cancel)
    (Examples.private_message 4 Shape.menu_cancel)
    (Examples.says 4 Shape.menu_cancel) Examples.localized
  = Core.Through (Core.put 0 Worker.CancelSignal Examples.localized).
Proof.
  exact (proj2 (cancel_key_is_recognised_in_english_only "en"
                  (fun _ _ => Shape.menu_cancel)
                  (Examples.private_message 4 Shape.menu_cancel)
                  (Examples.says 4 Shape.menu_cancel) Examples.localized
                  0 _ "en" eq_refl eq_refl eq_refl eq_refl eq_refl)).
Defined.
